(** * QR Live Protocol: a shallow embedding of the verification-data
      aggregation engine

    The development follows the Python sources module by module:
    - [Py]: the fragment of Python's data model the sources rely on
      (JSON-native values, insertion-ordered dictionaries, exceptions);
    - [Json]: the encoder and the decoder of Python's [json];
    - [TimeProvider]: [src/time_provider.py];
    - [BlockchainVerifier]: [src/blockchain_verifier.py];
    - [IdentityManager]: [src/identity_manager.py];
    - [Core]: [src/core.py] ([QRData] and [QRLiveProtocol]);
    - [QRGenerator]: [src/qr_generator.py] (the image cache and the chunks);
    - [Demo]: one concrete instance to run the operations on.
    The properties proved of them follow, component by component.

    Everything the sources obtain from outside the process (clock, network,
    file system, lock availability) is an explicit input of the operation
    that reads it. Python floats that carry times and offsets are idealised
    as rationals. *)

From Stdlib Require Import String Ascii List ZArith QArith Bool Lia.
From Stdlib Require Import Qabs Qround DecimalString DecimalFacts DecimalPos DecimalN DecimalZ.
From Stdlib Require Import Sorted Permutation Lqa.
Import ListNotations.

Local Open Scope string_scope.
Local Open Scope list_scope.

(* ===================================================================== *)
(** * Python data model *)
(* ===================================================================== *)

Module Py.

(** The exception classes the sources raise or catch. *)
Inductive exn : Type :=
| JSONDecodeError
| ValueError
| KeyError
| TypeError
| AttributeError
| DataOverflowError.

Definition exn_eqb (a b : exn) : bool :=
  match a, b with
  | JSONDecodeError, JSONDecodeError
  | ValueError, ValueError
  | KeyError, KeyError
  | TypeError, TypeError
  | AttributeError, AttributeError
  | DataOverflowError, DataOverflowError => true
  | _, _ => false
  end.

(** [json.JSONDecodeError] is a subclass of [ValueError]; the other classes
    are unrelated. [isinstance e cls] is what an [except cls] clause tests. *)
Definition isinstance (e cls : exn) : bool :=
  match e, cls with
  | JSONDecodeError, ValueError => true
  | _, _ => exn_eqb e cls
  end.

(** A call either returns a value or raises. *)
Inductive outcome (A : Type) : Type :=
| Ret (a : A)
| Raise (e : exn).
Arguments Ret {A} a.
Arguments Raise {A} e.

Definition bind {A B} (m : outcome A) (k : A -> outcome B) : outcome B :=
  match m with
  | Ret a => k a
  | Raise e => Raise e
  end.

Definition returns {A} (m : outcome A) : bool :=
  match m with Ret _ => true | Raise _ => false end.

(** Values that [json.loads] produces and [json.dumps] accepts. A float is
    carried as the text [json] writes for it (its [repr]); float arithmetic
    is not part of this type. A [str] is a sequence of code points below
    256; a [dict] keeps its items in insertion order. *)
#[warnings="-register-all"]
Inductive pyval : Type :=
| PNone
| PBool (b : bool)
| PInt (z : Z)
| PFloat (lit : string)
| PStr (s : string)
| PList (l : list pyval)
| PDict (d : list (string * pyval)).

(** A float literal denotes zero when every digit of its mantissa is 0
    (literals that merely round to zero are not recognised). *)
Fixpoint mantissa_zero (lit : string) : bool :=
  match lit with
  | EmptyString => true
  | String c r =>
      if Ascii.eqb c "e" || Ascii.eqb c "E" then true
      else if Ascii.eqb c "0" || Ascii.eqb c "." || Ascii.eqb c "-"
      then mantissa_zero r
      else false
  end.

(** Python's truth value testing ([if v:]). *)
Definition truthy (v : pyval) : bool :=
  match v with
  | PNone => false
  | PBool b => b
  | PInt z => negb (Z.eqb z 0)
  | PFloat lit => negb (mantissa_zero lit)
  | PStr s => negb (String.eqb s "")
  | PList l => match l with [] => false | _ => true end
  | PDict d => match d with [] => false | _ => true end
  end.

(** [v == s] for a [str] [s]: only an equal [str] compares equal. *)
Definition eq_str (v : pyval) (s : string) : bool :=
  match v with
  | PStr t => String.eqb t s
  | _ => false
  end.

(** [o == v] where [o] is the result of [d.get(k)] on a [Dict[str, str]]:
    [None] equals only [None], a [str] only an equal [str]. *)
Definition eq_opt_str (o : option string) (v : pyval) : bool :=
  match o, v with
  | None, PNone => true
  | Some h, PStr s => String.eqb h s
  | _, _ => false
  end.

(** ** Dictionaries (insertion-ordered, keys unique) *)

Section Dict.
Context {V : Type}.

Definition dict : Type := list (string * V).

(** [d.get(k)] *)
Fixpoint dict_get (k : string) (d : dict) : option V :=
  match d with
  | [] => None
  | (k', v) :: r => if String.eqb k k' then Some v else dict_get k r
  end.

(** [d[k] = v]: an existing key keeps its position, a new one is appended. *)
Fixpoint dict_set (k : string) (v : V) (d : dict) : dict :=
  match d with
  | [] => [(k, v)]
  | (k', v') :: r =>
      if String.eqb k k' then (k', v) :: r else (k', v') :: dict_set k v r
  end.

(** [del d[k]] for a key that is present (absent keys leave [d] as is). *)
Fixpoint dict_del (k : string) (d : dict) : dict :=
  match d with
  | [] => []
  | (k', v') :: r => if String.eqb k k' then r else (k', v') :: dict_del k r
  end.

(** [k in d] *)
Definition dict_mem (k : string) (d : dict) : bool :=
  match dict_get k d with Some _ => true | None => false end.

Definition dict_keys (d : dict) : list string := map fst d.
Definition dict_values (d : dict) : list V := map snd d.

(** [dict(pairs)]: later pairs overwrite earlier ones. *)
Definition dict_of_pairs (pairs : list (string * V)) : dict :=
  fold_left (fun d kv => dict_set (fst kv) (snd kv) d) pairs [].
End Dict.
Arguments dict V : clear implicits.

(** [x in xs] for a collection of strings. *)
Definition str_in (x : string) (xs : list string) : bool :=
  existsb (String.eqb x) xs.

(** ** Dates and times *)

(** A [datetime]: the instant as POSIX seconds, and whether it carries a
    UTC offset (aware) or not (naive). *)
Record datetime : Type := mk_datetime {
  posix : Q;
  aware : bool
}.

(** What the sources take from the standard library and do not define:
    hashing, the ISO-8601 reader and writer, and the text of a float. *)
Class Externals : Type := {
  (** [hashlib.sha256(data).hexdigest()] and its siblings *)
  hashlib_sha256 : string -> string;
  hashlib_sha512 : string -> string;
  hashlib_md5 : string -> string;
  (** [hashlib.new(name)]: the digest function, or [None] where it raises
      [ValueError] (unsupported hash type) *)
  hashlib_new : string -> option (string -> string);
  (** [datetime.fromisoformat(s)]: [None] where it raises [ValueError] *)
  fromisoformat : string -> option datetime;
  (** [d.isoformat()] *)
  isoformat : datetime -> string;
  (** [repr(x)] of a float, as [json.dumps] writes it *)
  float_repr : Q -> string
}.

(** Induction on values, with the elements of lists and dictionaries. *)
Section PyvalInduction.
Variable P : pyval -> Prop.
Hypothesis HNone : P PNone.
Hypothesis HBool : forall b, P (PBool b).
Hypothesis HInt : forall z, P (PInt z).
Hypothesis HFloat : forall lit, P (PFloat lit).
Hypothesis HStr : forall s, P (PStr s).
Hypothesis HList : forall l, Forall P l -> P (PList l).
Hypothesis HDict : forall d, Forall (fun kv => P (snd kv)) d -> P (PDict d).

Fixpoint pyval_ind' (v : pyval) : P v :=
  match v with
  | PNone => HNone
  | PBool b => HBool b
  | PInt z => HInt z
  | PFloat lit => HFloat lit
  | PStr s => HStr s
  | PList l =>
      HList l
        ((fix go (l : list pyval) : Forall P l :=
            match l with
            | [] => Forall_nil P
            | x :: r => Forall_cons x (pyval_ind' x) (go r)
            end) l)
  | PDict d =>
      HDict d
        ((fix go (d : list (string * pyval)) : Forall (fun kv => P (snd kv)) d :=
            match d with
            | [] => Forall_nil _
            | kv :: r => Forall_cons kv (pyval_ind' (snd kv)) (go r)
            end) d)
  end.
End PyvalInduction.

End Py.

(* ===================================================================== *)
(** * Python's json: the encoder and the decoder *)
(* ===================================================================== *)

Module Json.
Import Py.
Local Open Scope string_scope.

(** The double quote. *)
Definition dq : ascii := "034"%char.

Definition code (c : ascii) : nat := nat_of_ascii c.

(** ** Encoder ([json.dumps], [ensure_ascii=True]) *)

Definition hex_char (n : nat) : ascii :=
  nth n [ "0"; "1"; "2"; "3"; "4"; "5"; "6"; "7"; "8"; "9";
          "a"; "b"; "c"; "d"; "e"; "f" ]%char "0"%char.

(** What the encoder writes for one character of a string: the short
    escapes, [\u00XX] for everything else outside [' '..'~'], and the
    character itself otherwise. *)
Definition escape_char (c : ascii) : string :=
  if Ascii.eqb c dq then String "\" (String dq "")
  else if Ascii.eqb c "\" then "\\"
  else if Ascii.eqb c "010" then "\n"
  else if Ascii.eqb c "013" then "\r"
  else if Ascii.eqb c "009" then "\t"
  else if Ascii.eqb c "008" then "\b"
  else if Ascii.eqb c "012" then "\f"
  else if Nat.ltb (code c) 32 || Nat.ltb 126 (code c)
  then "\u00" ++ String (hex_char (code c / 16)%nat) (String (hex_char (code c mod 16)%nat) "")
  else String c "".

Fixpoint escape (s : string) : string :=
  match s with
  | EmptyString => EmptyString
  | String c r => escape_char c ++ escape r
  end.

Definition encode_str (s : string) : string :=
  String dq (escape s ++ String dq "").

(** [repr] of an [int]. *)
Definition encode_int (z : Z) : string :=
  DecimalString.NilZero.string_of_int (Z.to_int z).

Fixpoint join (sep : string) (parts : list string) : string :=
  match parts with
  | [] => ""
  | [x] => x
  | x :: r => x ++ sep ++ join sep r
  end.

(** [sorted(d.items())] on rendered items: insertion sort by key. *)
Fixpoint insert_item (kv : string * string) (l : list (string * string))
  : list (string * string) :=
  match l with
  | [] => [kv]
  | kv' :: r =>
      if String.leb (fst kv) (fst kv') then kv :: l else kv' :: insert_item kv r
  end.

Definition sort_items (l : list (string * string)) : list (string * string) :=
  fold_right insert_item [] l.

(** [json.dumps(v, sort_keys=.., separators=(item_sep, key_sep))] *)
Fixpoint dumps_with (sort_keys : bool) (item_sep key_sep : string) (v : pyval)
  : string :=
  match v with
  | PNone => "null"
  | PBool true => "true"
  | PBool false => "false"
  | PInt z => encode_int z
  | PFloat lit => lit
  | PStr s => encode_str s
  | PList l =>
      "[" ++ join item_sep (map (dumps_with sort_keys item_sep key_sep) l) ++ "]"
  | PDict d =>
      let rendered :=
        map (fun kv => (fst kv, dumps_with sort_keys item_sep key_sep (snd kv))) d in
      let ordered := if sort_keys then sort_items rendered else rendered in
      "{" ++ join item_sep
               (map (fun kr => encode_str (fst kr) ++ key_sep ++ snd kr) ordered)
          ++ "}"
  end.

(** [json.dumps(v, separators=(",", ":"))] *)
Definition dumps_compact (v : pyval) : string := dumps_with false "," ":" v.

(** [json.dumps(v, sort_keys=True)] with the default separators *)
Definition dumps_sorted (v : pyval) : string := dumps_with true ", " ": " v.

(** ** Decoder ([json.loads]) *)

Definition is_ws (c : ascii) : bool :=
  Ascii.eqb c " " || Ascii.eqb c "009" || Ascii.eqb c "010" || Ascii.eqb c "013".

Fixpoint skip_ws (s : string) : string :=
  match s with
  | EmptyString => EmptyString
  | String c r => if is_ws c then skip_ws r else s
  end.

Definition is_digit (c : ascii) : bool :=
  Nat.leb 48 (code c) && Nat.leb (code c) 57.

Definition hex_value (c : ascii) : option nat :=
  let n := code c in
  if Nat.leb 48 n && Nat.leb n 57 then Some (n - 48)%nat
  else if Nat.leb 97 n && Nat.leb n 102 then Some (n - 87)%nat
  else if Nat.leb 65 n && Nat.leb n 70 then Some (n - 55)%nat
  else None.

(** The character a two-character escape stands for. *)
Definition unescape (e : ascii) : option ascii :=
  if Ascii.eqb e dq then Some dq
  else if Ascii.eqb e "\" then Some "\"%char
  else if Ascii.eqb e "/" then Some "/"%char
  else if Ascii.eqb e "b" then Some "008"%char
  else if Ascii.eqb e "f" then Some "012"%char
  else if Ascii.eqb e "n" then Some "010"%char
  else if Ascii.eqb e "r" then Some "013"%char
  else if Ascii.eqb e "t" then Some "009"%char
  else None.

(** The code point of [\uXXXX], when it is below 256. Code points from
    256 on (surrogate pairs among them) have no counterpart in [string]
    and are refused. *)
Definition unicode_escape (h1 h2 h3 h4 : ascii) : option ascii :=
  match hex_value h1, hex_value h2, hex_value h3, hex_value h4 with
  | Some a, Some b, Some c, Some d =>
      if Nat.eqb a 0 && Nat.eqb b 0 then Some (ascii_of_nat (16 * c + d)%nat) else None
  | _, _, _, _ => None
  end.

(** [scanstring] in strict mode, from the character after the opening
    quote: the decoded string and what follows the closing quote. *)
Fixpoint scan_string (s : string) : option (string * string) :=
  match s with
  | EmptyString => None
  | String c r =>
      if Ascii.eqb c dq then Some (EmptyString, r)
      else if Ascii.eqb c "\" then
        match r with
        | String e r1 =>
            if Ascii.eqb e "u" then
              match r1 with
              | String h1 (String h2 (String h3 (String h4 r2))) =>
                  match unicode_escape h1 h2 h3 h4 with
                  | Some ch =>
                      match scan_string r2 with
                      | Some (str, rest) => Some (String ch str, rest)
                      | None => None
                      end
                  | None => None
                  end
              | _ => None
              end
            else
              match unescape e with
              | Some ch =>
                  match scan_string r1 with
                  | Some (str, rest) => Some (String ch str, rest)
                  | None => None
                  end
              | None => None
              end
        | EmptyString => None
        end
      else if Nat.ltb (code c) 32 then None
      else
        match scan_string r with
        | Some (str, rest) => Some (String c str, rest)
        | None => None
        end
  end.

(** The number pattern of the decoder: an optional minus sign; then either
    a single 0 or a digit from 1 to 9 followed by any digits; then
    optionally a point and one or more digits; then optionally e or E, an
    optional sign and one or more digits. *)
Fixpoint span_digits (s : string) : string * string :=
  match s with
  | EmptyString => (EmptyString, EmptyString)
  | String c r =>
      if is_digit c then
        let (ds, rest) := span_digits r in (String c ds, rest)
      else (EmptyString, s)
  end.

Definition scan_int_part (s : string) : option (string * string) :=
  match s with
  | EmptyString => None
  | String c r =>
      if Ascii.eqb c "0" then Some ("0", r)
      else if is_digit c then
        let (ds, rest) := span_digits r in Some (String c ds, rest)
      else None
  end.

Definition scan_frac (s : string) : string * string :=
  match s with
  | String c r =>
      if Ascii.eqb c "." then
        match span_digits r with
        | (EmptyString, _) => (EmptyString, s)
        | (ds, rest) => (String c ds, rest)
        end
      else (EmptyString, s)
  | EmptyString => (EmptyString, s)
  end.

Definition scan_sign (s : string) : string * string :=
  match s with
  | String c r =>
      if Ascii.eqb c "+" || Ascii.eqb c "-" then (String c "", r)
      else (EmptyString, s)
  | EmptyString => (EmptyString, s)
  end.

Definition scan_exp (s : string) : string * string :=
  match s with
  | String c r =>
      if Ascii.eqb c "e" || Ascii.eqb c "E" then
        let (sign, r1) := scan_sign r in
        match span_digits r1 with
        | (EmptyString, _) => (EmptyString, s)
        | (ds, rest) => (String c (sign ++ ds), rest)
        end
      else (EmptyString, s)
  | EmptyString => (EmptyString, s)
  end.

Definition is_empty (s : string) : bool :=
  match s with EmptyString => true | _ => false end.

(** A match of the number pattern at the start of [s]: an [int] when
    neither fraction nor exponent is present, a float otherwise. *)
Definition scan_number (s : string) : option (pyval * string) :=
  let (neg, s1) :=
    match s with
    | String c r => if Ascii.eqb c "-" then (true, r) else (false, s)
    | EmptyString => (false, s)
    end in
  match scan_int_part s1 with
  | None => None
  | Some (ip, s2) =>
      let (fr, s3) := scan_frac s2 in
      let (ex, s4) := scan_exp s3 in
      if is_empty fr && is_empty ex then
        match DecimalString.NilEmpty.uint_of_string ip with
        | Some u =>
            Some (PInt (Z.of_int (if neg then Decimal.Neg u else Decimal.Pos u)), s4)
        | None => None
        end
      else
        Some (PFloat ((if neg then "-" else "") ++ ip ++ fr ++ ex), s4)
  end.

(** [s] without the prefix [p], when [p] is a prefix of [s]. *)
Fixpoint strip_prefix (p s : string) : option string :=
  match p with
  | EmptyString => Some s
  | String c p' =>
      match s with
      | String c' s' => if Ascii.eqb c c' then strip_prefix p' s' else None
      | EmptyString => None
      end
  end.

(** The literals and numbers of [scan_once]. *)
Definition scan_atom (s : string) : option (pyval * string) :=
  match strip_prefix "null" s with
  | Some r => Some (PNone, r)
  | None =>
  match strip_prefix "true" s with
  | Some r => Some (PBool true, r)
  | None =>
  match strip_prefix "false" s with
  | Some r => Some (PBool false, r)
  | None =>
  match scan_number s with
  | Some res => Some res
  | None =>
  match strip_prefix "NaN" s with
  | Some r => Some (PFloat "NaN", r)
  | None =>
  match strip_prefix "Infinity" s with
  | Some r => Some (PFloat "Infinity", r)
  | None =>
  match strip_prefix "-Infinity" s with
  | Some r => Some (PFloat "-Infinity", r)
  | None => None
  end end end end end end end.

(** [scan_once], [JSONArray] and [JSONObject]. [fuel] bounds the number of
    nested calls; [json_loads] supplies more than any text can use.
    [parse_elements] and [parse_members] start at a value (respectively at
    the opening quote of a key) and collect what they read in reverse. *)
Fixpoint parse_value (fuel : nat) (s : string) : option (pyval * string) :=
  match fuel with
  | O => None
  | S fuel' =>
      match s with
      | EmptyString => None
      | String c r =>
          if Ascii.eqb c dq then
            match scan_string r with
            | Some (str, rest) => Some (PStr str, rest)
            | None => None
            end
          else if Ascii.eqb c "[" then
            match skip_ws r with
            | String c1 r1 =>
                if Ascii.eqb c1 "]" then Some (PList [], r1)
                else
                  match parse_elements fuel' (String c1 r1) [] with
                  | Some (l, rest) => Some (PList l, rest)
                  | None => None
                  end
            | EmptyString => None
            end
          else if Ascii.eqb c "{" then
            match skip_ws r with
            | String c1 r1 =>
                if Ascii.eqb c1 "}" then Some (PDict [], r1)
                else
                  match parse_members fuel' (String c1 r1) [] with
                  | Some (pairs, rest) => Some (PDict (dict_of_pairs pairs), rest)
                  | None => None
                  end
            | EmptyString => None
            end
          else scan_atom s
      end
  end

with parse_elements (fuel : nat) (s : string) (acc : list pyval)
  : option (list pyval * string) :=
  match fuel with
  | O => None
  | S fuel' =>
      match parse_value fuel' s with
      | Some (v, rest) =>
          match skip_ws rest with
          | String c r =>
              if Ascii.eqb c "]" then Some (rev (v :: acc), r)
              else if Ascii.eqb c "," then
                parse_elements fuel' (skip_ws r) (v :: acc)
              else None
          | EmptyString => None
          end
      | None => None
      end
  end

with parse_members (fuel : nat) (s : string) (acc : list (string * pyval))
  : option (list (string * pyval) * string) :=
  match fuel with
  | O => None
  | S fuel' =>
      match s with
      | String c r =>
          if Ascii.eqb c dq then
            match scan_string r with
            | Some (key, rest) =>
                match skip_ws rest with
                | String c1 r1 =>
                    if Ascii.eqb c1 ":" then
                      match parse_value fuel' (skip_ws r1) with
                      | Some (v, rest1) =>
                          match skip_ws rest1 with
                          | String c2 r2 =>
                              if Ascii.eqb c2 "}" then
                                Some (rev ((key, v) :: acc), r2)
                              else if Ascii.eqb c2 "," then
                                parse_members fuel' (skip_ws r2) ((key, v) :: acc)
                              else None
                          | EmptyString => None
                          end
                      | None => None
                      end
                    else None
                | EmptyString => None
                end
            | None => None
            end
          else None
      | EmptyString => None
      end
  end.

(** [json.loads(s)]: leading and trailing whitespace is skipped, anything
    else after the value is "Extra data". *)
Definition loads (s : string) : outcome pyval :=
  match parse_value (S (String.length s)) (skip_ws s) with
  | Some (v, rest) =>
      match skip_ws rest with
      | EmptyString => Ret v
      | String _ _ => Raise JSONDecodeError
      end
  | None => Raise JSONDecodeError
  end.

(** [s] with every apostrophe turned into a double quote, to write JSON
    texts down. *)
Fixpoint dquoted (s : string) : string :=
  match s with
  | EmptyString => EmptyString
  | String c r => String (if Ascii.eqb c "'" then dq else c) (dquoted r)
  end.

(** ** What the codec is proved about *)

(** Lists without a repeated string, as a test. *)
Fixpoint distinct (l : list string) : bool :=
  match l with
  | [] => true
  | x :: r => negb (str_in x r) && distinct r
  end.

(** A float literal that the decoder reads back in full as that float. *)
Definition float_literal (lit : string) : bool :=
  match scan_number lit with
  | Some (PFloat l, EmptyString) => String.eqb l lit
  | _ => false
  end.

(** Values [json] carries unchanged: the keys of every dictionary are
    distinct (as in any [dict]) and every float is a float literal. *)
Fixpoint json_native (v : pyval) : bool :=
  match v with
  | PFloat lit => float_literal lit
  | PList l => forallb json_native l
  | PDict d =>
      distinct (map fst d) && forallb (fun kv => json_native (snd kv)) d
  | _ => true
  end.

(** Text after which a number cannot go on: nothing, or a character that
    is no digit, point, exponent mark or sign. *)
Definition neutral (rest : string) : bool :=
  match rest with
  | EmptyString => true
  | String c _ =>
      negb (is_digit c || Ascii.eqb c "." || Ascii.eqb c "e" || Ascii.eqb c "E"
            || Ascii.eqb c "+" || Ascii.eqb c "-")
  end.

(** Text that may follow a value inside a document: nothing, or one of
    the separators. *)
Definition delimited (rest : string) : bool :=
  match rest with
  | EmptyString => true
  | String c _ => Ascii.eqb c "," || Ascii.eqb c "]" || Ascii.eqb c "}"
  end.

(** Text that starts a value: its first character is no whitespace and
    closes nothing. *)
Definition starts_value (s : string) : bool :=
  match s with
  | EmptyString => false
  | String c _ =>
      negb (is_ws c) && negb (Ascii.eqb c "]") && negb (Ascii.eqb c "}")
  end.

(** One item of an object, as the compact encoder writes it. *)
Definition member (kv : string * pyval) : string :=
  encode_str (fst kv) ++ ":" ++ dumps_compact (snd kv).

(** The decoder reads the compact encoding of [v] back, whatever text
    follows it inside a document, given fuel for the length of the text. *)
Definition reads_back (v : pyval) : Prop :=
  forall fuel rest,
    (String.length (dumps_compact v) <= fuel)%nat ->
    delimited rest = true ->
    parse_value fuel (dumps_compact v ++ rest) = Some (v, rest).

(** ** The indenting encoder ([json.dumps(v, indent=2)]) *)

Fixpoint spaces (n : nat) : string :=
  match n with
  | O => ""
  | S n' => String " " (spaces n')
  end.

(** A line break and the indentation of [level]. *)
Definition newline_indent (level : nat) : string :=
  String "010" (spaces (2 * level)).

(** With an indent the separators are [","] and [": "], every item
    starts a line of its own, and an empty list or dictionary is written
    without a line break. *)
Fixpoint dumps_indent (level : nat) (v : pyval) : string :=
  match v with
  | PNone => "null"
  | PBool true => "true"
  | PBool false => "false"
  | PInt z => encode_int z
  | PFloat lit => lit
  | PStr s => encode_str s
  | PList l =>
      match l with
      | [] => "[]"
      | _ :: _ =>
          "[" ++ newline_indent (S level)
              ++ join ("," ++ newline_indent (S level))
                      (map (dumps_indent (S level)) l)
              ++ newline_indent level ++ "]"
      end
  | PDict d =>
      match d with
      | [] => "{}"
      | _ :: _ =>
          "{" ++ newline_indent (S level)
              ++ join ("," ++ newline_indent (S level))
                      (map (fun kv =>
                              encode_str (fst kv) ++ ": "
                              ++ dumps_indent (S level) (snd kv)) d)
              ++ newline_indent level ++ "}"
      end
  end.

(** One item of an object, as the indenting encoder writes it. *)
Definition member_indent (level : nat) (kv : string * pyval) : string :=
  encode_str (fst kv) ++ ": " ++ dumps_indent level (snd kv).

(** The decoder reads the indented encoding of [v] back, at any level
    and before any text that cannot continue a number. *)
Definition reads_back_indent (v : pyval) : Prop :=
  forall level fuel rest,
    (String.length (dumps_indent level v) <= fuel)%nat ->
    neutral rest = true ->
    parse_value fuel (dumps_indent level v ++ rest) = Some (v, rest).

(** ** The limits of the interpreter *)

(** [json.loads] raises on texts the grammar admits in two cases: an
    integer literal of more than 4300 digits ([ValueError], the limit of
    [int] on the length of a decimal string) and containers nested deeper
    than the recursion limit admits where the call is made
    ([RecursionError]). A text is within these limits, whatever it holds,
    when no run of digits in it is longer than 4300 and it has at most
    [depth] opening brackets, [depth] being the nesting the interpreter
    still admits at the call. *)
Fixpoint longest_digit_run (run : nat) (s : string) : nat :=
  match s with
  | EmptyString => run
  | String c r =>
      if is_digit c then longest_digit_run (S run) r
      else Nat.max run (longest_digit_run 0 r)
  end.

Fixpoint opening_brackets (s : string) : nat :=
  match s with
  | EmptyString => 0
  | String c r =>
      ((if Ascii.eqb c "[" || Ascii.eqb c "{" then 1 else 0)
       + opening_brackets r)%nat
  end.

Definition within_limits (depth : nat) (s : string) : bool :=
  Nat.leb (longest_digit_run 0 s) 4300 && Nat.leb (opening_brackets s) depth.

End Json.

(* ===================================================================== *)
(** * src/time_provider.py *)
(* ===================================================================== *)

Module TimeProvider.
Import Py.

(** [config.TimeSettings] *)
Record TimeSettings : Type := {
  update_interval : Q;
  time_servers : list string;
  timeout : Q;
  local_fallback : bool;
  timezone : string
}.

Record TimeServerResponse : Type := {
  server : string;
  timestamp : Q;
  offset : Q;
  delay : Q;
  stratum : Z;
  success : bool;
  error : option string
}.

(** The attributes of a [TimeProvider] instance. [sync_lock] is not a
    field: whether it can be acquired is an input of each call. *)
Record t : Type := {
  settings : TimeSettings;
  time_offsets : dict Q;
  last_sync_time : Q;
  total_syncs : Z;
  successful_syncs : Z;
  failed_syncs : Z
}.

(** What [ntplib] reports for a successful request. *)
Record ntp_stats : Type := {
  tx_time : Q;
  ntp_offset : Q;
  ntp_delay : Q;
  ntp_stratum : Z
}.

(** The surroundings of one call: the clock, whether [sync_lock] is free,
    and what each time source answers ([inl msg] where the request raises
    with message [msg]; for an HTTP API the answer is the server's time as
    a POSIX timestamp). *)
Record world : Type := {
  time_time : Q;
  sync_lock_free : bool;
  ntp_request : string -> string + ntp_stats;
  http_datetime : string -> string + Q
}.

Definition http_apis : list string :=
  [ "http://worldtimeapi.org/api/timezone/UTC";
    "https://timeapi.io/api/Time/current/zone?timeZone=UTC" ].

Definition failed_response (srv msg : string) : TimeServerResponse :=
  {| server := srv; timestamp := 0; offset := 0; delay := 0; stratum := 0;
     success := false; error := Some msg |}.

Definition get_ntp_time (w : world) (srv : string) : TimeServerResponse :=
  match ntp_request w srv with
  | inr r =>
      {| server := srv; timestamp := tx_time r; offset := ntp_offset r;
         delay := ntp_delay r; stratum := ntp_stratum r;
         success := true; error := None |}
  | inl msg => failed_response srv msg
  end.

Definition get_http_time (w : world) (url : string) : TimeServerResponse :=
  match http_datetime w url with
  | inr ts =>
      {| server := url; timestamp := ts; offset := ts - time_time w;
         delay := 0; stratum := 1; success := true; error := None |}
  | inl msg => failed_response url msg
  end.

Definition sync_all_servers (w : world) (tp : t) : list TimeServerResponse :=
  map (get_ntp_time w) (time_servers (settings tp))
  ++ map (get_http_time w) http_apis.

(** The loop of [_sync_with_servers] that collects the offsets of the
    successful responses. *)
Definition collect_offsets (responses : list TimeServerResponse) : dict Q :=
  fold_left
    (fun acc r => if success r then dict_set (server r) (offset r) acc else acc)
    responses [].

Definition _sync_with_servers (w : world) (tp : t) : t :=
  if negb (sync_lock_free w) then tp (* already syncing *)
  else
    let total := (total_syncs tp + 1)%Z in
    let new_offsets := collect_offsets (sync_all_servers w tp) in
    match new_offsets with
    | _ :: _ =>
        {| settings := settings tp;
           time_offsets := new_offsets;
           last_sync_time := time_time w;
           total_syncs := total;
           successful_syncs := (successful_syncs tp + 1)%Z;
           failed_syncs := failed_syncs tp |}
    | [] =>
        (* keep old offsets if all servers fail *)
        {| settings := settings tp;
           time_offsets := time_offsets tp;
           last_sync_time := last_sync_time tp;
           total_syncs := total;
           successful_syncs := successful_syncs tp;
           failed_syncs := (failed_syncs tp + 1)%Z |}
    end.

(** [TimeProvider.__init__] *)
Definition init (s : TimeSettings) (w : world) : t :=
  _sync_with_servers w
    {| settings := s; time_offsets := []; last_sync_time := 0;
       total_syncs := 0; successful_syncs := 0; failed_syncs := 0 |}.

(** [list.sort()] on floats, as an insertion sort. *)
Fixpoint insert_sorted (x : Q) (l : list Q) : list Q :=
  match l with
  | [] => [x]
  | y :: r => if Qle_bool x y then x :: l else y :: insert_sorted x r
  end.

Definition sort (l : list Q) : list Q := fold_right insert_sorted [] l.

(** The offset [get_current_time] adds to the local clock. The indices
    [n // 2 - 1] and [n // 2] are in range because [n > 0] here. *)
Definition median_offset (tp : t) : option Q :=
  match time_offsets tp with
  | [] => None
  | _ :: _ =>
      let offsets := sort (dict_values (time_offsets tp)) in
      let n := length offsets in
      if Nat.eqb (n mod 2) 0
      then Some ((nth (n / 2 - 1) offsets 0 + nth (n / 2) offsets 0) / 2)
      else Some (nth (n / 2) offsets 0)
  end.

(** [get_current_time], with the adjusted time taken as the instant of
    the [datetime] it returns. What the conversion of its last line adds
    (microseconds, the years a [datetime] holds) is [fromtimestamp]
    below, and [get_current_time_utc] is the method with it. *)
Definition get_current_time (w : world) (tp : t) : datetime :=
  let current_time := time_time w in
  let adjusted_time :=
    match median_offset tp with
    | Some m => current_time + m
    | None => current_time (* fall back to local time *)
    end in
  mk_datetime adjusted_time true.

Section WithExternals.
Context `{Externals}.

(** One entry of the verification dictionary. [last_sync] is a float
    whenever an entry exists: offsets and [last_sync_time] are assigned
    together. *)
Definition verification_entry (w : world) (tp : t) (off : Q) : pyval :=
  PDict [ ("timestamp", PStr (isoformat (mk_datetime (time_time w + off) true)));
          ("offset", PFloat (float_repr off));
          ("last_sync", PFloat (float_repr (last_sync_time tp))) ].

Definition get_time_server_verification (w : world) (tp : t)
  : dict pyval * t :=
  let tp1 :=
    if Qle_bool (time_time w - last_sync_time tp) (update_interval (settings tp))
    then tp else _sync_with_servers w tp in
  (fold_left
     (fun acc kv => dict_set (fst kv) (verification_entry w tp1 (snd kv)) acc)
     (time_offsets tp1) [],
   tp1).

(** [str.replace("Z", "+00:00")] *)
Fixpoint replace_Z (s : string) : string :=
  match s with
  | EmptyString => EmptyString
  | String c r =>
      if Ascii.eqb c "Z" then "+00:00" ++ replace_Z r
      else String c (replace_Z r)
  end.

Record timestamp_check : Type := {
  valid : bool;
  check_error : option exn;
  time_difference : option Q
}.

End WithExternals.

Definition force_sync (w : world) (tp : t) : bool * t :=
  let old_count := successful_syncs tp in
  let tp' := _sync_with_servers w tp in
  (Z.ltb old_count (successful_syncs tp'), tp').

(** The public and internal operations of a [TimeProvider], as calls that
    may change the instance. *)
Inductive call : Type :=
| GetCurrentTime
| GetTimeServerVerification
| VerifyTimestamp (timestamp_str : string) (tolerance : Q)
| GetNtpTime (srv : string)
| GetHttpTime (url : string)
| SyncAllServers
| GetStatistics
| SyncWithServers
| ForceSync.

Section Step.
Context `{Externals}.

(** The instance after one call made in surroundings [w]. *)
Definition step (tp : t) (wc : world * call) : t :=
  let (w, c) := wc in
  match c with
  | GetTimeServerVerification => snd (get_time_server_verification w tp)
  | SyncWithServers => _sync_with_servers w tp
  | ForceSync => snd (force_sync w tp)
  | GetCurrentTime | VerifyTimestamp _ _ | GetNtpTime _ | GetHttpTime _
  | SyncAllServers | GetStatistics => tp
  end.

Definition run (tp : t) (trace : list (world * call)) : t :=
  fold_left step trace tp.
End Step.

(** The statistics invariant. *)
Definition stats_consistent (tp : t) : Prop :=
  total_syncs tp = (successful_syncs tp + failed_syncs tp)%Z.

(** The median of a list that is already in order, as the specification
    words it: of nothing it is 0; of one value, that value; of two, their
    average; otherwise the median of what remains once the first (the
    smallest) and the last (the largest) value are set aside. *)
Fixpoint middle (fuel : nat) (sorted : list Q) : Q :=
  match fuel with
  | O => 0
  | S fuel' =>
      match sorted with
      | [] => 0
      | [a] => a
      | [a; b] => (a + b) / 2
      | _ :: r => middle fuel' (removelast r)
      end
  end.

(** An instance whose consensus holds the given offsets. *)
Definition with_offsets (tp : t) (offsets : dict Q) : t :=
  {| settings := settings tp; time_offsets := offsets;
     last_sync_time := last_sync_time tp; total_syncs := total_syncs tp;
     successful_syncs := successful_syncs tp; failed_syncs := failed_syncs tp |}.

(** The value [get_current_time] computes by indexing the sorted list. *)
Definition index_median (offsets : list Q) : Q :=
  let n := length offsets in
  if Nat.eqb (n mod 2) 0
  then (nth (n / 2 - 1) offsets 0 + nth (n / 2) offsets 0) / 2
  else nth (n / 2) offsets 0.

(** One round of [_sync_with_servers]: what it does to the counters. *)
Definition sync_round_effect (w : world) (tp : t) : Prop :=
  let tp' := _sync_with_servers w tp in
  if sync_lock_free w then
    total_syncs tp' = (total_syncs tp + 1)%Z
    /\ ((successful_syncs tp' = (successful_syncs tp + 1)%Z
         /\ failed_syncs tp' = failed_syncs tp)
        \/ (successful_syncs tp' = successful_syncs tp
            /\ failed_syncs tp' = (failed_syncs tp + 1)%Z))
  else tp' = tp.

(** [get_statistics]; [len(self.time_offsets)] is the number of entries,
    and [/] between two [int]s is true division, taken exactly here. *)
Record statistics : Type := {
  stat_total_syncs : Z;
  stat_successful_syncs : Z;
  stat_failed_syncs : Z;
  stat_last_sync_time : Q;
  active_servers : nat;
  stat_time_offsets : dict Q;
  success_rate : Q
}.

Definition get_statistics (tp : t) : statistics :=
  {| stat_total_syncs := total_syncs tp;
     stat_successful_syncs := successful_syncs tp;
     stat_failed_syncs := failed_syncs tp;
     stat_last_sync_time := last_sync_time tp;
     active_servers := length (time_offsets tp);
     stat_time_offsets := time_offsets tp;
     success_rate :=
       inject_Z (successful_syncs tp) / inject_Z (Z.max 1 (total_syncs tp)) |}.

(** The offset of the last successful response that names [srv], if any
    response of the round does. *)
Fixpoint last_success (srv : string) (responses : list TimeServerResponse)
  : option Q :=
  match responses with
  | [] => None
  | r :: rest =>
      match last_success srv rest with
      | Some o => Some o
      | None =>
          if success r && String.eqb srv (server r) then Some (offset r)
          else None
      end
  end.

(** What holds of an instance from its construction on: the counters
    are not negative and add up, no server has two offsets, and offsets
    exist exactly when some sync round has succeeded. *)
Definition well_formed (tp : t) : Prop :=
  (0 <= successful_syncs tp)%Z /\ (0 <= failed_syncs tp)%Z
  /\ stats_consistent tp
  /\ NoDup (dict_keys (time_offsets tp))
  /\ (time_offsets tp = [] <-> successful_syncs tp = 0%Z).


(** ** The conversion to [datetime] *)

(** What the C library of the platform converts: [gmtime_supported sec]
    tells whether [sec] seconds since the epoch fit [time_t] and [gmtime]
    takes them. *)
Record platform : Type := {
  gmtime_supported : Z -> bool
}.

(** The nearest integer, a tie going to the even one. *)
Definition round_half_even (x : Q) : Z :=
  let below := Qfloor x in
  match Qcompare (x - inject_Z below) (1 # 2) with
  | Lt => below
  | Gt => (below + 1)%Z
  | Eq => if Z.even below then below else (below + 1)%Z
  end.

(** The instant in whole microseconds. *)
Definition microseconds (x : Q) : Z := round_half_even (x * 1000000).

(** The first second of the year 1 and the last second of the year 9999. *)
Definition min_second : Z := -62135596800.
Definition max_second : Z := 253402300799.

(** What [datetime.fromtimestamp] comes to: a [datetime], a [ValueError]
    (the year is out of range), or the [OverflowError] or [OSError] of
    the platform. *)
Inductive conversion : Type :=
| Converted (d : datetime)
| YearOutOfRange
| PlatformOutOfRange.

(** [datetime.fromtimestamp(x, timezone.utc)]: the timestamp is rounded
    to microseconds, its whole seconds go through [gmtime], and the
    result must lie in the years 1 to 9999. *)
Definition fromtimestamp (pf : platform) (x : Q) : conversion :=
  let us := microseconds x in
  let sec := (us / 1000000)%Z in
  if negb (gmtime_supported pf sec) then PlatformOutOfRange
  else if Z.leb min_second sec && Z.leb sec max_second
       then Converted (mk_datetime (inject_Z us / 1000000) true)
       else YearOutOfRange.

Definition get_current_time_utc (pf : platform) (w : world) (tp : t)
  : conversion :=
  let current_time := time_time w in
  let adjusted_time :=
    match median_offset tp with
    | Some m => current_time + m
    | None => current_time (* fall back to local time *)
    end in
  fromtimestamp pf adjusted_time.

(** What a call of [verify_timestamp] comes to: the dictionary it
    returns, or the [OverflowError] or [OSError] of the conversion, which
    its [except (ValueError, TypeError)] clause lets through. *)
Inductive timestamp_outcome : Type :=
| Checked (r : timestamp_check)
| ConversionError.

(** [result["valid"]] of a call that returns. *)
Definition accepted (o : timestamp_outcome) : bool :=
  match o with
  | Checked r => valid r
  | ConversionError => false
  end.

Section Conversion.
Context `{Externals}.

(** [verify_timestamp] with [get_current_time_utc] for the current time:
    the text is read first, then the current time is converted. *)
Definition verify_timestamp_utc (pf : platform) (w : world) (tp : t)
           (timestamp_str : string) (tolerance : Q) : timestamp_outcome :=
  match fromisoformat (replace_Z timestamp_str) with
  | None => Checked {| valid := false; check_error := Some ValueError;
                       time_difference := None |}
  | Some given_time =>
      match get_current_time_utc pf w tp with
      | PlatformOutOfRange => ConversionError
      | YearOutOfRange =>
          Checked {| valid := false; check_error := Some ValueError;
                     time_difference := None |}
      | Converted current_time =>
          if aware given_time then
            let time_diff := Qabs (posix current_time - posix given_time) in
            Checked {| valid := Qle_bool time_diff tolerance;
                       check_error := None;
                       time_difference := Some time_diff |}
          else (* aware minus naive raises TypeError, which is caught *)
            Checked {| valid := false; check_error := Some TypeError;
                       time_difference := None |}
      end
  end.
End Conversion.

End TimeProvider.

(* ===================================================================== *)
(** * src/blockchain_verifier.py *)
(* ===================================================================== *)

Module BlockchainVerifier.
Import Py.

(** [config.BlockchainSettings]; [enabled_chains] is a set, listed here in
    the order its iteration visits. *)
Record BlockchainSettings : Type := {
  enabled_chains : list string;
  cache_duration : Q;
  timeout : Q;
  retry_attempts : Z
}.

Record BlockchainInfo : Type := {
  chain : string;
  block_number : Z;
  block_hash : string;
  timestamp : datetime;
  retrieved_at : Q;
  confirmations : Z
}.

(** The attributes of a [BlockchainVerifier] instance. [update_lock] is
    not a field: whether it can be acquired is an input of each call. *)
Record t : Type := {
  settings : BlockchainSettings;
  cached_blocks : dict BlockchainInfo;
  last_update : dict Q;
  total_requests : Z;
  successful_requests : Z;
  failed_requests : Z;
  cache_hits : Z
}.

(** The surroundings of one call: the clock; whether [update_lock] is free
    when the update of a given chain tries to take it; and what the block
    explorers answer. An answer is [None] whenever the request raises, the
    status is not 200, or the body lacks what the handler reads.
    - [explorer_tip base]: the text of [base/blocks/tip/hash];
    - [explorer_block base h]: height and timestamp from [base/block/h];
    - [chain_summary url]: height and hash from a blockcypher summary. *)
Record world : Type := {
  time_time : Q;
  update_lock_free : string -> bool;
  explorer_tip : string -> option string;
  explorer_block : string -> string -> option (Z * Q);
  chain_summary : string -> option (Z * string)
}.

(** [BlockchainVerifier.__init__]; the initial update runs in a thread of
    its own, see [background]. *)
Definition init (s : BlockchainSettings) : t :=
  {| settings := s; cached_blocks := []; last_update := [];
     total_requests := 0; successful_requests := 0; failed_requests := 0;
     cache_hits := 0 |}.

(** One [try] block of [_get_bitcoin_info] against a blockstream-style API. *)
Definition try_explorer (w : world) (name base : string) : option BlockchainInfo :=
  match explorer_tip w base with
  | Some h =>
      match explorer_block w base h with
      | Some (height, ts) =>
          Some {| chain := name; block_number := height; block_hash := h;
                  timestamp := mk_datetime ts true;
                  retrieved_at := time_time w; confirmations := 0 |}
      | None => None
      end
  | None => None
  end.

(** A request to a blockcypher summary URL, as the three handlers make it. *)
Definition try_summary (w : world) (name url : string) : option BlockchainInfo :=
  match chain_summary w url with
  | Some (height, h) =>
      Some {| chain := name; block_number := height; block_hash := h;
              timestamp := mk_datetime (time_time w) true;
              retrieved_at := time_time w; confirmations := 0 |}
  | None => None
  end.

(** The first attempt that yields a block. *)
Fixpoint first_success (attempts : list (option BlockchainInfo))
  : option BlockchainInfo :=
  match attempts with
  | [] => None
  | Some b :: _ => Some b
  | None :: r => first_success r
  end.

(** The endpoints each handler tries, in order. *)
Definition bitcoin_attempts (w : world) : list (option BlockchainInfo) :=
  [ try_explorer w "bitcoin" "https://blockstream.info/api";
    try_explorer w "bitcoin" "https://mempool.space/api";
    try_summary w "bitcoin" "https://api.blockcypher.com/v1/btc/main" ].

Definition ethereum_attempts (w : world) : list (option BlockchainInfo) :=
  [ try_summary w "ethereum" "https://api.blockcypher.com/v1/eth/main" ].

Definition litecoin_attempts (w : world) : list (option BlockchainInfo) :=
  [ try_summary w "litecoin" "https://api.blockcypher.com/v1/ltc/main" ].

Definition _get_bitcoin_info (w : world) : option BlockchainInfo :=
  first_success (bitcoin_attempts w).

Definition _get_ethereum_info (w : world) : option BlockchainInfo :=
  first_success (ethereum_attempts w).

Definition _get_litecoin_info (w : world) : option BlockchainInfo :=
  first_success (litecoin_attempts w).

(** [self.chain_handlers] *)
Definition chain_handlers : dict (world -> option BlockchainInfo) :=
  [ ("bitcoin", _get_bitcoin_info);
    ("ethereum", _get_ethereum_info);
    ("litecoin", _get_litecoin_info) ].

(** The attempts the handler of [name] makes; none for a chain without a
    handler. *)
Definition attempts_of (w : world) (name : string) : list (option BlockchainInfo) :=
  if String.eqb name "bitcoin" then bitcoin_attempts w
  else if String.eqb name "ethereum" then ethereum_attempts w
  else if String.eqb name "litecoin" then litecoin_attempts w
  else [].

(** Every endpoint of the chain fails. *)
Definition all_endpoints_fail (w : world) (name : string) : bool :=
  forallb (fun a => match a with None => true | Some _ => false end)
          (attempts_of w name).

(** What [_update_chain] obtains once it holds the lock: the block the
    handler returns, or nothing (no handler, or the handler returns
    [None]). A [BlockchainInfo] instance is always truthy. *)
Definition fetch (w : world) (name : string) : option BlockchainInfo :=
  match dict_get name chain_handlers with
  | Some handler => handler w
  | None => None
  end.

Definition _update_chain (w : world) (name : string) (bv : t) : bool * t :=
  if negb (update_lock_free w name) then
    (* another thread is updating *)
    (true,
     {| settings := settings bv; cached_blocks := cached_blocks bv;
        last_update := last_update bv; total_requests := total_requests bv;
        successful_requests := successful_requests bv;
        failed_requests := failed_requests bv;
        cache_hits := (cache_hits bv + 1)%Z |})
  else
    match fetch w name with
    | Some block_info =>
        (true,
         {| settings := settings bv;
            cached_blocks := dict_set name block_info (cached_blocks bv);
            last_update := dict_set name (time_time w) (last_update bv);
            total_requests := (total_requests bv + 1)%Z;
            successful_requests := (successful_requests bv + 1)%Z;
            failed_requests := failed_requests bv;
            cache_hits := cache_hits bv |})
    | None =>
        (false,
         {| settings := settings bv; cached_blocks := cached_blocks bv;
            last_update := last_update bv;
            total_requests := (total_requests bv + 1)%Z;
            successful_requests := successful_requests bv;
            failed_requests := (failed_requests bv + 1)%Z;
            cache_hits := cache_hits bv |})
    end.

(** The loop of [_update_all_chains], threading [success_count]. *)
Fixpoint update_chains (w : world) (names : list string) (success_count : Z)
         (bv : t) : Z * t :=
  match names with
  | [] => (success_count, bv)
  | name :: r =>
      let (ok, bv') := _update_chain w name bv in
      update_chains w r (if ok then (success_count + 1)%Z else success_count) bv'
  end.

Definition _update_all_chains (w : world) (bv : t) : bool * t :=
  let (success_count, bv') := update_chains w (enabled_chains (settings bv)) 0 bv in
  (Z.ltb 0 success_count, bv').

(** [force_update(chain)]; [if chain:] is false for [None] and for the
    empty string. *)
Definition force_update (w : world) (name : option string) (bv : t) : bool * t :=
  match name with
  | Some c => if String.eqb c "" then _update_all_chains w bv
              else _update_chain w c bv
  | None => _update_all_chains w bv
  end.

(** [_update_if_needed] starts one thread per stale chain and returns at
    once: the result is the list of chains whose [_update_chain] was
    started. Each of them runs later as a step of its own. *)
Definition _update_if_needed (w : world) (bv : t) : list string :=
  filter
    (fun name =>
       let last := match dict_get name (last_update bv) with
                   | Some x => x | None => 0 end in
       negb (Qle_bool (time_time w - last) (cache_duration (settings bv))))
    (enabled_chains (settings bv)).

Definition get_blockchain_hashes (w : world) (bv : t) : dict string * list string :=
  let started := _update_if_needed w bv in
  (fold_left
     (fun hashes kv =>
        if str_in (fst kv) (enabled_chains (settings bv))
        then dict_set (fst kv) (block_hash (snd kv)) hashes else hashes)
     (cached_blocks bv) [],
   started).

Definition get_blockchain_info (w : world) (name : string) (bv : t)
  : option BlockchainInfo * list string :=
  let started := _update_if_needed w bv in
  (dict_get name (cached_blocks bv), started).

(** The threads the instance has started so far run concurrently with its
    caller; each performs [_update_chain] in the surroundings it finds. *)
Definition background (bv : t) (steps : list (world * string)) : t :=
  fold_left (fun st wn => snd (_update_chain (fst wn) (snd wn) st)) steps bv.

(** Background updates that cannot refresh [name]: each is for another
    chain, or finds every endpoint of [name] failing. *)
Definition cannot_refresh (name : string) (steps : list (world * string)) : bool :=
  forallb
    (fun wn => negb (String.eqb (snd wn) name) || all_endpoints_fail (fst wn) name)
    steps.

(** The chains a [force_update] call tries to refresh. *)
Definition requested (name : option string) (bv : t) : list string :=
  match name with
  | Some c => if String.eqb c "" then enabled_chains (settings bv) else [c]
  | None => enabled_chains (settings bv)
  end.

(** The refresh of [name] completed: the lock was taken and a block was
    fetched (and is then stored). *)
Definition refreshed (w : world) (name : string) : bool :=
  update_lock_free w name && match fetch w name with Some _ => true | None => false end.

(** The update of [name] found the lock taken. *)
Definition lock_busy (w : world) (name : string) : bool :=
  negb (update_lock_free w name).

(** Surroundings in which no explorer can be reached and nobody else
    holds the lock. *)
Definition unreachable (now : Q) : world :=
  {| time_time := now;
     update_lock_free := fun _ => true;
     explorer_tip := fun _ => None;
     explorer_block := fun _ _ => None;
     chain_summary := fun _ => None |}.

(** Surroundings in which another thread holds the lock. *)
Definition lock_held (now : Q) : world :=
  {| time_time := now;
     update_lock_free := fun _ => false;
     explorer_tip := fun _ => None;
     explorer_block := fun _ _ => None;
     chain_summary := fun _ => None |}.

Definition default_settings : BlockchainSettings :=
  {| enabled_chains := ["bitcoin"; "ethereum"; "litecoin"];
     cache_duration := 300; timeout := 10; retry_attempts := 3 |}.

(** [get_all_blockchain_info]: the cached records of the enabled chains. *)
Definition get_all_blockchain_info (w : world) (bv : t)
  : dict BlockchainInfo * list string :=
  let started := _update_if_needed w bv in
  (fold_left
     (fun infos kv =>
        if str_in (fst kv) (enabled_chains (settings bv))
        then dict_set (fst kv) (snd kv) infos else infos)
     (cached_blocks bv) [],
   started).

(** The dictionary [verify_blockchain_hash] returns: without a record of
    the chain only ["valid": False] and an ["error"]; otherwise the
    comparison and what it was made with. *)
Inductive hash_check : Type :=
| NoCurrentData (error : string)
| Compared (valid : bool) (chain_name given_hash current_hash : string)
           (current_block : Z) (block_age_seconds : Q).

(** [result["valid"]] *)
Definition check_valid (r : hash_check) : bool :=
  match r with
  | NoCurrentData _ => false
  | Compared valid _ _ _ _ _ => valid
  end.

(** [verify_blockchain_hash]; nothing in its [try] block raises, and the
    body does not read [tolerance_blocks]. *)
Definition verify_blockchain_hash (w : world) (name given : string)
           (tolerance_blocks : Z) (bv : t) : hash_check * list string :=
  let (current_info, started) := get_blockchain_info w name bv in
  (match current_info with
   | None => NoCurrentData ("No current data for " ++ name)%string
   | Some info =>
       Compared (String.eqb (block_hash info) given) name given
                (block_hash info) (block_number info)
                (time_time w - retrieved_at info)
   end,
   started).

(** [get_statistics]; the true division is taken exactly. *)
Record statistics : Type := {
  stat_total_requests : Z;
  stat_successful_requests : Z;
  stat_failed_requests : Z;
  stat_cache_hits : Z;
  success_rate : Q;
  cached_chains : list string;
  last_updates : dict Q
}.

Definition get_statistics (bv : t) : statistics :=
  {| stat_total_requests := total_requests bv;
     stat_successful_requests := successful_requests bv;
     stat_failed_requests := failed_requests bv;
     stat_cache_hits := cache_hits bv;
     success_rate :=
       inject_Z (successful_requests bv) / inject_Z (Z.max 1 (total_requests bv));
     cached_chains := dict_keys (cached_blocks bv);
     last_updates := last_update bv |}.

(** The operations of a [BlockchainVerifier], as calls that may change
    the instance. The reading calls only start threads; each thread is an
    [UpdateChain] of its own, made when it runs, and the thread started
    by the constructor is [InitialUpdate]. *)
Inductive call : Type :=
| InitialUpdate
| GetBlockchainHashes
| GetBlockchainInfo (name : string)
| GetAllBlockchainInfo
| VerifyBlockchainHash (name given : string) (tolerance_blocks : Z)
| ForceUpdate (name : option string)
| GetStatistics
| UpdateIfNeeded
| UpdateAllChains
| UpdateChain (name : string).

Definition step (bv : t) (wc : world * call) : t :=
  let (w, c) := wc in
  match c with
  | InitialUpdate | UpdateAllChains => snd (_update_all_chains w bv)
  | ForceUpdate name => snd (force_update w name bv)
  | UpdateChain name => snd (_update_chain w name bv)
  | GetBlockchainHashes | GetBlockchainInfo _ | GetAllBlockchainInfo
  | VerifyBlockchainHash _ _ _ | GetStatistics | UpdateIfNeeded => bv
  end.

Definition run (bv : t) (trace : list (world * call)) : t :=
  fold_left step trace bv.

(** A chain with a handler. *)
Definition supported (name : string) : bool := dict_mem name chain_handlers.

(** What holds of an instance from its construction on: the counters
    are not negative and add up, no chain has two records, [last_update]
    has the keys of the cache, and every record sits under the name of
    its chain, which has a handler. *)
Definition well_formed (bv : t) : Prop :=
  (0 <= successful_requests bv)%Z /\ (0 <= failed_requests bv)%Z
  /\ (0 <= cache_hits bv)%Z
  /\ total_requests bv = (successful_requests bv + failed_requests bv)%Z
  /\ NoDup (dict_keys (cached_blocks bv))
  /\ dict_keys (last_update bv) = dict_keys (cached_blocks bv)
  /\ Forall (fun kv => chain (snd kv) = fst kv /\ supported (fst kv) = true)
            (cached_blocks bv).

End BlockchainVerifier.

(* ===================================================================== *)
(** * src/identity_manager.py *)
(* ===================================================================== *)

Module IdentityManager.
Import Py.
Local Open Scope string_scope.

(** [config.IdentitySettings] *)
Record IdentitySettings : Type := {
  identity_file : option string;
  auto_generate : bool;
  hash_algorithm : string;
  include_system_info : bool;
  include_file_hash : bool
}.

Record IdentityInfo : Type := {
  identity_hash : string;
  creation_time : datetime;
  system_info : dict pyval;
  file_hashes : dict string;
  custom_data : dict pyval;
  version : string
}.

(** The attributes of an [IdentityManager] instance. *)
Record t : Type := {
  settings : IdentitySettings;
  identity_info : option IdentityInfo;
  cached_hash : option string;
  last_hash_time : Q;
  hash_generations : Z;
  file_reads : Z;
  system_info_queries : Z
}.

(** What the file system holds at a path: nothing; something that exists
    but cannot be opened for reading (no permission, a directory), with
    the message of the error; or a file with its bytes. *)
Inductive file_state : Type :=
| Missing
| Unreadable (msg : string)
| Readable (content : string).

(** The surroundings of one call: the clock, the file system, what
    [import_identity] reconstructs from the file at a path ([None] where
    opening, parsing or reconstruction raises), and what [platform]
    reports to [_collect_system_info]. *)
Record world : Type := {
  time_time : Q;
  path_state : string -> file_state;
  load_identity : string -> option IdentityInfo;
  platform_info : dict pyval
}.

(** [os.path.exists] *)
Definition exists_ (w : world) (path : string) : bool :=
  match path_state w path with
  | Missing => false
  | _ => true
  end.

(** [os.path.basename]: what follows the last slash. *)
Fixpoint basename_from (cur s : string) : string :=
  match s with
  | EmptyString => cur
  | String c r =>
      if Ascii.eqb c "/" then basename_from r r else basename_from cur r
  end.

Definition basename (path : string) : string := basename_from path path.

(** A non-empty optional string, as [if s:] tests it. *)
Definition nonempty (o : option string) : option string :=
  match o with
  | Some EmptyString => None
  | _ => o
  end.

(** ** Hashing a file in chunks *)

Definition chunk_size : nat := 8 * 1024.

(** [f.read(n)]: the next at most [n] bytes and what remains. *)
Fixpoint read (n : nat) (s : string) : string * string :=
  match n, s with
  | S n', String c r => let (a, b) := read n' r in (String c a, b)
  | _, _ => (EmptyString, s)
  end.

(** [iter(lambda: f.read(8192), b"")]: the chunks until the empty one. *)
Fixpoint read_chunks (fuel : nat) (s : string) : list string :=
  match fuel with
  | O => []
  | S fuel' =>
      match read chunk_size s with
      | (EmptyString, _) => []
      | (chunk, rest) => chunk :: read_chunks fuel' rest
      end
  end.

(** A hash object: its digest function and the bytes fed so far. *)
Record hash_obj : Type := {
  digest_of : string -> string;
  fed : string
}.

Definition update (h : hash_obj) (chunk : string) : hash_obj :=
  {| digest_of := digest_of h; fed := fed h ++ chunk |}.

Definition hexdigest (h : hash_obj) : string := digest_of h (fed h).

Section WithExternals.
Context `{Externals}.

(** [_calculate_file_hash]: every exception becomes an ["error:..."]
    string. *)
Definition _calculate_file_hash (w : world) (im : t) (file_path : string)
  : string :=
  match hashlib_new (hash_algorithm (settings im)) with
  | None => "error:unsupported hash type " ++ hash_algorithm (settings im)
  | Some digest =>
      match path_state w file_path with
      | Readable content =>
          hexdigest
            (fold_left update (read_chunks (S (String.length content)) content)
                       {| digest_of := digest; fed := "" |})
      | Unreadable msg => "error:" ++ msg
      | Missing =>
          "error:[Errno 2] No such file or directory: '" ++ file_path ++ "'"
      end
  end.

Definition _generate_identity_hash (im : t) : string :=
  match identity_info im with
  | None => ""
  | Some info =>
      let system_part :=
        match system_info info with
        | [] => []
        | _ => ["system:" ++ Json.dumps_sorted (PDict (system_info info))]
        end in
      let files_part :=
        match file_hashes info with
        | [] => []
        | _ => ["files:" ++ Json.dumps_sorted
                  (PDict (map (fun kv => (fst kv, PStr (snd kv)))
                              (file_hashes info)))]
        end in
      let custom_part :=
        match custom_data info with
        | [] => []
        | _ => ["custom:" ++ Json.dumps_sorted (PDict (custom_data info))]
        end in
      let created_part := ["created:" ++ isoformat (creation_time info)] in
      let components :=
        List.app system_part
          (List.app files_part (List.app custom_part created_part)) in
      let combined := Json.join "|" components in
      let alg := hash_algorithm (settings im) in
      if String.eqb alg "sha256" then hashlib_sha256 combined
      else if String.eqb alg "sha512" then hashlib_sha512 combined
      else if String.eqb alg "md5" then hashlib_md5 combined
      else hashlib_sha256 combined
  end.

Definition set_identity_info (im : t) (info : option IdentityInfo) : t :=
  {| settings := settings im; identity_info := info;
     cached_hash := cached_hash im; last_hash_time := last_hash_time im;
     hash_generations := hash_generations im; file_reads := file_reads im;
     system_info_queries := system_info_queries im |}.

Definition invalidate (im : t) : t :=
  {| settings := settings im; identity_info := identity_info im;
     cached_hash := None; last_hash_time := last_hash_time im;
     hash_generations := hash_generations im; file_reads := file_reads im;
     system_info_queries := system_info_queries im |}.

Definition import_identity (w : world) (im : t) (file_path : string)
  : bool * t :=
  if negb (exists_ w file_path) then (false, im)
  else
    match load_identity w file_path with
    | Some info => (true, invalidate (set_identity_info im (Some info)))
    | None => (false, im)
    end.

Definition _collect_system_info (w : world) (im : t) : dict pyval * t :=
  (platform_info w,
   {| settings := settings im; identity_info := identity_info im;
      cached_hash := cached_hash im; last_hash_time := last_hash_time im;
      hash_generations := hash_generations im; file_reads := file_reads im;
      system_info_queries := (system_info_queries im + 1)%Z |}).

Definition _create_new_identity (w : world) (im : t) : t :=
  let (sysinfo, im1) :=
    if include_system_info (settings im) then _collect_system_info w im
    else ([], im) in
  let hashes : dict string :=
    match nonempty (identity_file (settings im)) with
    | Some f =>
        if include_file_hash (settings im) && exists_ w f
        then [("identity_file", _calculate_file_hash w im1 f)] else []
    | None => []
    end in
  let info :=
    {| identity_hash := ""; creation_time := mk_datetime (time_time w) false;
       system_info := sysinfo; file_hashes := hashes; custom_data := [];
       version := "1.0" |} in
  let im2 := set_identity_info im1 (Some info) in
  set_identity_info im2
    (Some {| identity_hash := _generate_identity_hash im2;
             creation_time := creation_time info;
             system_info := system_info info;
             file_hashes := file_hashes info;
             custom_data := custom_data info;
             version := version info |}).

Definition _initialize_identity (w : world) (im : t) : t :=
  let create (st : t) :=
    if auto_generate (settings st) then _create_new_identity w st
    else set_identity_info st None in
  match nonempty (identity_file (settings im)) with
  | Some f =>
      if exists_ w f then
        let (ok, im1) := import_identity w im f in
        if ok then im1 else create im1
      else create im
  | None => create im
  end.

(** [IdentityManager.__init__] *)
Definition init (s : IdentitySettings) (w : world) : t :=
  _initialize_identity w
    {| settings := s; identity_info := None; cached_hash := None;
       last_hash_time := 0; hash_generations := 0; file_reads := 0;
       system_info_queries := 0 |}.

Definition _identity_changed (w : world) (im : t) : bool :=
  match identity_info im with
  | None => true
  | Some info =>
      match nonempty (identity_file (settings im)) with
      | Some f =>
          if exists_ w f then
            let current_hash := _calculate_file_hash w im f in
            match dict_get "identity_file" (file_hashes info) with
            | Some stored_hash => negb (String.eqb current_hash stored_hash)
            | None => true
            end
          else false
      | None => false
      end
  end.

Definition get_identity_hash (w : world) (im : t) : string * t :=
  let current_time := time_time w in
  match nonempty (cached_hash im) with
  | Some cached =>
      if negb (Qle_bool 60 (current_time - last_hash_time im))
         && negb (_identity_changed w im)
      then (cached, im)
      else
        let h := _generate_identity_hash im in
        (h, {| settings := settings im; identity_info := identity_info im;
               cached_hash := Some h; last_hash_time := current_time;
               hash_generations := (hash_generations im + 1)%Z;
               file_reads := file_reads im;
               system_info_queries := system_info_queries im |})
  | None =>
      let h := _generate_identity_hash im in
      (h, {| settings := settings im; identity_info := identity_info im;
             cached_hash := Some h; last_hash_time := current_time;
             hash_generations := (hash_generations im + 1)%Z;
             file_reads := file_reads im;
             system_info_queries := system_info_queries im |})
  end.

Definition set_file_hash (info : IdentityInfo) (key file_hash : string)
  : IdentityInfo :=
  {| identity_hash := identity_hash info; creation_time := creation_time info;
     system_info := system_info info;
     file_hashes := dict_set key file_hash (file_hashes info);
     custom_data := custom_data info; version := version info |}.

Definition add_file_to_identity (w : world) (im : t) (file_path : string)
           (alias : option string) : bool * t :=
  if negb (exists_ w file_path) then (false, im)
  else
    let file_hash := _calculate_file_hash w im file_path in
    let key := match nonempty alias with
               | Some a => a
               | None => basename file_path
               end in
    let im1 := match identity_info im with
               | None => _initialize_identity w im
               | Some _ => im
               end in
    match identity_info im1 with
    | Some info =>
        (true,
         {| settings := settings im1;
            identity_info := Some (set_file_hash info key file_hash);
            cached_hash := None; last_hash_time := last_hash_time im1;
            hash_generations := hash_generations im1;
            file_reads := (file_reads im1 + 1)%Z;
            system_info_queries := system_info_queries im1 |})
    | None => (false, im1)
    end.

Definition remove_file_from_identity (im : t) (file_key : string) : bool * t :=
  match identity_info im with
  | Some info =>
      if dict_mem file_key (file_hashes info) then
        (true,
         invalidate
           (set_identity_info im
              (Some {| identity_hash := identity_hash info;
                       creation_time := creation_time info;
                       system_info := system_info info;
                       file_hashes := dict_del file_key (file_hashes info);
                       custom_data := custom_data info;
                       version := version info |})))
      else (false, im)
  | None => (false, im)
  end.

Definition update_custom_data (w : world) (im : t) (key : string) (value : pyval)
  : t :=
  let im1 := match identity_info im with
             | None => _initialize_identity w im
             | Some _ => im
             end in
  match identity_info im1 with
  | Some info =>
      invalidate
        (set_identity_info im1
           (Some {| identity_hash := identity_hash info;
                    creation_time := creation_time info;
                    system_info := system_info info;
                    file_hashes := file_hashes info;
                    custom_data := dict_set key value (custom_data info);
                    version := version info |}))
  | None => im1
  end.
End WithExternals.

(** The file system of [w] with the file at [path] replaced. *)
Definition with_file (w : world) (path : string) (f : file_state) : world :=
  {| time_time := time_time w;
     path_state := fun p => if String.eqb p path then f else path_state w p;
     load_identity := load_identity w;
     platform_info := platform_info w |}.

(** The surroundings [w] at another time of day. *)
Definition at_time (w : world) (now : Q) : world :=
  {| time_time := now; path_state := path_state w;
     load_identity := load_identity w; platform_info := platform_info w |}.

Definition default_settings : IdentitySettings :=
  {| identity_file := None; auto_generate := true; hash_algorithm := "sha256";
     include_system_info := true; include_file_hash := true |}.

(** An instance constructed with [auto_generate] on, the other settings
    being free. *)
Definition auto_settings (file : option string) (alg : string)
           (sys fh : bool) : IdentitySettings :=
  {| identity_file := file; auto_generate := true; hash_algorithm := alg;
     include_system_info := sys; include_file_hash := fh |}.

(** [get_identity_info] *)
Definition get_identity_info (im : t) : option IdentityInfo := identity_info im.

(** The operations of an [IdentityManager], as calls that may change the
    instance. [export_identity] writes a file and leaves the instance as
    it is. *)
Inductive call : Type :=
| GetIdentityHash
| GetIdentityInfo
| UpdateCustomData (key : string) (value : pyval)
| AddFileToIdentity (file_path : string) (alias : option string)
| RemoveFileFromIdentity (file_key : string)
| ExportIdentity (file_path : string)
| ImportIdentity (file_path : string)
| GetStatistics.

Section Calls.
Context `{Externals}.

(** The instance after one call made in surroundings [w]. *)
Definition step (im : t) (wc : world * call) : t :=
  let (w, c) := wc in
  match c with
  | GetIdentityHash => snd (get_identity_hash w im)
  | UpdateCustomData key value => update_custom_data w im key value
  | AddFileToIdentity file_path alias =>
      snd (add_file_to_identity w im file_path alias)
  | RemoveFileFromIdentity file_key => snd (remove_file_from_identity im file_key)
  | ImportIdentity file_path => snd (import_identity w im file_path)
  | GetIdentityInfo | ExportIdentity _ | GetStatistics => im
  end.

Definition run (im : t) (trace : list (world * call)) : t :=
  fold_left step trace im.

(** The cached digest, when there is one that [get_identity_hash] would
    return, is the digest of the identity as it is now. *)
Definition cache_coherent (im : t) : Prop :=
  nonempty (cached_hash im) = None
  \/ cached_hash im = Some (_generate_identity_hash im).
End Calls.

(** The key [add_file_to_identity] stores a file under. *)
Definition file_key_of (file_path : string) (alias : option string) : string :=
  match nonempty alias with
  | Some a => a
  | None => basename file_path
  end.

(** ** Export and import *)

(** A dictionary whose values are all strings, as a [Dict[str, str]]. *)
Fixpoint as_str_dict (d : list (string * pyval)) : option (dict string) :=
  match d with
  | [] => Some []
  | (k, PStr s) :: r =>
      match as_str_dict r with
      | Some files => Some ((k, s) :: files)
      | None => None
      end
  | _ :: _ => None
  end.

Section Files.
Context `{Externals}.

(** [asdict(self.identity_info)] with [creation_time] replaced by its
    ISO text. *)
Definition export_data (info : IdentityInfo) : pyval :=
  PDict [ ("identity_hash", PStr (identity_hash info));
          ("creation_time", PStr (isoformat (creation_time info)));
          ("system_info", PDict (system_info info));
          ("file_hashes",
           PDict (map (fun kv => (fst kv, PStr (snd kv))) (file_hashes info)));
          ("custom_data", PDict (custom_data info));
          ("version", PStr (version info)) ].

(** What [export_identity] writes: [json.dump(export_data, f, indent=2)]. *)
Definition export_text (info : IdentityInfo) : string :=
  Json.dumps_indent 0 (export_data info).

(** [export_identity]; [writable] tells whether the file can be opened
    and written. The result, and the text the file then holds. *)
Definition export_identity (writable : bool) (im : t) : bool * option string :=
  match identity_info im with
  | None => (false, None)
  | Some info =>
      if writable then (true, Some (export_text info)) else (false, None)
  end.

(** The identity [import_identity] builds from the text of a file.
    [None] where [json.load] or the construction raises: the text is no
    JSON or no object, a key is missing, [creation_time] is no ISO text.
    [None] also for a text whose fields are not of the annotated types,
    which the record of this model cannot hold. *)
Definition read_identity (text : string) : option IdentityInfo :=
  match Json.loads text with
  | Ret (PDict data) =>
      match dict_get "identity_hash" data, dict_get "creation_time" data,
            dict_get "system_info" data, dict_get "file_hashes" data,
            dict_get "custom_data" data with
      | Some (PStr h), Some (PStr created), Some (PDict sysinfo),
        Some (PDict files), Some (PDict custom) =>
          match fromisoformat created, as_str_dict files,
                match dict_get "version" data with
                | None => Some "1.0"
                | Some (PStr v) => Some v
                | Some _ => None
                end with
          | Some t, Some hashes, Some v =>
              Some {| identity_hash := h; creation_time := t;
                      system_info := sysinfo; file_hashes := hashes;
                      custom_data := custom; version := v |}
          | _, _, _ => None
          end
      | _, _, _, _, _ => None
      end
  | _ => None
  end.
End Files.

End IdentityManager.

(* ===================================================================== *)
(** * src/core.py *)
(* ===================================================================== *)

Module Core.
Import Py.
Local Open Scope string_scope.

(** ** QRData *)

(** The dataclass checks no types: a field holds whatever value it was
    given, which for [from_json] is whatever the JSON text holds. *)
Record QRData : Type := {
  timestamp : pyval;
  identity_hash : pyval;
  blockchain_hashes : pyval;
  time_server_verification : pyval;
  user_data : pyval;
  sequence_number : pyval
}.

(** [dataclasses.asdict]: the fields in declaration order (the copy it
    makes of JSON-native values is the value). *)
Definition asdict (q : QRData) : pyval :=
  PDict [ ("timestamp", timestamp q);
          ("identity_hash", identity_hash q);
          ("blockchain_hashes", blockchain_hashes q);
          ("time_server_verification", time_server_verification q);
          ("user_data", user_data q);
          ("sequence_number", sequence_number q) ].

Definition to_json (q : QRData) : string := Json.dumps_compact (asdict q).

Definition field_names : list string :=
  [ "timestamp"; "identity_hash"; "blockchain_hashes";
    "time_server_verification"; "user_data"; "sequence_number" ].

(** The constructor called with the items of [data] as keyword arguments:
    [TypeError] unless [data] is a mapping whose keys are field names and
    include the four fields without a default. *)
Definition construct (data : pyval) : outcome QRData :=
  match data with
  | PDict d =>
      if forallb (fun k => str_in k field_names) (dict_keys d) then
        match dict_get "timestamp" d, dict_get "identity_hash" d,
              dict_get "blockchain_hashes" d,
              dict_get "time_server_verification" d with
        | Some ts, Some ih, Some bh, Some tsv =>
            Ret {| timestamp := ts; identity_hash := ih;
                   blockchain_hashes := bh; time_server_verification := tsv;
                   user_data := match dict_get "user_data" d with
                                | Some u => u | None => PNone end;
                   sequence_number := match dict_get "sequence_number" d with
                                      | Some n => n | None => PInt 0 end |}
        | _, _, _, _ => Raise TypeError
        end
      else Raise TypeError
  | _ => Raise TypeError
  end.

Definition from_json (json_str : string) : outcome QRData :=
  bind (Json.loads json_str) construct.

(** ** QRLiveProtocol *)

(** The fields of [QRLPConfig] the coordinator reads. *)
Record QRLPConfig : Type := {
  update_interval : Q;
  max_time_drift : Q
}.

(** The attributes of a [QRLiveProtocol] instance. The QR generator, the
    update thread and the callback list take no part in the operations
    below; the image the generator returns is an input of the call. *)
Record t : Type := {
  config : QRLPConfig;
  time_provider : TimeProvider.t;
  blockchain_verifier : BlockchainVerifier.t;
  identity_manager : IdentityManager.t;
  _running : bool;
  _current_qr_data : option QRData;
  _sequence_number : Z;
  _last_update_time : Q;
  _update_count : Z
}.

(** The surroundings of one call: those of the three components, the UTC
    clock, and what [generate_qr_image] does with a text (it raises when
    the text does not fit a QR code). *)
Record world : Type := {
  time_world : TimeProvider.world;
  chain_world : BlockchainVerifier.world;
  identity_world : IdentityManager.world;
  utc_now : Q;
  generate_qr_image : string -> outcome string
}.

Record results : Type := {
  valid_json : bool;
  error : option exn;
  identity_verified : bool;
  time_verified : bool;
  blockchain_verified : bool
}.

Definition set_components (p : t) (tp : TimeProvider.t)
           (im : IdentityManager.t) : t :=
  {| config := config p; time_provider := tp;
     blockchain_verifier := blockchain_verifier p; identity_manager := im;
     _running := _running p; _current_qr_data := _current_qr_data p;
     _sequence_number := _sequence_number p;
     _last_update_time := _last_update_time p;
     _update_count := _update_count p |}.

Section WithExternals.
Context `{Externals}.

(** [QRLiveProtocol.__init__] *)
Definition init (c : QRLPConfig) (ts : TimeProvider.TimeSettings)
           (bs : BlockchainVerifier.BlockchainSettings)
           (ids : IdentityManager.IdentitySettings) (w : world) : t :=
  {| config := c;
     time_provider := TimeProvider.init ts (time_world w);
     blockchain_verifier := BlockchainVerifier.init bs;
     identity_manager := IdentityManager.init ids (identity_world w);
     _running := false; _current_qr_data := None; _sequence_number := 0;
     _last_update_time := 0; _update_count := 0 |}.

(** [generate_single_qr]. The refresh threads that
    [get_blockchain_hashes] starts run on their own. *)
Definition generate_single_qr (w : world) (p : t) (data : pyval)
  : outcome (QRData * string) * t :=
  let current_time :=
    TimeProvider.get_current_time (time_world w) (time_provider p) in
  let (identity, im) :=
    IdentityManager.get_identity_hash (identity_world w) (identity_manager p) in
  let hashes :=
    fst (BlockchainVerifier.get_blockchain_hashes (chain_world w)
           (blockchain_verifier p)) in
  let (time_verification, tp) :=
    TimeProvider.get_time_server_verification (time_world w) (time_provider p) in
  let qr_data :=
    {| timestamp := PStr (isoformat current_time);
       identity_hash := PStr identity;
       blockchain_hashes := PDict (map (fun kv => (fst kv, PStr (snd kv))) hashes);
       time_server_verification := PDict time_verification;
       user_data := data;
       sequence_number := PInt (_sequence_number p) |} in
  let qr_json := to_json qr_data in
  match generate_qr_image w qr_json with
  | Raise e => (Raise e, set_components p tp im)
  | Ret qr_image =>
      (Ret (qr_data, qr_image),
       {| config := config p; time_provider := tp;
          blockchain_verifier := blockchain_verifier p;
          identity_manager := im; _running := _running p;
          _current_qr_data := Some qr_data;
          _sequence_number := (_sequence_number p + 1)%Z;
          _last_update_time := _last_update_time p;
          _update_count := _update_count p |})
  end.

(** The [try] block of [verify_qr_data]. *)
Definition verify_body (w : world) (p : t) (qr_json : string)
  : outcome results * t :=
  match from_json qr_json with
  | Raise e => (Raise e, p)
  | Ret qr_data =>
      let (expected_identity, im) :=
        IdentityManager.get_identity_hash (identity_world w)
          (identity_manager p) in
      let p1 := set_components p (time_provider p) im in
      let identity_ok := eq_str (identity_hash qr_data) expected_identity in
      match timestamp qr_data with
      | PStr ts =>
          match fromisoformat ts with
          | None => (Raise ValueError, p1)
          | Some qr_time =>
              if aware qr_time then
                let time_diff := Qabs (utc_now w - posix qr_time) in
                let time_ok :=
                  Qle_bool time_diff (max_time_drift (config p)) in
                if truthy (blockchain_hashes qr_data) then
                  match blockchain_hashes qr_data with
                  | PDict items =>
                      let current_hashes :=
                        fst (BlockchainVerifier.get_blockchain_hashes
                               (chain_world w) (blockchain_verifier p)) in
                      (Ret {| valid_json := true; error := None;
                              identity_verified := identity_ok;
                              time_verified := time_ok;
                              blockchain_verified :=
                                existsb
                                  (fun kv =>
                                     eq_opt_str
                                       (dict_get (fst kv) current_hashes)
                                       (snd kv))
                                  items |}, p1)
                  | _ => (Raise AttributeError, p1) (* no [items] *)
                  end
                else
                  (Ret {| valid_json := true; error := None;
                          identity_verified := identity_ok;
                          time_verified := time_ok;
                          blockchain_verified := false |}, p1)
              else (* aware minus naive *) (Raise TypeError, p1)
          end
      | _ => (* fromisoformat: argument must be str *) (Raise TypeError, p1)
      end
  end.

(** [except (json.JSONDecodeError, ValueError, KeyError)] *)
Definition caught (e : exn) : bool :=
  isinstance e JSONDecodeError || isinstance e ValueError
  || isinstance e KeyError.

Definition verify_qr_data (w : world) (p : t) (qr_json : string)
  : outcome results * t :=
  match verify_body w p qr_json with
  | (Raise e, p') =>
      if caught e then
        (Ret {| valid_json := false; error := Some e;
                identity_verified := false; time_verified := false;
                blockchain_verified := false |}, p')
      else (Raise e, p')
  | (Ret r, p') => (Ret r, p')
  end.

(** The timestamp of a packet can be compared with the clock: it is a
    string that [fromisoformat] reads as a datetime with a UTC offset. *)
Definition timestamp_usable (q : QRData) : bool :=
  match timestamp q with
  | PStr ts => match fromisoformat ts with
               | Some d => aware d
               | None => false
               end
  | _ => false
  end.

(** The instant a usable timestamp denotes. *)
Definition timestamp_instant (q : QRData) : Q :=
  match timestamp q with
  | PStr ts => match fromisoformat ts with
               | Some d => posix d
               | None => 0
               end
  | _ => 0
  end.

(** Calls on one instance, and the packets they produce. *)
Inductive call : Type :=
| GenerateSingleQr (data : pyval)
| VerifyQrData (qr_json : string).

Fixpoint run (p : t) (trace : list (world * call)) : list QRData * t :=
  match trace with
  | [] => ([], p)
  | (w, GenerateSingleQr data) :: r =>
      let (res, p') := generate_single_qr w p data in
      let (packets, p'') := run p' r in
      (match res with
       | Ret (q, _) => q :: packets
       | Raise _ => packets
       end, p'')
  | (w, VerifyQrData qr_json) :: r =>
      run (snd (verify_qr_data w p qr_json)) r
  end.
End WithExternals.

(** The numbers [start], [start + 1], ... as sequence numbers. *)
Fixpoint counting_from (start : Z) (n : nat) : list pyval :=
  match n with
  | O => []
  | S n' => PInt start :: counting_from (start + 1) n'
  end.

(** Each number is an [int], one more than the number before it. *)
Fixpoint consecutive (l : list pyval) : bool :=
  match l with
  | PInt a :: ((PInt b :: _) as r) => Z.eqb b (a + 1) && consecutive r
  | [PInt _] => true
  | [] => true
  | _ => false
  end.

(** Each number is an [int], greater than the number before it. *)
Fixpoint increasing (l : list pyval) : bool :=
  match l with
  | PInt a :: ((PInt b :: _) as r) => Z.ltb a b && increasing r
  | [PInt _] => true
  | [] => true
  | _ => false
  end.

(** A packet whose fields [json] carries unchanged. *)
Definition valid_packet (q : QRData) : bool :=
  Json.json_native (timestamp q) && Json.json_native (identity_hash q)
  && Json.json_native (blockchain_hashes q)
  && Json.json_native (time_server_verification q)
  && Json.json_native (user_data q) && Json.json_native (sequence_number q).

(** [get_current_qr_data] *)
Definition get_current_qr_data (p : t) : option QRData := _current_qr_data p.

(** ** The update loop *)

(** What the user-data callback does when the loop calls it. *)
Inductive user_input : Type :=
| NoCallback
| CallbackReturns (user_text : pyval)
| CallbackRaises.

(** The [user_data] of a pass of the loop. *)
Definition loop_user_data (u : user_input) : pyval :=
  match u with
  | CallbackReturns user_text =>
      if truthy user_text then PDict [("user_text", user_text)] else PNone
  | NoCallback | CallbackRaises => PNone
  end.

Section Loop.
Context `{Externals}.

(** One pass of the body of [_update_loop]. [start_time] and [end_time]
    are the two readings of the clock. The update callbacks are called
    with the packet and their exceptions are dropped; they are taken not
    to touch the instance. The result is the time the pass sleeps and
    the instance after it. *)
Definition _update_pass (w : world) (start_time end_time : Q) (u : user_input)
           (p : t) : Q * t :=
  match generate_single_qr w p (loop_user_data u) with
  | (Ret _, p1) =>
      let elapsed := end_time - start_time in
      let remaining := update_interval (config p1) - elapsed in
      (if Qle_bool remaining 0 then 0 else remaining,
       {| config := config p1; time_provider := time_provider p1;
          blockchain_verifier := blockchain_verifier p1;
          identity_manager := identity_manager p1; _running := _running p1;
          _current_qr_data := _current_qr_data p1;
          _sequence_number := _sequence_number p1;
          _last_update_time := start_time;
          _update_count := (_update_count p1 + 1)%Z |})
  | (Raise _, p1) => (1, p1)
  end.

(** What happens to an instance: a call from outside, or a pass of the
    loop. *)
Inductive event : Type :=
| Called (w : world) (c : call)
| Passed (w : world) (start_time end_time : Q) (u : user_input).

Definition after (p : t) (e : event) : t :=
  match e with
  | Called w (GenerateSingleQr data) => snd (generate_single_qr w p data)
  | Called w (VerifyQrData qr_json) => snd (verify_qr_data w p qr_json)
  | Passed w start_time end_time u => snd (_update_pass w start_time end_time u p)
  end.

Definition history (p : t) (events : list event) : t :=
  fold_left after events p.
End Loop.

End Core.

(* ===================================================================== *)
(** * src/qr_generator.py *)
(* ===================================================================== *)

Module QRGenerator.
Import Py.
Local Open Scope string_scope.

(** [config.QRSettings] *)
Record QRSettings : Type := {
  error_correction_level : string;
  border_size : Z;
  box_size : Z;
  fill_color : string;
  back_color : string;
  image_format : string;
  max_data_size : Z
}.

(** The attributes of a [QRGenerator] instance; an image is its bytes. *)
Record t : Type := {
  settings : QRSettings;
  cache : dict string;
  generation_count : Z
}.

(** [QRGenerator.__init__] *)
Definition init (s : QRSettings) : t :=
  {| settings := s; cache := []; generation_count := 0 |}.

(** What the generator takes from the interpreter and the libraries:
    - [str_hash data]: [hash(data)] as this process computes it;
    - [render data style settings]: the image [qrcode] and [PIL] produce
      for a text ([add_data], [make(fit=True)], [_generate_styled_image],
      [_image_to_bytes]), or the exception they raise;
    - [b64encode_utf8 data]:
      [base64.b64encode(data.encode("utf-8")).decode("ascii")]. *)
Record library : Type := {
  str_hash : string -> Z;
  render : string -> option string -> QRSettings -> outcome string;
  b64encode_utf8 : string -> string
}.

(** [f"{style}"] *)
Definition style_text (style : option string) : string :=
  match style with
  | Some s => s
  | None => "None"
  end.

(** [f"{hash(data)}_{style}_{self.settings.error_correction_level}"] *)
Definition cache_key (lib : library) (st : t) (data : string)
           (style : option string) : string :=
  Json.encode_int (str_hash lib data) ++ "_" ++ style_text style ++ "_"
  ++ error_correction_level (settings st).

(** [del self.cache[next(iter(self.cache))]] *)
Definition evict_oldest (c : dict string) : dict string :=
  match c with
  | [] => []
  | (oldest_key, _) :: _ => dict_del oldest_key c
  end.

Definition generate_qr_image (lib : library) (st : t) (data : string)
           (style : option string) : outcome string * t :=
  let key := cache_key lib st data style in
  match dict_get key (cache st) with
  | Some img_bytes => (Ret img_bytes, st)
  | None =>
      match render lib data style (settings st) with
      | Raise e => (Raise e, st)
      | Ret img_bytes =>
          let kept :=
            if Nat.ltb 100 (length (cache st)) then evict_oldest (cache st)
            else cache st in
          (Ret img_bytes,
           {| settings := settings st;
              cache := dict_set key img_bytes kept;
              generation_count := (generation_count st + 1)%Z |})
      end
  end.

(** [range(start, stop, step)] for a positive [step], as a list. *)
Fixpoint range_from (fuel start stop step : nat) : list nat :=
  match fuel with
  | O => []
  | S fuel' =>
      if Nat.ltb start stop
      then start :: range_from fuel' (start + step) stop step
      else []
  end.

(** [_split_data]: [range] raises [ValueError] for a step of zero and is
    empty for a negative one; a slice stops at the end of the text. *)
Definition _split_data (lib : library) (data : string) (chunk_size : Z)
  : outcome (list string) :=
  let encoded_data := b64encode_utf8 lib data in
  if Z.eqb chunk_size 0 then Raise ValueError
  else if Z.ltb chunk_size 0 then Ret []
  else
    Ret (map (fun i => substring i (Z.to_nat chunk_size) encoded_data)
             (range_from (String.length encoded_data) 0
                         (String.length encoded_data) (Z.to_nat chunk_size))).

(** The loop of [generate_chunked_qr_codes] over the chunks. *)
Fixpoint chunk_images (lib : library) (st : t) (chunks : list string)
         (qr_images : list string) : outcome (list string) * t :=
  match chunks with
  | [] => (Ret qr_images, st)
  | chunk :: rest =>
      match generate_qr_image lib st chunk (Some "live") with
      | (Ret chunk_qr, st') =>
          chunk_images lib st' rest (List.app qr_images [chunk_qr])
      | (Raise e, st') => (Raise e, st')
      end
  end.

Section WithExternals.
Context `{Externals}.

(** [json.dumps(metadata.__dict__)], with [creation_time] the clock. *)
Definition metadata_json (st : t) (now : Q) (data : string)
           (chunks : list string) : string :=
  Json.dumps_with false ", " ": "
    (PDict [ ("data_size", PInt (Z.of_nat (String.length data)));
             ("error_correction", PStr (error_correction_level (settings st)));
             ("version", PInt 0);
             ("creation_time", PFloat (float_repr now));
             ("chunk_index", PInt 0);
             ("total_chunks", PInt (Z.of_nat (length chunks))) ]).

(** [generate_chunked_qr_codes]; [max_chunk_size or default] takes the
    default for [None] and for 0. *)
Definition generate_chunked_qr_codes (lib : library) (now : Q) (st : t)
           (data : string) (max_chunk_size : option Z)
  : outcome (list string) * t :=
  let chunk_size :=
    match max_chunk_size with
    | Some n => if Z.eqb n 0 then max_data_size (settings st) else n
    | None => max_data_size (settings st)
    end in
  match _split_data lib data chunk_size with
  | Raise e => (Raise e, st)
  | Ret chunks =>
      match generate_qr_image lib st (metadata_json st now data chunks)
                              (Some "professional") with
      | (Ret metadata_qr, st') => chunk_images lib st' chunks [metadata_qr]
      | (Raise e, st') => (Raise e, st')
      end
  end.

(** Calls on one generator. *)
Inductive call : Type :=
| GenerateQrImage (data : string) (style : option string)
| GenerateChunkedQrCodes (now : Q) (data : string) (max_chunk_size : option Z)
| GetStatistics.

Definition step (lib : library) (st : t) (c : call) : t :=
  match c with
  | GenerateQrImage data style => snd (generate_qr_image lib st data style)
  | GenerateChunkedQrCodes now data max_chunk_size =>
      snd (generate_chunked_qr_codes lib now st data max_chunk_size)
  | GetStatistics => st
  end.

Definition run (lib : library) (st : t) (trace : list call) : t :=
  fold_left (step lib) trace st.
End WithExternals.

(** [get_statistics], without the copy of the settings. *)
Record statistics : Type := {
  total_generated : Z;
  cache_size : nat
}.

Definition get_statistics (st : t) : statistics :=
  {| total_generated := generation_count st; cache_size := length (cache st) |}.

(** The cache holds at most 101 images, under distinct keys. *)
Definition cache_bounded (st : t) : Prop :=
  NoDup (dict_keys (cache st)) /\ (length (cache st) <= 101)%nat.

(** The images of [chunks], in order: each is what [generate_qr_image]
    returns for its chunk with style ["live"], called on the generator as
    the call for the chunk before it left it. *)
Fixpoint images_of_chunks (lib : library) (st : t) (chunks images : list string)
  : Prop :=
  match chunks, images with
  | [], [] => True
  | chunk :: rest, chunk_qr :: more =>
      fst (generate_qr_image lib st chunk (Some "live")) = Ret chunk_qr
      /\ images_of_chunks lib
           (snd (generate_qr_image lib st chunk (Some "live"))) rest more
  | _, _ => False
  end.

(** The number of chunks a text of [n] characters is cut into. *)
Definition chunk_count (n chunk_size : nat) : nat :=
  ((n + chunk_size - 1) / chunk_size)%nat.

End QRGenerator.

(* ===================================================================== *)
(** * A concrete instance *)
(* ===================================================================== *)

(** Stand-ins for the library functions, and one packet and instance to
    run the operations on. The digests are not the real ones: nothing
    below depends on their values. *)
Module Demo.
Import Py.
Local Open Scope string_scope.

Definition noon : string := "2025-01-11T12:00:00+00:00".

Definition externals : Externals :=
  {| hashlib_sha256 := fun data => "sha256:" ++ data;
     hashlib_sha512 := fun data => "sha512:" ++ data;
     hashlib_md5 := fun data => "md5:" ++ data;
     hashlib_new := fun name =>
       if String.eqb name "sha256" then Some (fun data => "sha256:" ++ data)
       else None;
     fromisoformat := fun s =>
       if String.eqb s noon then Some (mk_datetime 1736596800 true)
       else if String.eqb s "2025-01-11T12:00:00"
       then Some (mk_datetime 1736596800 false)
       else None;
     isoformat := fun _ => noon;
     float_repr := fun _ => "0.0" |}.

(** A packet with an empty [blockchain_hashes] and no [user_data]. *)
Definition packet : Core.QRData :=
  {| Core.timestamp := PStr noon;
     Core.identity_hash := PStr "abc123def456789";
     Core.blockchain_hashes := PDict [];
     Core.time_server_verification :=
       PDict [("pool.ntp.org",
               PDict [("timestamp", PStr noon); ("offset", PFloat "0.05");
                      ("last_sync", PFloat "1736596800.0")])];
     Core.user_data := PNone;
     Core.sequence_number := PInt 7 |}.

(** Ten seconds past noon, with no network and an empty file system. *)
Definition surroundings : Core.world :=
  {| Core.time_world :=
       {| TimeProvider.time_time := 1736596810;
          TimeProvider.sync_lock_free := true;
          TimeProvider.ntp_request := fun _ => inl "timed out";
          TimeProvider.http_datetime := fun _ => inl "timed out" |};
     Core.chain_world := BlockchainVerifier.unreachable 1736596810;
     Core.identity_world :=
       {| IdentityManager.time_time := 1736596810;
          IdentityManager.path_state := fun _ => IdentityManager.Missing;
          IdentityManager.load_identity := fun _ => None;
          IdentityManager.platform_info := [("system", PStr "Linux")] |};
     Core.utc_now := 1736596810;
     Core.generate_qr_image := fun text => Ret text |}.

Definition protocol : Core.t :=
  Core.init (H := externals)
    {| Core.update_interval := 5; Core.max_time_drift := 30 |}
    {| TimeProvider.update_interval := 1;
       TimeProvider.time_servers := ["pool.ntp.org"];
       TimeProvider.timeout := 5;
       TimeProvider.local_fallback := true;
       TimeProvider.timezone := "UTC" |}
    BlockchainVerifier.default_settings
    IdentityManager.default_settings
    surroundings.


(** Surroundings in which blockcypher answers for Bitcoin. *)
Definition tip : string := "00000000000000000001a2b3c4d5e6f7".

Definition online : BlockchainVerifier.world :=
  {| BlockchainVerifier.time_time := 1736596800;
     BlockchainVerifier.update_lock_free := fun _ => true;
     BlockchainVerifier.explorer_tip := fun _ => None;
     BlockchainVerifier.explorer_block := fun _ _ => None;
     BlockchainVerifier.chain_summary := fun url =>
       if String.eqb url "https://api.blockcypher.com/v1/btc/main"
       then Some (878000%Z, tip) else None |}.

(** A file system with one file that can be read. *)
Definition key_path : string := "/home/user/id_ed25519.pub".

Definition disk : IdentityManager.world :=
  {| IdentityManager.time_time := 1736596810;
     IdentityManager.path_state := fun p =>
       if String.eqb p key_path
       then IdentityManager.Readable "ssh-ed25519 AAAAC3Nz demo"
       else IdentityManager.Missing;
     IdentityManager.load_identity := fun _ => None;
     IdentityManager.platform_info := [("system", PStr "Linux")] |}.

Definition manager : IdentityManager.t :=
  IdentityManager.init (H := externals) IdentityManager.default_settings disk.

(** An instance whose settings name the file as identity file. The file
    holds no identity, and its hash is not part of the identity. *)
Definition file_manager : IdentityManager.t :=
  IdentityManager.init (H := externals)
    {| IdentityManager.identity_file := Some key_path;
       IdentityManager.auto_generate := true;
       IdentityManager.hash_algorithm := "sha256";
       IdentityManager.include_system_info := true;
       IdentityManager.include_file_hash := false |}
    disk.

(** A text whose [blockchain_hashes] names a chain with [null]. *)
Definition forged_text : string :=
  Json.dquoted
    "{'timestamp':'2025-01-11T12:00:00+00:00','identity_hash':'abc','blockchain_hashes':{'bitcoin':null},'time_server_verification':{}}".

Definition forged_packet : Core.QRData :=
  {| Core.timestamp := PStr noon;
     Core.identity_hash := PStr "abc";
     Core.blockchain_hashes := PDict [("bitcoin", PNone)];
     Core.time_server_verification := PDict [];
     Core.user_data := PNone;
     Core.sequence_number := PInt 0 |}.

(** A stand-in for the interpreter and the image libraries, under which
    every text has the same hash. *)
Definition qr_library : QRGenerator.library :=
  {| QRGenerator.str_hash := fun _ => 0%Z;
     QRGenerator.render := fun data _ _ => Ret ("png:" ++ data);
     QRGenerator.b64encode_utf8 := fun data => data |}.

Definition qr_settings : QRGenerator.QRSettings :=
  {| QRGenerator.error_correction_level := "M";
     QRGenerator.border_size := 4;
     QRGenerator.box_size := 10;
     QRGenerator.fill_color := "black";
     QRGenerator.back_color := "white";
     QRGenerator.image_format := "PNG";
     QRGenerator.max_data_size := 2000 |}.

(** Three time sources, one of them an hour off. *)
Definition three_servers : TimeProvider.t :=
  TimeProvider.with_offsets (Core.time_provider protocol)
    [ ("time.nist.gov", 1 # 10); ("pool.ntp.org", 3600);
      ("time.google.com", 2 # 10) ].

(** Two custom entries, made in one order and in the other. *)
Definition labelled : IdentityManager.t :=
  IdentityManager.update_custom_data (H := externals) disk
    (IdentityManager.update_custom_data (H := externals) disk manager
       "event" (PStr "launch"))
    "stage" (PInt 2).

Definition relabelled : IdentityManager.t :=
  IdentityManager.update_custom_data (H := externals) disk
    (IdentityManager.update_custom_data (H := externals) disk manager
       "stage" (PInt 2))
    "event" (PStr "launch").

(** An identity to export, and a file system that holds its export. *)
Definition exported_info : IdentityManager.IdentityInfo :=
  {| IdentityManager.identity_hash := "abc123def456789";
     IdentityManager.creation_time := mk_datetime 1736596800 true;
     IdentityManager.system_info := [("system", PStr "Linux")];
     IdentityManager.file_hashes := [("id_ed25519.pub", "sha256:demo")];
     IdentityManager.custom_data := [("stage", PInt 2); ("tags", PList [])];
     IdentityManager.version := "1.0" |}.

Definition exporting : IdentityManager.t :=
  IdentityManager.set_identity_info manager (Some exported_info).

Definition archive : IdentityManager.world :=
  {| IdentityManager.time_time := 1736596820;
     IdentityManager.path_state := fun p =>
       if String.eqb p "identity.json"
       then IdentityManager.Readable
              (IdentityManager.export_text (H := externals) exported_info)
       else IdentityManager.Missing;
     IdentityManager.load_identity := fun p =>
       if String.eqb p "identity.json"
       then IdentityManager.read_identity (H := externals)
              (IdentityManager.export_text (H := externals) exported_info)
       else None;
     IdentityManager.platform_info := [("system", PStr "Linux")] |}.

(** The 64-bit GNU C library: [gmtime] converts a time whose year fits
    an [int]. *)
Definition glibc64 : TimeProvider.platform :=
  {| TimeProvider.gmtime_supported := fun sec =>
       Z.leb (-67768040609740800) sec && Z.leb sec 67768036191676799 |}.

(** A time source that answers with the given offset. *)
Definition answering (now off : Q) : TimeProvider.world :=
  {| TimeProvider.time_time := now;
     TimeProvider.sync_lock_free := true;
     TimeProvider.ntp_request := fun _ =>
       inr {| TimeProvider.tx_time := now + off;
              TimeProvider.ntp_offset := off;
              TimeProvider.ntp_delay := 0;
              TimeProvider.ntp_stratum := 2 |};
     TimeProvider.http_datetime := fun _ => inl "timed out" |}.

(** Time APIs that report the last second of the year 9999; no NTP
    server answers. *)
Definition late_api (now : Q) : TimeProvider.world :=
  {| TimeProvider.time_time := now;
     TimeProvider.sync_lock_free := true;
     TimeProvider.ntp_request := fun _ => inl "timed out";
     TimeProvider.http_datetime := fun _ => inr 253402300799 |}.

Definition one_server : TimeProvider.TimeSettings :=
  {| TimeProvider.update_interval := 60;
     TimeProvider.time_servers := ["pool.ntp.org"];
     TimeProvider.timeout := 5;
     TimeProvider.local_fallback := true;
     TimeProvider.timezone := "UTC" |}.

End Demo.

(* ===================================================================== *)
(** * Properties of dictionaries *)
(* ===================================================================== *)

Section DictFacts.
Import Py.
Context {V : Type}.

Lemma dict_get_set_same (k : string) (v : V) (d : dict V) :
  dict_get k (dict_set k v d) = Some v.
Proof.
  induction d as [|[k' v'] r IH]; simpl.
  - now rewrite String.eqb_refl.
  - destruct (String.eqb k k') eqn:E; simpl; rewrite E; [reflexivity | exact IH].
Qed.

Lemma dict_get_set_other (k k' : string) (v : V) (d : dict V) :
  k <> k' -> dict_get k (dict_set k' v d) = dict_get k d.
Proof.
  intros Hne. induction d as [|[k0 v0] r IH]; simpl.
  - apply String.eqb_neq in Hne. now rewrite Hne.
  - destruct (String.eqb k' k0) eqn:E; simpl.
    + apply String.eqb_eq in E. subst k0.
      apply String.eqb_neq in Hne. now rewrite Hne.
    + destruct (String.eqb k k0); [reflexivity | exact IH].
Qed.

End DictFacts.

(* ===================================================================== *)
(** * Properties of the time provider *)
(* ===================================================================== *)

Section TimeProviderFacts.
Import Py TimeProvider.

Lemma insert_sorted_length (x : Q) (l : list Q) :
  length (insert_sorted x l) = S (length l).
Proof.
  induction l as [|y r IH]; simpl; [reflexivity|].
  destruct (Qle_bool x y); simpl; [reflexivity|]. now rewrite IH.
Qed.

Lemma sort_length (l : list Q) : length (sort l) = length l.
Proof.
  induction l as [|x r IH]; [reflexivity|].
  unfold sort in *. simpl. rewrite insert_sorted_length. now rewrite IH.
Qed.

(** [sort] sorts: its result is ordered and holds the same values. *)
Lemma insert_sorted_permutation (x : Q) (l : list Q) :
  Permutation (x :: l) (insert_sorted x l).
Proof.
  induction l as [|y r IH]; simpl; [apply Permutation_refl|].
  destruct (Qle_bool x y); [apply Permutation_refl|].
  eapply Permutation_trans; [apply perm_swap | now apply perm_skip].
Qed.

Lemma sort_permutation (l : list Q) : Permutation l (sort l).
Proof.
  induction l as [|x r IH]; [apply Permutation_refl|].
  unfold sort in *. simpl.
  eapply Permutation_trans; [apply perm_skip, IH | apply insert_sorted_permutation].
Qed.

Lemma insert_sorted_ordered (x : Q) (l : list Q) :
  Sorted Qle l -> Sorted Qle (insert_sorted x l).
Proof.
  induction l as [|y r IH]; intros Hs; simpl.
  - repeat constructor.
  - destruct (Qle_bool x y) eqn:Hxy.
    + constructor; [exact Hs | constructor; now apply Qle_bool_iff].
    + assert (Hyx : y <= x).
      { apply Qlt_le_weak, Qnot_le_lt. intros Hle.
        apply Qle_bool_iff in Hle. congruence. }
      inversion Hs as [|y' r' Hr Hhd]; subst.
      constructor; [now apply IH|].
      destruct r as [|z r'']; simpl.
      * now constructor.
      * destruct (Qle_bool x z); constructor; [exact Hyx|].
        now inversion Hhd.
Qed.

Lemma sort_ordered (l : list Q) : Sorted Qle (sort l).
Proof.
  induction l as [|x r IH]; [constructor|].
  unfold sort in *. simpl. now apply insert_sorted_ordered.
Qed.

Lemma nth_removelast (l : list Q) (k : nat) (d : Q) :
  (S k < length l)%nat -> nth k (removelast l) d = nth k l d.
Proof.
  revert k. induction l as [|a r IH]; intros k Hk; simpl in *; [lia|].
  destruct r as [|b r']; simpl in *; [lia|].
  destruct k as [|k']; [reflexivity|].
  apply IH. simpl. lia.
Qed.

Lemma removelast_length (l : list Q) :
  length (removelast l) = (length l - 1)%nat.
Proof.
  induction l as [|a r IH]; simpl; [reflexivity|].
  destruct r as [|b r']; [reflexivity|].
  simpl length in *. rewrite IH. lia.
Qed.

Lemma half_step (n : nat) : (S (S n) / 2 = S (n / 2))%nat.
Proof.
  change (S (S n)) with (2 + n)%nat.
  replace (2 + n)%nat with (n + 1 * 2)%nat by lia.
  rewrite Nat.div_add by lia. lia.
Qed.

Lemma parity_step (n : nat) : (S (S n) mod 2 = n mod 2)%nat.
Proof.
  replace (S (S n)) with (n + 1 * 2)%nat by lia.
  now rewrite Nat.Div0.mod_add.
Qed.

Lemma half_le (n : nat) : (n / 2 <= n)%nat.
Proof. apply Nat.Div0.div_le_upper_bound. lia. Qed.

Lemma half_lt (n : nat) : (0 < n)%nat -> (n / 2 < n)%nat.
Proof. intros Hn. apply Nat.div_lt; lia. Qed.

Lemma even_half_pos (n : nat) :
  (0 < n)%nat -> (n mod 2 = 0)%nat -> (0 < n / 2)%nat.
Proof.
  intros Hn Hm. destruct n as [|[|n']]; [lia| discriminate |].
  rewrite half_step. lia.
Qed.

Lemma middle_index (fuel : nat) :
  forall l, (length l <= fuel)%nat -> l <> [] -> middle fuel l = index_median l.
Proof.
  induction fuel as [|fuel IH]; intros l Hlen Hne.
  - destruct l; [congruence | simpl in Hlen; lia].
  - destruct l as [|a [|b [|c r]]]; [congruence | reflexivity | reflexivity |].
    cbn [middle].
    rewrite IH; [ | rewrite removelast_length; simpl in *; lia | discriminate ].
    unfold index_median.
    rewrite removelast_length.
    set (m := length r).
    assert (Hl : length (a :: b :: c :: r) = S (S (S m))) by reflexivity.
    assert (Hr : (length (b :: c :: r) - 1)%nat = S m) by (simpl; lia).
    rewrite Hl, Hr. rewrite (parity_step (S m)), (half_step (S m)).
    assert (Hh' : (S m / 2 < S m)%nat) by (apply half_lt; lia).
    assert (Hlen' : length (b :: c :: r) = S (S m)) by reflexivity.
    remember (S m / 2)%nat as h eqn:Hh.
    destruct (Nat.eqb (S m mod 2) 0) eqn:Hpar.
    + apply Nat.eqb_eq in Hpar.
      assert (Hpos : (0 < h)%nat)
        by (subst h; apply even_half_pos; [lia|exact Hpar]).
      rewrite (nth_removelast _ (h - 1)) by (rewrite Hlen'; lia).
      rewrite (nth_removelast _ h) by (rewrite Hlen'; lia).
      replace (S h - 1)%nat with (S (h - 1))%nat by lia.
      reflexivity.
    + rewrite (nth_removelast _ h) by (rewrite Hlen'; lia). reflexivity.
Qed.

(** The number of values a test selects is the same in any order. *)
Lemma filter_length_permutation (f : Q -> bool) (l l' : list Q) :
  Permutation l l' -> length (filter f l) = length (filter f l').
Proof.
  induction 1 as [|x l l' _ IH|x y l|l l' l'' _ IH1 _ IH2]; simpl.
  - reflexivity.
  - destruct (f x); simpl; congruence.
  - destruct (f x), (f y); reflexivity.
  - congruence.
Qed.

Lemma filter_length_le (f g : Q -> bool) (l : list Q) :
  (forall y, f y = true -> g y = true) ->
  (length (filter f l) <= length (filter g l))%nat.
Proof.
  intros Hfg. induction l as [|y r IH]; simpl; [lia|].
  destruct (f y) eqn:Hf.
  - rewrite (Hfg y Hf). simpl. lia.
  - destruct (g y); simpl; lia.
Qed.

(** In a list in order, fewer than [k + 1] values lie below the value at
    index [k], and more than [k] values lie at or below it. *)
Lemma sorted_rank (s : list Q) :
  StronglySorted Qle s ->
  forall k, (k < length s)%nat ->
    (length (filter (fun y => negb (Qle_bool (nth k s 0%Q) y)) s) <= k)%nat
    /\ (k < length (filter (fun y => Qle_bool y (nth k s 0%Q)) s))%nat.
Proof.
  induction 1 as [|a r Hr IH Ha]; intros k Hk; simpl in Hk; [lia|].
  destruct k as [|k]; cbn [nth filter].
  - assert (Haa : Qle_bool a a = true) by (apply Qle_bool_iff, Qle_refl).
    rewrite Haa. cbn [negb length]. split; [|lia].
    assert (Hnone : filter (fun y => negb (Qle_bool a y)) r = []).
    { clear IH Hk Hr. induction r as [|b r IH]; [reflexivity|].
      inversion Ha as [|b' r' Hab Har]; subst. simpl.
      apply Qle_bool_iff in Hab. rewrite Hab. simpl. now apply IH. }
    rewrite Hnone. simpl. lia.
  - destruct (IH k ltac:(lia)) as [Hlo Hhi].
    assert (Hax : Qle_bool a (nth k r 0) = true).
    { apply Qle_bool_iff. rewrite Forall_forall in Ha. apply Ha, nth_In. lia. }
    rewrite Hax. split.
    + destruct (negb (Qle_bool (nth k r 0) a)); simpl; lia.
    + simpl. lia.
Qed.

(** Two lists in order that hold the same values agree at every index, up
    to the value of the rationals. *)
Lemma sorted_permutation_nth_le (s1 s2 : list Q) :
  StronglySorted Qle s1 -> StronglySorted Qle s2 -> Permutation s1 s2 ->
  forall k, (k < length s1)%nat -> nth k s1 0 <= nth k s2 0.
Proof.
  intros H1 H2 Hperm k Hk.
  assert (Hk2 : (k < length s2)%nat) by (now rewrite <- (Permutation_length Hperm)).
  destruct (Qlt_le_dec (nth k s2 0) (nth k s1 0)) as [Hlt|Hle]; [exfalso|exact Hle].
  destruct (sorted_rank s1 H1 k Hk) as [Hbelow _].
  destruct (sorted_rank s2 H2 k Hk2) as [_ Hupto].
  rewrite <- (filter_length_permutation _ _ _ Hperm) in Hupto.
  pose proof (filter_length_le
                (fun y => Qle_bool y (nth k s2 0))
                (fun y => negb (Qle_bool (nth k s1 0) y)) s1) as Hmono.
  assert (Himp : forall y, Qle_bool y (nth k s2 0) = true ->
                           negb (Qle_bool (nth k s1 0) y) = true).
  { intros y Hy. apply Qle_bool_iff in Hy. apply negb_true_iff.
    destruct (Qle_bool (nth k s1 0) y) eqn:Hc; [|reflexivity].
    apply Qle_bool_iff in Hc. lra. }
  specialize (Hmono Himp). lia.
Qed.

Lemma sorted_permutation_nth (s1 s2 : list Q) :
  Sorted Qle s1 -> Sorted Qle s2 -> Permutation s1 s2 ->
  forall k, nth k s1 0 == nth k s2 0.
Proof.
  intros H1 H2 Hperm k.
  assert (Htrans : Relations_1.Transitive Qle) by (intros a b c; apply Qle_trans).
  apply Sorted_StronglySorted in H1, H2; try exact Htrans.
  pose proof (Permutation_length Hperm) as Hlen.
  destruct (Nat.lt_ge_cases k (length s1)) as [Hk|Hk].
  - apply Qle_antisym.
    + now apply sorted_permutation_nth_le.
    + apply sorted_permutation_nth_le; try assumption;
        [now apply Permutation_sym | lia].
  - rewrite !nth_overflow by lia. reflexivity.
Qed.

Lemma index_median_sorted_permutation (s1 s2 : list Q) :
  Sorted Qle s1 -> Sorted Qle s2 -> Permutation s1 s2 ->
  index_median s1 == index_median s2.
Proof.
  intros H1 H2 Hperm. unfold index_median.
  rewrite <- (Permutation_length Hperm).
  pose proof (sorted_permutation_nth s1 s2 H1 H2 Hperm) as Hnth.
  destruct (Nat.eqb _ 0); [|apply Hnth].
  now rewrite (Hnth (length s1 / 2 - 1)%nat), (Hnth (length s1 / 2)%nat).
Qed.

(** The offset [get_current_time] adds is the median of the offsets put
    in order by any means. *)
Lemma median_offset_of_sorted (tp : t) (sorted : list Q) :
  Permutation (dict_values (time_offsets tp)) sorted ->
  Sorted Qle sorted ->
  match median_offset tp with
  | Some m => m == middle (length sorted) sorted
  | None => sorted = []
  end.
Proof.
  intros Hperm Hsorted. unfold median_offset.
  destruct (time_offsets tp) as [|kv d] eqn:Hoff.
  - apply Permutation_nil in Hperm. exact Hperm.
  - rewrite <- Hoff in *.
    assert (Hne : sorted <> []).
    { intros ->. apply Permutation_sym, Permutation_nil in Hperm.
      rewrite Hoff in Hperm. discriminate. }
    assert (Hm : index_median (sort (dict_values (time_offsets tp)))
                 == middle (length sorted) sorted).
    { rewrite middle_index by (try lia; exact Hne).
      apply index_median_sorted_permutation;
        [apply sort_ordered | exact Hsorted |].
      apply Permutation_trans with (dict_values (time_offsets tp));
        [apply Permutation_sym, sort_permutation | exact Hperm]. }
    unfold index_median in Hm. cbv zeta in *.
    destruct (Nat.eqb _ 0); exact Hm.
Qed.

Lemma round_half_even_comp (x y : Q) :
  x == y -> round_half_even x = round_half_even y.
Proof.
  intros Hxy. unfold round_half_even. cbv zeta.
  rewrite (Qfloor_comp _ _ Hxy).
  assert (Hc : Qcompare (x - inject_Z (Qfloor y)) (1 # 2)
               = Qcompare (y - inject_Z (Qfloor y)) (1 # 2)).
  { apply Qcompare_comp; [now rewrite Hxy | reflexivity]. }
  now rewrite Hc.
Qed.

Lemma round_half_even_near (x : Q) :
  Qabs (inject_Z (round_half_even x) - x) <= 1 # 2.
Proof.
  unfold round_half_even. cbv zeta.
  pose proof (Qfloor_le x) as Hlo. pose proof (Qlt_floor x) as Hhi.
  set (f := Qfloor x) in *.
  assert (Hf1 : inject_Z (f + 1) == inject_Z f + 1)
    by (rewrite inject_Z_plus; reflexivity).
  rewrite Hf1 in Hhi.
  apply Qabs_Qle_condition.
  destruct (Qcompare_spec (x - inject_Z f) (1 # 2)) as [Heq|Hlt|Hgt].
  - destruct (Z.even f); [|rewrite Hf1]; split; lra.
  - split; lra.
  - rewrite Hf1. split; lra.
Qed.

(** Rounding to microseconds moves an instant by at most half a
    microsecond. *)
Lemma microseconds_near (x : Q) :
  Qabs (inject_Z (microseconds x) / 1000000 - x) <= 1 # 2000000.
Proof.
  unfold microseconds.
  pose proof (round_half_even_near (x * 1000000)) as Hnear.
  apply Qabs_Qle_condition in Hnear. apply Qabs_Qle_condition.
  set (r := inject_Z (round_half_even (x * 1000000))) in *.
  assert (Hdiv : r / 1000000 == r * (1 # 1000000)) by (unfold Qdiv; reflexivity).
  rewrite Hdiv. split; lra.
Qed.

Lemma fromtimestamp_comp (pf : platform) (x y : Q) :
  x == y -> fromtimestamp pf x = fromtimestamp pf y.
Proof.
  intros Hxy. unfold fromtimestamp, microseconds.
  assert (Hr : round_half_even (x * 1000000) = round_half_even (y * 1000000))
    by (apply round_half_even_comp; now rewrite Hxy).
  now rewrite Hr.
Qed.

(** What [fromtimestamp] comes to, case by case. *)
Lemma fromtimestamp_cases (pf : platform) (x : Q) :
  match fromtimestamp pf x with
  | Converted d =>
      aware d = true
      /\ posix d = inject_Z (microseconds x) / 1000000
      /\ Qabs (posix d - x) <= 1 # 2000000
      /\ gmtime_supported pf (microseconds x / 1000000) = true
      /\ (min_second <= microseconds x / 1000000 <= max_second)%Z
  | YearOutOfRange =>
      gmtime_supported pf (microseconds x / 1000000) = true
      /\ (microseconds x / 1000000 < min_second
          \/ max_second < microseconds x / 1000000)%Z
  | PlatformOutOfRange =>
      gmtime_supported pf (microseconds x / 1000000) = false
  end.
Proof.
  unfold fromtimestamp. cbv zeta.
  destruct (gmtime_supported pf (microseconds x / 1000000)); cbn [negb];
    [|reflexivity].
  destruct (Z.leb_spec min_second (microseconds x / 1000000));
    destruct (Z.leb_spec (microseconds x / 1000000) max_second); cbn [andb];
    try (split; [reflexivity | lia]).
  cbn [aware posix].
  split; [reflexivity | split; [reflexivity | split; [apply microseconds_near|]]].
  split; [reflexivity | lia].
Qed.

(** The conversion on the values that decide it: a tie goes to the even
    microsecond, the years 1 to 9999 are the seconds from [min_second]
    to [max_second], and beyond what [gmtime] converts the error is the
    platform's. *)
Lemma fromtimestamp_at_the_bounds :
  microseconds (5 # 10000000) = 0%Z
  /\ microseconds (15 # 10000000) = 2%Z
  /\ microseconds (25 # 10000000) = 2%Z
  /\ microseconds (- (15 # 10000000)) = (-2)%Z
  /\ fromtimestamp Demo.glibc64 253402300799
     = Converted (mk_datetime (inject_Z 253402300799000000 / 1000000) true)
  /\ fromtimestamp Demo.glibc64 253402300800 = YearOutOfRange
  /\ fromtimestamp Demo.glibc64 (-62135596800)
     = Converted (mk_datetime (inject_Z (-62135596800000000) / 1000000) true)
  /\ fromtimestamp Demo.glibc64 (- (621355968005 # 10)) = YearOutOfRange
  /\ fromtimestamp Demo.glibc64 67768036191676799 = YearOutOfRange
  /\ fromtimestamp Demo.glibc64 67768036191676800 = PlatformOutOfRange.
Proof. repeat split. Qed.

(** C3, as the code has it. [get_current_time] hands the local clock
    plus the median of the consensus offsets to [datetime.fromtimestamp]:
    it returns that instant as a UTC [datetime], rounded to the
    microsecond, when it lies in the years 1 to 9999 and within what the
    platform converts, and raises otherwise. The median is that of the
    offsets put in order by any means ([sorted] is any ordered
    arrangement of the values): 0 when there are none, the middle value
    when their number is odd, the average of the two middle values when
    it is even. Offsets -2, -1, 0, 1, 2 give the consensus offset 0 and
    offsets 1, 2 give 3/2, in whatever order the servers answered. *)
Theorem get_current_time_is_local_plus_median
        (pf : platform) (w : world) (tp : t) (sorted : list Q) :
  Permutation (dict_values (time_offsets tp)) sorted ->
  Sorted Qle sorted ->
  let adjusted := time_time w + middle (length sorted) sorted in
  let second := (microseconds adjusted / 1000000)%Z in
  get_current_time_utc pf w tp = fromtimestamp pf adjusted
  /\ match get_current_time_utc pf w tp with
     | Converted d =>
         aware d = true
         /\ posix d = inject_Z (microseconds adjusted) / 1000000
         /\ Qabs (posix d - adjusted) <= 1 # 2000000
         /\ gmtime_supported pf second = true
         /\ (min_second <= second <= max_second)%Z
     | YearOutOfRange =>
         gmtime_supported pf second = true
         /\ (second < min_second \/ max_second < second)%Z
     | PlatformOutOfRange => gmtime_supported pf second = false
     end
  /\ get_current_time_utc pf w (with_offsets tp []) = fromtimestamp pf (time_time w)
  /\ median_offset
       (with_offsets tp [("a", -2); ("b", -1); ("c", 0); ("d", 1); ("e", 2)])
     = Some 0
  /\ median_offset
       (with_offsets tp [("a", 1); ("b", -2); ("c", 2); ("d", 0); ("e", -1)])
     = Some 0
  /\ median_offset (with_offsets tp [("a", 1); ("b", 2)]) = Some (3 # 2)
  /\ median_offset (with_offsets tp [("a", 2); ("b", 1)]) = Some (3 # 2).
Proof.
  intros Hperm Hsorted adjusted second.
  assert (Hcode : get_current_time_utc pf w tp = fromtimestamp pf adjusted).
  { unfold get_current_time_utc. cbv zeta.
    pose proof (median_offset_of_sorted tp sorted Hperm Hsorted) as Hmedian.
    destruct (median_offset tp) as [m|]; apply fromtimestamp_comp; unfold adjusted.
    - now rewrite Hmedian.
    - rewrite Hmedian. simpl. ring. }
  split; [exact Hcode | split].
  - rewrite Hcode. apply fromtimestamp_cases.
  - repeat split.
Qed.

Lemma get_current_time_is_local_plus_median_witness :
  get_current_time_utc Demo.glibc64 (Core.time_world Demo.surroundings)
    Demo.three_servers
  = fromtimestamp Demo.glibc64 (1736596810 + (2 # 10)).
Proof.
  destruct (get_current_time_is_local_plus_median Demo.glibc64
              (Core.time_world Demo.surroundings) Demo.three_servers
              [1 # 10; 2 # 10; 3600]) as [Hcode _].
  - apply perm_skip, perm_swap.
  - repeat constructor; apply Qle_bool_iff; reflexivity.
  - exact Hcode.
Defined.

(** C3 as stated fails. When the time APIs report the last second of
    the year 9999, the instance the constructor builds holds their
    offsets, and five seconds later [get_current_time] raises
    [ValueError]: the adjusted time lies in the year 10000. With one NTP
    server whose offset is 2^-21 seconds (about half a microsecond), the
    [datetime] returned is the local clock to the microsecond, not the
    local clock plus the offset. *)
Lemma get_current_time_raises_beyond_year_9999 :
  let late := init Demo.one_server (Demo.late_api 1736596810) in
  let near := Demo.answering 1736596810 (1 # 2097152) in
  dict_values (time_offsets late)
  = [253402300799 - 1736596810; 253402300799 - 1736596810]
  /\ get_current_time_utc Demo.glibc64 (Demo.late_api 1736596815) late
     = YearOutOfRange
  /\ time_offsets (init Demo.one_server near) = [("pool.ntp.org", 1 # 2097152)]
  /\ get_current_time_utc Demo.glibc64 near (init Demo.one_server near)
     = Converted (mk_datetime (inject_Z 1736596810000000 / 1000000) true)
  /\ ~ inject_Z 1736596810000000 / 1000000 == 1736596810 + (1 # 2097152).
Proof.
  cbv zeta. split; [reflexivity | split; [reflexivity | split; [reflexivity|]]].
  split; [reflexivity | discriminate].
Qed.

Lemma sync_round (w : world) (tp : t) : sync_round_effect w tp.
Proof.
  unfold sync_round_effect, _sync_with_servers.
  destruct (sync_lock_free w); simpl; [|reflexivity].
  destruct (collect_offsets (sync_all_servers w tp)); simpl.
  - split; [reflexivity | right; split; reflexivity].
  - split; [reflexivity | left; split; reflexivity].
Qed.

Lemma sync_preserves_stats (w : world) (tp : t) :
  stats_consistent tp -> stats_consistent (_sync_with_servers w tp).
Proof.
  unfold stats_consistent. intros Hinv.
  pose proof (sync_round w tp) as Hround. unfold sync_round_effect in Hround.
  destruct (sync_lock_free w).
  - destruct Hround as [Ht [[Hs Hf] | [Hs Hf]]]; rewrite Ht, Hs, Hf; lia.
  - now rewrite Hround.
Qed.

Section StepFacts.
Context `{Externals}.

Lemma step_preserves_stats (tp : t) (wc : world * call) :
  stats_consistent tp -> stats_consistent (step tp wc).
Proof.
  intros Hinv. destruct wc as [w c]. destruct c; simpl; try exact Hinv.
  - destruct (Qle_bool _ _); [exact Hinv | now apply sync_preserves_stats].
  - now apply sync_preserves_stats.
  - now apply sync_preserves_stats.
Qed.

Lemma run_preserves_stats (trace : list (world * call)) :
  forall tp, stats_consistent tp -> stats_consistent (run tp trace).
Proof.
  induction trace as [|wc trace IH]; intros tp Hinv; [exact Hinv|].
  apply IH. now apply step_preserves_stats.
Qed.

Lemma init_stats (s : TimeSettings) (w : world) : stats_consistent (init s w).
Proof. apply sync_preserves_stats. reflexivity. Qed.

(** C10. [total_syncs = successful_syncs + failed_syncs] holds for a
    freshly constructed [TimeProvider] and after any sequence of calls
    on it, whatever the clock, the lock and the time sources do. A sync
    round that gets the lock adds one to [total_syncs] and to exactly one
    of [successful_syncs] and [failed_syncs]; a round that finds the lock
    taken changes nothing. *)
Theorem stats_invariant (s : TimeSettings) (w0 : world)
        (trace : list (world * call)) :
  stats_consistent (init s w0)
  /\ stats_consistent (run (init s w0) trace)
  /\ (forall w tp, sync_round_effect w tp).
Proof.
  split; [apply init_stats | split].
  - apply run_preserves_stats, init_stats.
  - intros w tp. apply sync_round.
Qed.
End StepFacts.

End TimeProviderFacts.

(* ===================================================================== *)
(** * Properties of the blockchain verifier *)
(* ===================================================================== *)

Section BlockchainVerifierFacts.
Import Py BlockchainVerifier.

(** What one [_update_chain] reports. *)
Lemma _update_chain_result (w : world) (name : string) (bv : t) :
  fst (_update_chain w name bv) = refreshed w name || lock_busy w name.
Proof.
  unfold _update_chain, refreshed, lock_busy.
  destruct (update_lock_free w name); simpl; [|reflexivity].
  destruct (fetch w name); reflexivity.
Qed.

(** What one [_update_chain] leaves in the cache. *)
Lemma _update_chain_cache (w : world) (name : string) (bv : t) :
  cached_blocks (snd (_update_chain w name bv)) =
  if refreshed w name
  then match fetch w name with
       | Some b => dict_set name b (cached_blocks bv)
       | None => cached_blocks bv
       end
  else cached_blocks bv.
Proof.
  unfold _update_chain, refreshed.
  destruct (update_lock_free w name); simpl; [|reflexivity].
  destruct (fetch w name); reflexivity.
Qed.

Lemma _update_chain_settings (w : world) (name : string) (bv : t) :
  settings (snd (_update_chain w name bv)) = settings bv.
Proof.
  unfold _update_chain.
  destruct (update_lock_free w name); simpl; [|reflexivity].
  destruct (fetch w name); reflexivity.
Qed.

Lemma update_chains_count (w : world) (names : list string) :
  forall n bv,
    (0 <= n)%Z ->
    (0 <= fst (update_chains w names n bv))%Z
    /\ Z.ltb 0 (fst (update_chains w names n bv)) =
       Z.ltb 0 n || existsb (fun c => refreshed w c || lock_busy w c) names.
Proof.
  induction names as [|c r IH]; intros n bv Hn; simpl.
  - split; [exact Hn | now rewrite orb_false_r].
  - pose proof (_update_chain_result w c bv) as Hres.
    destruct (_update_chain w c bv) as [ok bv']. simpl in Hres. subst ok.
    destruct (refreshed w c || lock_busy w c); simpl.
    + destruct (IH (n + 1)%Z bv' ltac:(lia)) as [H0 H1].
      split; [exact H0|]. rewrite H1.
      replace (Z.ltb 0 (n + 1)) with true by (symmetry; apply Z.ltb_lt; lia).
      now rewrite orb_true_r.
    + apply IH. exact Hn.
Qed.

(** A block stored for [c] stays in place while the other chains of the
    loop are updated, and a later update of [c] in the same surroundings
    stores the same block again. *)
Lemma update_chains_keeps (w : world) (names : list string) (c : string)
      (b : BlockchainInfo) :
  fetch w c = Some b ->
  forall n bv,
    dict_get c (cached_blocks bv) = Some b ->
    dict_get c (cached_blocks (snd (update_chains w names n bv))) = Some b.
Proof.
  intros Hf. induction names as [|c' r IH]; intros n bv Hget; simpl; [exact Hget|].
  pose proof (_update_chain_cache w c' bv) as Hc.
  destruct (_update_chain w c' bv) as [ok bv']. simpl in Hc.
  apply IH. rewrite Hc.
  destruct (refreshed w c'); [|exact Hget].
  destruct (fetch w c') as [b'|] eqn:Hf'; [|exact Hget].
  destruct (String.eqb_spec c c') as [->|Hne].
  - rewrite dict_get_set_same. congruence.
  - now rewrite dict_get_set_other.
Qed.

Lemma update_chains_stores (w : world) (names : list string) (c : string) :
  In c names -> refreshed w c = true ->
  forall n bv,
    dict_get c (cached_blocks (snd (update_chains w names n bv))) = fetch w c.
Proof.
  intros Hin Href.
  assert (Hsome : exists b, fetch w c = Some b).
  { unfold refreshed in Href. apply andb_true_iff in Href as [_ Hf].
    destruct (fetch w c) as [b|]; [now exists b | discriminate]. }
  destruct Hsome as [b Hb]. rewrite Hb.
  induction names as [|c' r IH]; intros n bv; [contradiction|]. simpl.
  pose proof (_update_chain_cache w c' bv) as Hc.
  destruct (_update_chain w c' bv) as [ok bv'] eqn:Hupd. simpl in Hc.
  destruct (String.eqb_spec c' c) as [->|Hne].
  - apply update_chains_keeps; [exact Hb|].
    rewrite Hc, Href, Hb. apply dict_get_set_same.
  - destruct Hin as [Heq|Hin]; [congruence|]. now apply IH.
Qed.

(** C5, as the code has it. [force_update] returns true exactly when, for
    at least one chain it was asked to refresh, either the refresh
    completed (the lock was taken and a block was fetched) or the update
    lock was held by another thread, in which case nothing is fetched and
    success is reported. Every refresh that completed has stored the block
    it fetched. *)
Theorem force_update_reports_refresh_or_busy_lock
        (w : world) (name : option string) (bv : t) :
  fst (force_update w name bv) =
    existsb (fun c => refreshed w c || lock_busy w c) (requested name bv)
  /\ (forall c, In c (requested name bv) -> refreshed w c = true ->
        dict_get c (cached_blocks (snd (force_update w name bv))) = fetch w c).
Proof.
  assert (Hall :
    fst (_update_all_chains w bv) =
      existsb (fun c => refreshed w c || lock_busy w c) (enabled_chains (settings bv))
    /\ (forall c, In c (enabled_chains (settings bv)) -> refreshed w c = true ->
          dict_get c (cached_blocks (snd (_update_all_chains w bv))) = fetch w c)).
  { unfold _update_all_chains.
    pose proof (update_chains_count w (enabled_chains (settings bv)) 0 bv
                  ltac:(lia)) as [_ Hcnt].
    pose proof (fun c Hin Href =>
                  update_chains_stores w (enabled_chains (settings bv)) c
                    Hin Href 0%Z bv) as Hst.
    destruct (update_chains w (enabled_chains (settings bv)) 0 bv) as [cnt bv'].
    simpl in *. split; [exact Hcnt | exact Hst]. }
  unfold force_update, requested.
  destruct name as [c0|]; [|exact Hall].
  destruct (String.eqb c0 ""); [exact Hall|].
  split.
  - rewrite _update_chain_result. simpl. now rewrite orb_false_r.
  - intros c [<-|[]] Href.
    rewrite _update_chain_cache, Href.
    unfold refreshed in Href. apply andb_true_iff in Href as [_ Hf].
    destruct (fetch w c0) as [b|]; [apply dict_get_set_same | discriminate].
Qed.

Lemma force_update_reports_refresh_or_busy_lock_witness :
  let w := BlockchainVerifier.Build_world 0 (fun _ => true) (fun _ => None)
             (fun _ _ => None)
             (fun url => if String.eqb url "https://api.blockcypher.com/v1/eth/main"
                         then Some (19000000%Z, "0xabc") else None) in
  let bv := init default_settings in
  fst (force_update w None bv) = true
  /\ option_map block_hash
       (dict_get "ethereum" (cached_blocks (snd (force_update w None bv))))
     = Some "0xabc".
Proof.
  intros w bv.
  destruct (force_update_reports_refresh_or_busy_lock w None bv) as [Hres Hst].
  split.
  - rewrite Hres. reflexivity.
  - rewrite (Hst "ethereum").
    + reflexivity.
    + simpl. right. left. reflexivity.
    + reflexivity.
Defined.

(** C5 as stated fails: with the update lock held by another thread,
    [force_update("bitcoin")] returns true although no refresh completed
    and the cache is as it was. *)
Lemma force_update_true_without_refresh :
  let bv := init default_settings in
  let r := force_update (lock_held 0) (Some "bitcoin") bv in
  fst r = true
  /\ existsb (refreshed (lock_held 0)) (requested (Some "bitcoin") bv) = false
  /\ cached_blocks (snd r) = cached_blocks bv
  /\ successful_requests (snd r) = successful_requests bv.
Proof. repeat split. Qed.

Lemma all_endpoints_fail_fetch (w : world) (name : string) :
  all_endpoints_fail w name = true -> fetch w name = None.
Proof.
  unfold all_endpoints_fail, attempts_of, fetch, chain_handlers. simpl.
  destruct (String.eqb name "bitcoin").
  - unfold _get_bitcoin_info. generalize (bitcoin_attempts w).
    intros l. induction l as [|[b|] r IH]; simpl; intros Hl;
      [reflexivity | discriminate | now apply IH].
  - destruct (String.eqb name "ethereum").
    + unfold _get_ethereum_info. generalize (ethereum_attempts w).
      intros l. induction l as [|[b|] r IH]; simpl; intros Hl;
        [reflexivity | discriminate | now apply IH].
    + destruct (String.eqb name "litecoin"); [|reflexivity].
      unfold _get_litecoin_info. generalize (litecoin_attempts w).
      intros l. induction l as [|[b|] r IH]; simpl; intros Hl;
        [reflexivity | discriminate | now apply IH].
Qed.

(** A refresh attempt that fetches nothing leaves cache and update times
    as they were, whether or not it got the lock. *)
Lemma failed_update_frame (w : world) (name : string) (bv : t) :
  fetch w name = None ->
  cached_blocks (snd (_update_chain w name bv)) = cached_blocks bv
  /\ last_update (snd (_update_chain w name bv)) = last_update bv.
Proof.
  intros Hf. unfold _update_chain.
  destruct (update_lock_free w name); simpl; [|split; reflexivity].
  rewrite Hf. split; reflexivity.
Qed.

(** Updates running in the background leave the record of a chain alone
    as long as none of them can refresh that chain. *)
Lemma background_frame (name : string) (steps : list (world * string)) :
  forall bv,
    cannot_refresh name steps = true ->
    dict_get name (cached_blocks (background bv steps))
    = dict_get name (cached_blocks bv).
Proof.
  unfold background, cannot_refresh.
  induction steps as [|[w c] r IH]; intros bv Hq; [reflexivity|].
  cbn [forallb fst snd] in Hq. apply andb_true_iff in Hq as [Hstep Hr].
  cbn [fold_left fst snd]. rewrite (IH _ Hr), _update_chain_cache.
  destruct (refreshed w c); [|reflexivity].
  destruct (fetch w c) as [b|] eqn:Hf; [|reflexivity].
  destruct (String.eqb_spec c name) as [->|Hne].
  - simpl in Hstep. apply all_endpoints_fail_fetch in Hstep. congruence.
  - apply dict_get_set_other. congruence.
Qed.

(** C6, as the code has it. When every endpoint of a chain fails, the
    chain's cached record is left untouched, whether the update took the
    lock or found it held. [force_update(chain)] then returns false when
    it took the lock (the attempt was made and failed) and true when the
    lock was held by another thread (no attempt is made and success is
    reported). So two consecutive calls that both take the lock return
    false both times, and [get_blockchain_info] afterwards returns what
    the cache held before: nothing ("not available") when there was no
    prior record. This stays so while updates running in the background
    cannot refresh the chain either. *)
Theorem failed_refresh_keeps_record
        (w1 w2 w3 : world) (name : string) (bv : t) :
  name <> "" ->
  all_endpoints_fail w1 name = true ->
  all_endpoints_fail w2 name = true ->
  let r1 := force_update w1 (Some name) bv in
  let r2 := force_update w2 (Some name) (snd r1) in
  fst r1 = lock_busy w1 name /\ fst r2 = lock_busy w2 name
  /\ (update_lock_free w1 name = true -> update_lock_free w2 name = true ->
      fst r1 = false /\ fst r2 = false)
  /\ cached_blocks (snd r1) = cached_blocks bv
  /\ cached_blocks (snd r2) = cached_blocks bv
  /\ fst (get_blockchain_info w3 name (snd r2)) = dict_get name (cached_blocks bv)
  /\ (dict_get name (cached_blocks bv) = None ->
      fst (get_blockchain_info w3 name (snd r2)) = None)
  /\ (forall steps,
        cannot_refresh name steps = true ->
        fst (get_blockchain_info w3 name (background (snd r2) steps))
        = dict_get name (cached_blocks bv)).
Proof.
  intros Hne Hf1 Hf2 r1 r2.
  apply all_endpoints_fail_fetch in Hf1, Hf2.
  apply String.eqb_neq in Hne.
  assert (Hr1 : r1 = _update_chain w1 name bv)
    by (unfold r1, force_update; now rewrite Hne).
  assert (Hr2 : r2 = _update_chain w2 name (snd r1))
    by (unfold r2, force_update; now rewrite Hne).
  assert (Hc1 : cached_blocks (snd r1) = cached_blocks bv)
    by (rewrite Hr1; now apply failed_update_frame).
  assert (Hc2 : cached_blocks (snd r2) = cached_blocks bv)
    by (rewrite Hr2, <- Hc1; now apply failed_update_frame).
  assert (Hres : forall w st, fetch w name = None ->
                              fst (_update_chain w name st) = lock_busy w name).
  { intros w st Hf. rewrite _update_chain_result. unfold refreshed.
    now rewrite Hf, andb_false_r. }
  assert (H1 : fst r1 = lock_busy w1 name) by (rewrite Hr1; now apply Hres).
  assert (H2 : fst r2 = lock_busy w2 name) by (rewrite Hr2; now apply Hres).
  split; [exact H1 | split; [exact H2 | split]].
  - intros Hl1 Hl2. rewrite H1, H2. unfold lock_busy. now rewrite Hl1, Hl2.
  - split; [exact Hc1 | split; [exact Hc2 | split; [| split]]].
    + unfold get_blockchain_info. simpl. now rewrite Hc2.
    + intros Hnone. unfold get_blockchain_info. simpl. now rewrite Hc2.
    + intros steps Hsteps. unfold get_blockchain_info. cbn [fst].
      now rewrite (background_frame name steps _ Hsteps), Hc2.
Qed.

Lemma failed_refresh_keeps_record_witness :
  let bv := init default_settings in
  let r1 := force_update (unreachable 1) (Some "bitcoin") bv in
  let r2 := force_update (unreachable 2) (Some "bitcoin") (snd r1) in
  fst r1 = false /\ fst r2 = false
  /\ fst (get_blockchain_info (unreachable 3) "bitcoin" (snd r2)) = None.
Proof.
  intros bv r1 r2.
  destruct (failed_refresh_keeps_record (unreachable 1) (unreachable 2)
              (unreachable 3) "bitcoin" bv)
    as (_ & _ & Hfalse & _ & _ & _ & Hnone & _);
    [discriminate | reflexivity | reflexivity |].
  destruct (Hfalse eq_refl eq_refl) as [H1 H2].
  split; [exact H1 | split; [exact H2 | apply Hnone; reflexivity]].
Defined.

(** C6 as stated fails: for a chain with no prior record and every
    endpoint unreachable, two consecutive [force_update("bitcoin")] calls
    that find the update lock held return true both times. The cache is
    as it was and no request was counted. *)
Lemma force_update_true_twice_under_held_lock :
  let bv := init default_settings in
  let r1 := force_update (lock_held 1) (Some "bitcoin") bv in
  let r2 := force_update (lock_held 2) (Some "bitcoin") (snd r1) in
  all_endpoints_fail (lock_held 1) "bitcoin" = true
  /\ all_endpoints_fail (lock_held 2) "bitcoin" = true
  /\ dict_get "bitcoin" (cached_blocks bv) = None
  /\ fst r1 = true /\ fst r2 = true
  /\ fst (get_blockchain_info (lock_held 3) "bitcoin" (snd r2)) = None
  /\ total_requests (snd r2) = total_requests bv.
Proof. repeat split. Qed.

End BlockchainVerifierFacts.

(* ===================================================================== *)
(** * Properties of the identity manager *)
(* ===================================================================== *)

Section IdentityManagerFacts.
Import Py IdentityManager.
Context `{Externals}.
Local Open Scope string_scope.

(** The digest is a function of the stored identity and the settings. *)
Lemma _generate_identity_hash_ext (im im' : t) :
  identity_info im = identity_info im' -> settings im = settings im' ->
  _generate_identity_hash im = _generate_identity_hash im'.
Proof.
  intros Hinfo Hset. unfold _generate_identity_hash. now rewrite Hinfo, Hset.
Qed.

Lemma get_identity_hash_uncached (w : world) (im : t) :
  nonempty (cached_hash im) = None ->
  fst (get_identity_hash w im) = _generate_identity_hash im
  /\ identity_info (snd (get_identity_hash w im)) = identity_info im
  /\ settings (snd (get_identity_hash w im)) = settings im
  /\ cached_hash (snd (get_identity_hash w im)) = Some (_generate_identity_hash im).
Proof.
  intros Hc. unfold get_identity_hash. rewrite Hc. simpl. repeat split.
Qed.

(** Once a digest has been computed, the next call returns it again,
    whatever the clock and the file system have become. *)
Lemma get_identity_hash_repeats (w1 w2 : world) (im : t) :
  nonempty (cached_hash im) = None ->
  fst (get_identity_hash w2 (snd (get_identity_hash w1 im)))
  = fst (get_identity_hash w1 im).
Proof.
  intros Hc.
  destruct (get_identity_hash_uncached w1 im Hc) as (Hd & Hinfo & Hset & Hcache).
  rewrite Hd.
  set (im1 := snd (get_identity_hash w1 im)) in *.
  assert (Hgen : _generate_identity_hash im1 = _generate_identity_hash im)
    by (apply _generate_identity_hash_ext; assumption).
  unfold get_identity_hash. rewrite Hcache.
  destruct (_generate_identity_hash im) as [|c r] eqn:Hg; simpl.
  - exact Hgen.
  - destruct (negb (Qle_bool 60 _) && negb (_identity_changed w2 im1));
      simpl; [reflexivity | exact Hgen].
Qed.

Lemma import_identity_cache (w : world) (im : t) (f : string) :
  cached_hash im = None -> cached_hash (snd (import_identity w im f)) = None.
Proof.
  intros Hc. unfold import_identity.
  destruct (negb (exists_ w f)); [exact Hc|].
  destruct (load_identity w f); [reflexivity | exact Hc].
Qed.

Lemma _create_new_identity_spec (w : world) (im : t) :
  cached_hash (_create_new_identity w im) = cached_hash im
  /\ identity_info (_create_new_identity w im) <> None.
Proof.
  unfold _create_new_identity.
  destruct (include_system_info (settings im)); simpl; split;
    first [reflexivity | discriminate].
Qed.

Lemma _initialize_identity_cache (w : world) (im : t) :
  cached_hash im = None -> cached_hash (_initialize_identity w im) = None.
Proof.
  intros Hc. unfold _initialize_identity.
  assert (Hcreate : forall st, cached_hash st = None ->
    cached_hash (if auto_generate (settings st) then _create_new_identity w st
                 else set_identity_info st None) = None).
  { intros st Hst. destruct (auto_generate (settings st)); [|exact Hst].
    now rewrite (proj1 (_create_new_identity_spec w st)). }
  destruct (nonempty (identity_file (settings im))) as [f|]; [|now apply Hcreate].
  destruct (exists_ w f); [|now apply Hcreate].
  pose proof (import_identity_cache w im f Hc) as Himp.
  destruct (import_identity w im f) as [ok im1]. simpl in Himp.
  destruct ok; [exact Himp | now apply Hcreate].
Qed.

Lemma import_identity_settings (w : world) (im : t) (f : string) :
  settings (snd (import_identity w im f)) = settings im.
Proof.
  unfold import_identity.
  destruct (negb (exists_ w f)); [reflexivity|].
  destruct (load_identity w f); reflexivity.
Qed.

Lemma import_identity_ok (w : world) (im : t) (f : string) :
  fst (import_identity w im f) = true ->
  identity_info (snd (import_identity w im f)) <> None.
Proof.
  unfold import_identity.
  destruct (negb (exists_ w f)); [discriminate|].
  destruct (load_identity w f); [discriminate | discriminate].
Qed.

Lemma _initialize_identity_auto (w : world) (im : t) :
  auto_generate (settings im) = true ->
  identity_info (_initialize_identity w im) <> None.
Proof.
  intros Hauto. unfold _initialize_identity.
  destruct (nonempty (identity_file (settings im))) as [f|].
  - destruct (exists_ w f).
    + pose proof (import_identity_ok w im f) as Hok.
      pose proof (import_identity_settings w im f) as Hset.
      destruct (import_identity w im f) as [ok im1]. simpl in *.
      destruct ok; [now apply Hok|].
      rewrite Hset, Hauto. apply _create_new_identity_spec.
    + rewrite Hauto. apply _create_new_identity_spec.
  - rewrite Hauto. apply _create_new_identity_spec.
Qed.

Lemma add_file_to_identity_cache (w : world) (im : t) (path : string)
      (alias : option string) :
  cached_hash im = None ->
  cached_hash (snd (add_file_to_identity w im path alias)) = None.
Proof.
  intros Hc. unfold add_file_to_identity.
  destruct (negb (exists_ w path)); [exact Hc|].
  destruct (identity_info im) as [info|] eqn:Hinfo.
  - rewrite Hinfo. reflexivity.
  - destruct (identity_info (_initialize_identity w im)); [reflexivity|].
    now apply _initialize_identity_cache.
Qed.

Lemma add_file_to_identity_present (w : world) (im : t) (path : string)
      (alias : option string) :
  exists_ w path = true -> identity_info im <> None ->
  fst (add_file_to_identity w im path alias) = true
  /\ exists info,
       identity_info (snd (add_file_to_identity w im path alias)) = Some info
       /\ dict_get (match nonempty alias with
                    | Some a => a
                    | None => basename path
                    end) (file_hashes info)
          = Some (_calculate_file_hash w im path).
Proof.
  intros Hex Hinfo. unfold add_file_to_identity. rewrite Hex. simpl.
  destruct (identity_info im) as [info|] eqn:Hi; [|congruence].
  rewrite Hi. split; [reflexivity|].
  eexists. split; [reflexivity|]. simpl. apply dict_get_set_same.
Qed.

Lemma init_auto (file : option string) (alg : string) (sys fh : bool)
      (w0 : world) :
  identity_info (init (auto_settings file alg sys fh) w0) <> None
  /\ cached_hash (init (auto_settings file alg sys fh) w0) = None.
Proof.
  unfold init. split.
  - apply _initialize_identity_auto. reflexivity.
  - apply _initialize_identity_cache. reflexivity.
Qed.

Lemma with_file_state (w : world) (path : string) (f : file_state) :
  path_state (with_file w path f) path = f.
Proof. unfold with_file. simpl. now rewrite String.eqb_refl. Qed.

(** Reading a file in chunks feeds the hash object the whole content. *)
Lemma read_append (n : nat) (s : string) :
  fst (read n s) ++ snd (read n s) = s.
Proof.
  revert s. induction n as [|n IH]; intros s; [reflexivity|].
  destruct s as [|c r]; [reflexivity|]. simpl.
  specialize (IH r). destruct (read n r) as [a b]. simpl in *. now rewrite IH.
Qed.

Lemma read_rest_shorter (n : nat) (c : ascii) (r : string) :
  (String.length (snd (read (S n) (String c r))) <= String.length r)%nat.
Proof.
  simpl. pose proof (read_append n r) as Happ.
  destruct (read n r) as [a b]. simpl in *.
  rewrite <- Happ. clear Happ.
  induction a as [|x a IH]; simpl; lia.
Qed.

Lemma read_chunks_feed (fuel : nat) :
  forall (s : string) (h : hash_obj),
    (String.length s < fuel)%nat ->
    fed (fold_left update (read_chunks fuel s) h) = fed h ++ s
    /\ digest_of (fold_left update (read_chunks fuel s) h) = digest_of h.
Proof.
  assert (Hsize : exists n, chunk_size = S n) by (eexists; reflexivity).
  destruct Hsize as [n Hn].
  induction fuel as [|fuel IH]; intros s h Hlen; [lia|].
  cbn [read_chunks]. rewrite Hn.
  destruct s as [|c r].
  - simpl. split; [|reflexivity].
    clear. induction (fed h) as [|x a IHa]; simpl; [reflexivity | now rewrite <- IHa].
  - pose proof (read_append (S n) (String c r)) as Happ.
    pose proof (read_rest_shorter n c r) as Hshort.
    destruct (read (S n) (String c r)) as [a b] eqn:Hread.
    simpl in Hread. destruct (read n r) as [a' b'].
    injection Hread as <- <-. cbn [fst snd] in *.
    cbn [fold_left].
    destruct (IH b' (update h (String c a'))) as [Hfed Hdig];
      [simpl in Hlen; lia|].
    rewrite Hfed, Hdig. split; [|reflexivity].
    unfold update. cbn [fed]. rewrite <- Happ.
    clear. induction (fed h) as [|x f IHf]; simpl; [reflexivity | now rewrite IHf].
Qed.

Lemma _calculate_file_hash_readable (w : world) (im : t) (path content : string)
      (digest : string -> string) :
  hashlib_new (hash_algorithm (settings im)) = Some digest ->
  path_state w path = Readable content ->
  _calculate_file_hash w im path = digest content.
Proof.
  intros Hnew Hstate. unfold _calculate_file_hash, hexdigest.
  rewrite Hnew, Hstate.
  destruct (read_chunks_feed (S (String.length content)) content
              {| digest_of := digest; fed := "" |} ltac:(lia)) as [Hfed Hdig].
  now rewrite Hfed, Hdig.
Qed.

(** C7, where the code departs from it. A file is added to the identity
    and a digest is computed; then the content of the file changes from
    [c1] to [c2]. The next [get_identity_hash] returns the same digest as
    before, at any time and for any contents: the stored file hash is
    never refreshed, so a recomputation hashes the same text. The same
    holds when the file is the one the settings name and nothing was
    added by hand. *)
Theorem digest_unchanged_after_file_change
        (file : option string) (alg : string) (sys fh : bool)
        (w0 w : world) (path : string) (alias : option string)
        (c1 c2 : string) (t1 t2 : Q) :
  let s := auto_settings file alg sys fh in
  let before := at_time (with_file w path (Readable c1)) t1 in
  let after := at_time (with_file w path (Readable c2)) t2 in
  let added := add_file_to_identity before (init s w0) path alias in
  let first := get_identity_hash before (snd added) in
  let second := get_identity_hash after (snd first) in
  let first' := get_identity_hash before (init s w0) in
  let second' := get_identity_hash after (snd first') in
  fst added = true
  /\ fst second = fst first
  /\ fst second' = fst first'.
Proof.
  intros s before after added first second first' second'.
  destruct (init_auto file alg sys fh w0) as [Hinfo Hcache].
  split; [| split].
  - apply add_file_to_identity_present; [|exact Hinfo].
    unfold exists_, before, at_time. cbn [path_state].
    now rewrite with_file_state.
  - apply get_identity_hash_repeats.
    unfold added. now rewrite add_file_to_identity_cache.
  - apply get_identity_hash_repeats. unfold s. now rewrite Hcache.
Qed.

(** C8, where the code departs from it. For a path that exists but cannot
    be read, [_calculate_file_hash] turns the error into a string starting
    with ["error:"]; [add_file_to_identity] stores that string as the
    hash of the file and returns true. (For a path that does not exist it
    returns false and changes nothing.) *)
Theorem add_file_unreadable_returns_true
        (file : option string) (alg : string) (sys fh : bool)
        (w0 w : world) (path : string) (alias : option string) (msg : string) :
  let s := auto_settings file alg sys fh in
  let there := with_file w path (Unreadable msg) in
  let added := add_file_to_identity there (init s w0) path alias in
  let key := match nonempty alias with
             | Some a => a
             | None => basename path
             end in
  fst added = true
  /\ (exists info e,
        identity_info (snd added) = Some info
        /\ dict_get key (file_hashes info) = Some ("error:" ++ e))
  /\ add_file_to_identity (with_file w path Missing) (init s w0) path alias
     = (false, init s w0).
Proof.
  intros s there added key.
  destruct (init_auto file alg sys fh w0) as [Hinfo _].
  destruct (add_file_to_identity_present there (init s w0) path alias)
    as [Hres (info & Hi & Hget)]; [| exact Hinfo |].
  - unfold exists_, there. now rewrite with_file_state.
  - split; [exact Hres | split].
    + exists info.
      unfold _calculate_file_hash in Hget.
      destruct (hashlib_new _).
      * unfold there in Hget. rewrite with_file_state in Hget.
        exists msg. split; [exact Hi | exact Hget].
      * eexists. split; [exact Hi | exact Hget].
    + unfold add_file_to_identity, exists_. now rewrite with_file_state.
Qed.

End IdentityManagerFacts.

(* ===================================================================== *)
(** * Properties of the JSON codec *)
(* ===================================================================== *)

Section JsonFacts.
Import Py Json.
Local Open Scope string_scope.

Lemma append_assoc (a b c : string) : (a ++ b) ++ c = a ++ (b ++ c).
Proof. induction a as [|x a IH]; simpl; [reflexivity | now rewrite IH]. Qed.

Lemma append_nil_r (a : string) : a ++ "" = a.
Proof. induction a as [|x a IH]; simpl; [reflexivity | now rewrite IH]. Qed.

Lemma length_append (a b : string) :
  String.length (a ++ b) = (String.length a + String.length b)%nat.
Proof. induction a as [|x a IH]; simpl; [reflexivity | now rewrite IH]. Qed.

(** ** Strings *)

(** The decoder reads back what the encoder writes for one character. *)
Lemma scan_string_escape_char (c : ascii) (rest : string) :
  scan_string (escape_char c ++ rest)
  = match scan_string rest with
    | Some (str, r) => Some (String c str, r)
    | None => None
    end.
Proof.
  destruct c as [b0 b1 b2 b3 b4 b5 b6 b7].
  destruct b0, b1, b2, b3, b4, b5, b6, b7; reflexivity.
Qed.

Lemma scan_string_escape (s rest : string) :
  scan_string (escape s ++ String dq rest) = Some (s, rest).
Proof.
  induction s as [|c s IH]; [reflexivity|].
  cbn [escape]. rewrite append_assoc, scan_string_escape_char, IH. reflexivity.
Qed.

Lemma scan_string_encode_str (s rest : string) :
  scan_string (escape s ++ String dq "" ++ rest) = Some (s, rest).
Proof. apply scan_string_escape. Qed.

(** ** Numbers *)

Lemma neutral_cases (rest : string) :
  neutral rest = true ->
  rest = "" \/
  exists c r, rest = String c r /\ is_digit c = false /\ Ascii.eqb c "." = false
              /\ Ascii.eqb c "e" = false /\ Ascii.eqb c "E" = false
              /\ Ascii.eqb c "+" = false /\ Ascii.eqb c "-" = false.
Proof.
  destruct rest as [|c r]; [now left|]. intros Hn. right. exists c, r.
  unfold neutral in Hn. apply negb_true_iff in Hn.
  repeat (apply orb_false_iff in Hn as [Hn ?]).
  repeat split; assumption.
Qed.

Lemma span_digits_local (a rest : string) :
  neutral rest = true ->
  span_digits (a ++ rest)
  = (fst (span_digits a), snd (span_digits a) ++ rest).
Proof.
  intros Hn. induction a as [|c a IH]; simpl.
  - destruct (neutral_cases rest Hn) as [->|(c & r & -> & Hd & _)];
      [reflexivity|]. simpl. now rewrite Hd.
  - destruct (is_digit c); [|reflexivity].
    rewrite IH. destruct (span_digits a). reflexivity.
Qed.

Lemma scan_int_part_local (a rest : string) :
  neutral rest = true ->
  scan_int_part (a ++ rest)
  = match scan_int_part a with
    | Some (ip, r) => Some (ip, r ++ rest)
    | None => None
    end.
Proof.
  intros Hn. destruct a as [|c a]; simpl.
  - destruct (neutral_cases rest Hn) as [->|(c & r & -> & Hd & _)];
      [reflexivity|]. simpl.
    destruct (Ascii.eqb_spec c "0") as [->|_]; [discriminate|].
    now rewrite Hd.
  - destruct (Ascii.eqb c "0"); [reflexivity|].
    destruct (is_digit c); [|reflexivity].
    rewrite (span_digits_local a rest Hn). destruct (span_digits a). reflexivity.
Qed.

Lemma scan_frac_local (a rest : string) :
  neutral rest = true ->
  scan_frac (a ++ rest) = (fst (scan_frac a), snd (scan_frac a) ++ rest).
Proof.
  intros Hn. destruct a as [|c a]; simpl.
  - destruct (neutral_cases rest Hn) as [->|(c & r & -> & _ & Hp & _)];
      [reflexivity|]. simpl. now rewrite Hp.
  - destruct (Ascii.eqb c "."); [|reflexivity].
    rewrite (span_digits_local a rest Hn).
    destruct (span_digits a) as [[|d ds] r]; reflexivity.
Qed.

Lemma scan_sign_local (a rest : string) :
  neutral rest = true ->
  scan_sign (a ++ rest) = (fst (scan_sign a), snd (scan_sign a) ++ rest).
Proof.
  intros Hn. destruct a as [|c a]; simpl.
  - destruct (neutral_cases rest Hn)
      as [->|(c & r & -> & _ & _ & _ & _ & Hplus & Hminus)];
      [reflexivity|]. simpl. now rewrite Hplus, Hminus.
  - destruct (Ascii.eqb c "+" || Ascii.eqb c "-"); reflexivity.
Qed.

Lemma scan_exp_local (a rest : string) :
  neutral rest = true ->
  scan_exp (a ++ rest) = (fst (scan_exp a), snd (scan_exp a) ++ rest).
Proof.
  intros Hn. destruct a as [|c a]; simpl.
  - destruct (neutral_cases rest Hn)
      as [->|(c & r & -> & _ & _ & He & HE & _)];
      [reflexivity|]. simpl. now rewrite He, HE.
  - destruct (Ascii.eqb c "e" || Ascii.eqb c "E"); [|reflexivity].
    rewrite (scan_sign_local a rest Hn).
    destruct (scan_sign a) as [sign r1]. cbn [fst snd].
    rewrite (span_digits_local r1 rest Hn).
    destruct (span_digits r1) as [[|d ds] r]; reflexivity.
Qed.

(** What the number scanner reads does not depend on what follows, as
    long as that cannot continue a number. *)
Lemma scan_number_local (a rest : string) :
  neutral rest = true ->
  scan_number (a ++ rest)
  = match scan_number a with
    | Some (v, r) => Some (v, r ++ rest)
    | None => None
    end.
Proof.
  intros Hn. unfold scan_number.
  assert (Hsign :
    match a ++ rest with
    | String c r => if Ascii.eqb c "-" then (true, r) else (false, a ++ rest)
    | EmptyString => (false, a ++ rest)
    end
    = (fst match a with
           | String c r => if Ascii.eqb c "-" then (true, r) else (false, a)
           | EmptyString => (false, a)
           end,
       snd match a with
           | String c r => if Ascii.eqb c "-" then (true, r) else (false, a)
           | EmptyString => (false, a)
           end ++ rest)).
  { destruct a as [|c a]; simpl.
    - destruct (neutral_cases rest Hn)
        as [->|(c & r & -> & _ & _ & _ & _ & _ & Hminus)]; [reflexivity|].
      now rewrite Hminus.
    - destruct (Ascii.eqb c "-"); reflexivity. }
  rewrite Hsign.
  destruct (match a with
            | String c r => if Ascii.eqb c "-" then (true, r) else (false, a)
            | EmptyString => (false, a)
            end) as [neg s1]. cbn [fst snd].
  rewrite (scan_int_part_local s1 rest Hn).
  destruct (scan_int_part s1) as [[ip s2]|]; [|reflexivity].
  rewrite (scan_frac_local s2 rest Hn).
  destruct (scan_frac s2) as [fr s3]. cbn [fst snd].
  rewrite (scan_exp_local s3 rest Hn).
  destruct (scan_exp s3) as [ex s4]. cbn [fst snd].
  destruct (is_empty fr && is_empty ex); [|reflexivity].
  destruct (NilEmpty.uint_of_string ip); reflexivity.
Qed.

Lemma span_digits_uint (u : Decimal.uint) :
  span_digits (NilEmpty.string_of_uint u) = (NilEmpty.string_of_uint u, "").
Proof.
  induction u as [|u IH|u IH|u IH|u IH|u IH|u IH|u IH|u IH|u IH|u IH];
    [reflexivity | ..];
    cbn [NilEmpty.string_of_uint span_digits];
    (replace (is_digit _) with true by reflexivity); now rewrite IH.
Qed.

Lemma nzhead_head (u : Decimal.uint) :
  match Decimal.nzhead u with
  | Decimal.D0 _ => False
  | _ => True
  end.
Proof. induction u; simpl; auto. Qed.

(** The decimal digits of a positive number start with a digit that is
    not 0. *)
Lemma to_uint_head (p : positive) :
  match Pos.to_uint p with
  | Decimal.Nil | Decimal.D0 _ => False
  | _ => True
  end.
Proof.
  assert (Hnorm : Decimal.unorm (Pos.to_uint p) = Pos.to_uint p).
  { rewrite <- (DecimalPos.Unsigned.to_of (Pos.to_uint p)).
    now rewrite DecimalPos.Unsigned.of_to. }
  pose proof (DecimalPos.Unsigned.to_uint_nonzero p) as Hnz.
  pose proof (DecimalPos.Unsigned.to_uint_nonnil p) as Hnn.
  destruct (Pos.to_uint p) as [|u| | | | | | | | |] eqn:Hu; auto.
  unfold Decimal.unorm in Hnorm. simpl in Hnorm.
  pose proof (nzhead_head u) as Hh.
  destruct (Decimal.nzhead u) eqn:Hz; try contradiction; try discriminate.
  injection Hnorm as <-. now apply Hnz.
Qed.

Lemma scan_number_uint (neg : bool) (p : positive) :
  scan_number ((if neg then "-" else "") ++ NilEmpty.string_of_uint (Pos.to_uint p))
  = Some (PInt (if neg then Z.neg p else Z.pos p), "").
Proof.
  assert (Hval : Pos.of_uint (Pos.to_uint p) = Npos p)
    by apply DecimalPos.Unsigned.of_to.
  pose proof (to_uint_head p) as Hhead.
  pose proof (span_digits_uint (Pos.to_uint p)) as Hspan.
  pose proof (NilEmpty.usu (Pos.to_uint p)) as Husu.
  assert (Hscan :
    scan_int_part (NilEmpty.string_of_uint (Pos.to_uint p))
    = Some (NilEmpty.string_of_uint (Pos.to_uint p), "")).
  { destruct (Pos.to_uint p) as [|u|u|u|u|u|u|u|u|u|u]; try contradiction;
      cbn [NilEmpty.string_of_uint scan_int_part] in *;
      (replace (Ascii.eqb _ "0") with false by reflexivity);
      (replace (is_digit _) with true by reflexivity);
      cbn [span_digits] in Hspan;
      (replace (is_digit _) with true in Hspan by reflexivity);
      destruct (span_digits (NilEmpty.string_of_uint u)) as [ds r];
      injection Hspan as -> ->; reflexivity. }
  unfold scan_number.
  destruct neg; cbn [append]; [replace (Ascii.eqb "-" "-") with true by reflexivity|].
  - rewrite Hscan. cbn. rewrite Husu. unfold Z.of_int, Z.of_uint. rewrite Hval.
    reflexivity.
  - assert (Hminus :
      match NilEmpty.string_of_uint (Pos.to_uint p) with
      | String c r =>
          if Ascii.eqb c "-" then (true, r)
          else (false, NilEmpty.string_of_uint (Pos.to_uint p))
      | EmptyString => (false, NilEmpty.string_of_uint (Pos.to_uint p))
      end = (false, NilEmpty.string_of_uint (Pos.to_uint p))).
    { destruct (Pos.to_uint p); try contradiction; reflexivity. }
    rewrite Hminus, Hscan. cbn. rewrite Husu. unfold Z.of_int, Z.of_uint.
    rewrite Hval. reflexivity.
Qed.

(** The decoder reads an encoded [int] back. *)
Lemma scan_number_encode_int (z : Z) :
  scan_number (encode_int z) = Some (PInt z, "").
Proof.
  unfold encode_int. destruct z as [|p|p].
  - reflexivity.
  - pose proof (to_uint_head p) as Hhead.
    pose proof (scan_number_uint false p) as Hs. simpl in Hs.
    unfold Z.to_int, NilZero.string_of_int, NilZero.string_of_uint.
    destruct (Pos.to_uint p); try contradiction; exact Hs.
  - pose proof (to_uint_head p) as Hhead.
    pose proof (scan_number_uint true p) as Hs. simpl in Hs.
    unfold Z.to_int, NilZero.string_of_int, NilZero.string_of_uint.
    destruct (Pos.to_uint p); try contradiction; exact Hs.
Qed.

(** ** Values *)

Lemma delimited_neutral (rest : string) :
  delimited rest = true -> neutral rest = true.
Proof.
  destruct rest as [|c r]; [reflexivity|]. unfold delimited, neutral.
  intros Hd.
  destruct (Ascii.eqb_spec c ",") as [->|_]; [reflexivity|].
  destruct (Ascii.eqb_spec c "]") as [->|_]; [reflexivity|].
  destruct (Ascii.eqb_spec c "}") as [->|_]; [reflexivity|].
  discriminate.
Qed.

Lemma delimited_skip_ws (rest : string) :
  delimited rest = true -> skip_ws rest = rest.
Proof.
  destruct rest as [|c r]; [reflexivity|]. unfold delimited. intros Hd.
  destruct (Ascii.eqb_spec c ",") as [->|_]; [reflexivity|].
  destruct (Ascii.eqb_spec c "]") as [->|_]; [reflexivity|].
  destruct (Ascii.eqb_spec c "}") as [->|_]; [reflexivity|].
  discriminate.
Qed.

Lemma starts_value_skip_ws (s rest : string) :
  starts_value s = true -> skip_ws (s ++ rest) = s ++ rest.
Proof.
  destruct s as [|c s]; [discriminate|]. unfold starts_value. intros Hs.
  apply andb_true_iff in Hs as [Hs _]. apply andb_true_iff in Hs as [Hs _].
  apply negb_true_iff in Hs. simpl. now rewrite Hs.
Qed.

Lemma starts_value_append (s rest : string) :
  starts_value s = true -> starts_value (s ++ rest) = true.
Proof. destruct s; [discriminate | trivial]. Qed.

(** A successful number scan starts at a digit or a minus sign. *)
Lemma scan_number_head (s : string) (res : pyval * string) :
  scan_number s = Some res ->
  exists c r, s = String c r /\ (is_digit c || Ascii.eqb c "-") = true.
Proof.
  unfold scan_number. destruct s as [|c r]; [discriminate|].
  intros Hs. exists c, r. split; [reflexivity|].
  destruct (Ascii.eqb c "-"); [apply orb_true_r|].
  rewrite orb_false_r.
  unfold scan_int_part in Hs.
  destruct (Ascii.eqb_spec c "0") as [->|_]; [reflexivity|].
  destruct (is_digit c); [reflexivity | discriminate].
Qed.

(** At a digit or a minus sign, [parse_value] is the number scanner. *)
Lemma parse_value_number (fuel : nat) (s : string) (res : pyval * string) :
  scan_number s = Some res -> parse_value (S fuel) s = Some res.
Proof.
  intros Hs. destruct (scan_number_head s res Hs) as (c & r & -> & Hc).
  destruct c as [b0 b1 b2 b3 b4 b5 b6 b7].
  destruct b0, b1, b2, b3, b4, b5, b6, b7; try discriminate Hc;
    cbn [parse_value Ascii.eqb Bool.eqb dq andb];
    unfold scan_atom; cbn [strip_prefix Ascii.eqb Bool.eqb andb];
    rewrite Hs; reflexivity.
Qed.

Lemma number_starts_value (s : string) (res : pyval * string) :
  scan_number s = Some res -> starts_value s = true.
Proof.
  intros Hs. destruct (scan_number_head s res Hs) as (c & r & -> & Hc).
  destruct c as [b0 b1 b2 b3 b4 b5 b6 b7].
  destruct b0, b1, b2, b3, b4, b5, b6, b7; try discriminate Hc; reflexivity.
Qed.

Lemma float_literal_scan (lit : string) :
  float_literal lit = true -> scan_number lit = Some (PFloat lit, "").
Proof.
  unfold float_literal.
  destruct (scan_number lit) as [[[| | |l| | |] [|c r]]|]; try discriminate.
  intros Heq. apply String.eqb_eq in Heq. now subst l.
Qed.

Lemma json_native_list (l : list pyval) :
  json_native (PList l) = forallb json_native l.
Proof. reflexivity. Qed.

Lemma json_native_dict (d : list (string * pyval)) :
  json_native (PDict d)
  = distinct (map fst d) && forallb (fun kv => json_native (snd kv)) d.
Proof. reflexivity. Qed.

Lemma dumps_compact_list (l : list pyval) :
  dumps_compact (PList l) = "[" ++ join "," (map dumps_compact l) ++ "]".
Proof. reflexivity. Qed.

Lemma dumps_compact_dict (d : list (string * pyval)) :
  dumps_compact (PDict d) = "{" ++ join "," (map member d) ++ "}".
Proof.
  unfold dumps_compact. cbn [dumps_with]. rewrite map_map. reflexivity.
Qed.

(** The compact encoding of a value starts a value. *)
Lemma dumps_starts_value (v : pyval) :
  json_native v = true -> starts_value (dumps_compact v) = true.
Proof.
  destruct v as [|[|]|z|lit|s|l|d]; intros Hn; try reflexivity.
  - apply (number_starts_value _ _ (scan_number_encode_int z)).
  - apply (number_starts_value _ _ (float_literal_scan lit Hn)).
Qed.

Lemma starts_value_length (s : string) :
  starts_value s = true -> (1 <= String.length s)%nat.
Proof. destruct s; [discriminate | simpl; lia]. Qed.

Lemma join_starts_value (x : pyval) (r : list pyval) :
  json_native x = true ->
  starts_value (join "," (map dumps_compact (x :: r))) = true.
Proof.
  intros Hx. pose proof (dumps_starts_value x Hx) as Hs.
  destruct r as [|y r]; cbn [map join]; [exact Hs|].
  now apply starts_value_append.
Qed.

Lemma parse_elements_reads_back (l : list pyval) :
  l <> [] ->
  Forall (fun v => json_native v = true /\ reads_back v) l ->
  forall fuel acc rest,
    (S (String.length (join "," (map dumps_compact l))) <= fuel)%nat ->
    parse_elements fuel (join "," (map dumps_compact l) ++ String "]" rest) acc
    = Some ((rev acc ++ l)%list, rest).
Proof.
  induction l as [|x r IH]; intros Hne Hall fuel acc rest Hfuel; [congruence|].
  inversion Hall as [|x' r' [Hnx Hrx] Hr]; subst.
  destruct fuel as [|fuel]; [lia|]. apply le_S_n in Hfuel.
  destruct r as [|y r].
  - cbn [map join] in *. cbn [parse_elements].
    rewrite (Hrx fuel (String "]" rest) Hfuel eq_refl).
    cbn. reflexivity.
  - assert (Hjoin : join "," (map dumps_compact (x :: y :: r))
                    = dumps_compact x ++ String "," (join "," (map dumps_compact (y :: r))))
      by reflexivity.
    rewrite Hjoin in *. rewrite length_append in Hfuel. cbn [String.length] in Hfuel.
    rewrite append_assoc. cbn [append]. cbn [parse_elements].
    rewrite (Hrx fuel) by first [lia | reflexivity].
    cbn [skip_ws is_ws Ascii.eqb Bool.eqb orb andb].
    inversion Hr as [|y' r'' [Hny _] _]; subst.
    rewrite (starts_value_skip_ws _ _ (join_starts_value y r Hny)).
    rewrite (IH ltac:(discriminate) Hr fuel (x :: acc) rest ltac:(lia)).
    cbn [rev]. now rewrite <- List.app_assoc.
Qed.

Lemma member_append (kv : string * pyval) (rest : string) :
  member kv ++ rest
  = String dq (escape (fst kv)
                 ++ String dq (String ":" (dumps_compact (snd kv) ++ rest))).
Proof.
  unfold member, encode_str. cbn [append].
  now rewrite !append_assoc.
Qed.

Lemma parse_members_reads_back (d : list (string * pyval)) :
  d <> [] ->
  Forall (fun kv => json_native (snd kv) = true /\ reads_back (snd kv)) d ->
  forall fuel acc rest,
    (S (String.length (join "," (map member d))) <= fuel)%nat ->
    parse_members fuel (join "," (map member d) ++ String "}" rest) acc
    = Some ((rev acc ++ d)%list, rest).
Proof.
  induction d as [|[k v] r IH]; intros Hne Hall fuel acc rest Hfuel; [congruence|].
  inversion Hall as [|kv r' [Hnv Hrv] Hr]; subst. cbn [snd] in *.
  destruct fuel as [|fuel]; [lia|]. apply le_S_n in Hfuel.
  assert (Hlen : (String.length (dumps_compact v)
                  <= String.length (member (k, v)))%nat).
  { unfold member. cbn [fst snd]. rewrite !length_append. lia. }
  destruct r as [|kv' r].
  - cbn [map join] in *. rewrite member_append. cbn [fst snd].
    cbn [parse_members]. rewrite Ascii.eqb_refl, scan_string_escape.
    cbn [skip_ws is_ws Ascii.eqb Bool.eqb orb andb].
    rewrite (starts_value_skip_ws _ _ (dumps_starts_value v Hnv)).
    rewrite (Hrv fuel (String "}" rest) ltac:(lia) eq_refl).
    cbn. reflexivity.
  - assert (Hjoin : join "," (map member ((k, v) :: kv' :: r))
                    = member (k, v) ++ String "," (join "," (map member (kv' :: r))))
      by reflexivity.
    rewrite Hjoin in *. rewrite length_append in Hfuel. cbn [String.length] in Hfuel.
    rewrite append_assoc, member_append. cbn [fst snd append].
    cbn [parse_members]. rewrite Ascii.eqb_refl, scan_string_escape.
    cbn [skip_ws is_ws Ascii.eqb Bool.eqb orb andb].
    rewrite (starts_value_skip_ws _ _ (dumps_starts_value v Hnv)).
    rewrite (Hrv fuel) by first [lia | reflexivity].
    cbn [skip_ws is_ws Ascii.eqb Bool.eqb orb andb].
    assert (Hnext : skip_ws (join "," (map member (kv' :: r)) ++ String "}" rest)
                    = join "," (map member (kv' :: r)) ++ String "}" rest).
    { apply starts_value_skip_ws.
      destruct r; cbn [map join]; unfold member, encode_str; reflexivity. }
    rewrite Hnext.
    rewrite (IH ltac:(discriminate) Hr fuel ((k, v) :: acc) rest ltac:(lia)).
    cbn [rev]. now rewrite <- List.app_assoc.
Qed.

(** ** Dictionaries built from distinct keys *)

Lemma str_in_false (k : string) (l : list string) :
  str_in k l = false <-> ~ In k l.
Proof.
  unfold str_in. split.
  - intros Hf Hin. assert (existsb (String.eqb k) l = true).
    { apply existsb_exists. exists k. split; [exact Hin | apply String.eqb_refl]. }
    congruence.
  - intros Hnin. destruct (existsb (String.eqb k) l) eqn:He; [|reflexivity].
    apply existsb_exists in He as (x & Hin & Heq).
    apply String.eqb_eq in Heq. subst x. contradiction.
Qed.

Lemma dict_set_fresh (k : string) (v : pyval) (acc : dict pyval) :
  ~ In k (map fst acc) -> dict_set k v acc = (acc ++ [(k, v)])%list.
Proof.
  induction acc as [|[k' v'] r IH]; intros Hnin; [reflexivity|].
  simpl in *. destruct (String.eqb_spec k k') as [->|Hne].
  - exfalso. apply Hnin. now left.
  - rewrite IH; [reflexivity|]. intros Hin. apply Hnin. now right.
Qed.

Lemma fold_dict_set_distinct (d : list (string * pyval)) :
  forall acc,
    distinct (map fst d) = true ->
    (forall k, In k (map fst d) -> ~ In k (map fst acc)) ->
    fold_left (fun a kv => dict_set (fst kv) (snd kv) a) d acc = (acc ++ d)%list.
Proof.
  induction d as [|[k v] r IH]; intros acc Hd Hfresh.
  - simpl. now rewrite List.app_nil_r.
  - cbn [map fst distinct] in Hd. apply andb_true_iff in Hd as [Hk Hr].
    apply negb_true_iff in Hk. apply str_in_false in Hk.
    cbn [fold_left fst snd].
    rewrite dict_set_fresh by (apply Hfresh; now left).
    rewrite IH; [now rewrite <- List.app_assoc | exact Hr |].
    intros k' Hin Hin'. rewrite List.map_app in Hin'. apply in_app_or in Hin'.
    destruct Hin' as [Hin'|[<-|[]]].
    + apply (Hfresh k'); [now right | exact Hin'].
    + contradiction.
Qed.

Lemma dict_of_pairs_distinct (d : list (string * pyval)) :
  distinct (map fst d) = true -> dict_of_pairs d = d.
Proof.
  intros Hd. unfold dict_of_pairs.
  now rewrite fold_dict_set_distinct by (auto; intros k _ []).
Qed.

(** ** The round trip *)

Lemma forallb_Forall_native (l : list pyval) :
  forallb json_native l = true ->
  Forall (fun v => json_native v = true -> reads_back v) l ->
  Forall (fun v => json_native v = true /\ reads_back v) l.
Proof.
  induction l as [|x r IH]; intros Hn Hall; [constructor|].
  cbn [forallb] in Hn. apply andb_true_iff in Hn as [Hx Hr].
  inversion Hall; subst. constructor; [split; auto | auto].
Qed.

Lemma forallb_Forall_native_items (d : list (string * pyval)) :
  forallb (fun kv => json_native (snd kv)) d = true ->
  Forall (fun kv => json_native (snd kv) = true -> reads_back (snd kv)) d ->
  Forall (fun kv => json_native (snd kv) = true /\ reads_back (snd kv)) d.
Proof.
  induction d as [|x r IH]; intros Hn Hall; [constructor|].
  cbn [forallb] in Hn. apply andb_true_iff in Hn as [Hx Hr].
  inversion Hall; subst. constructor; [split; auto | auto].
Qed.

Lemma parse_value_reads_back (v : pyval) :
  json_native v = true -> reads_back v.
Proof.
  induction v as [|b|z|lit|s|l IH|d IH] using pyval_ind';
    intros Hn fuel rest Hfuel Hrest.
  - destruct fuel; [simpl in Hfuel; lia | reflexivity].
  - destruct fuel; [destruct b; simpl in Hfuel; lia | destruct b; reflexivity].
  - pose proof (scan_number_encode_int z) as Hs.
    pose proof (starts_value_length _ (number_starts_value _ _ Hs)) as Hlen.
    destruct fuel; [unfold dumps_compact in Hfuel; cbn [dumps_with] in Hfuel; lia|].
    apply parse_value_number. change (dumps_compact (PInt z)) with (encode_int z).
    rewrite (scan_number_local _ _ (delimited_neutral rest Hrest)), Hs.
    reflexivity.
  - pose proof (float_literal_scan lit Hn) as Hs.
    pose proof (starts_value_length _ (number_starts_value _ _ Hs)) as Hlen.
    destruct fuel; [unfold dumps_compact in Hfuel; cbn [dumps_with] in Hfuel; lia|].
    apply parse_value_number. change (dumps_compact (PFloat lit)) with lit.
    rewrite (scan_number_local _ _ (delimited_neutral rest Hrest)), Hs.
    reflexivity.
  - destruct fuel; [simpl in Hfuel; lia|].
    change (dumps_compact (PStr s)) with (String dq (escape s ++ String dq "")).
    cbn [append parse_value]. rewrite Ascii.eqb_refl.
    rewrite append_assoc. cbn [append]. now rewrite scan_string_escape.
  - rewrite json_native_list in Hn.
    pose proof (forallb_Forall_native l Hn IH) as Hall.
    rewrite dumps_compact_list in *.
    cbn [append] in *. cbn [String.length] in Hfuel.
    destruct fuel as [|fuel]; [lia|]. apply le_S_n in Hfuel.
    rewrite length_append in Hfuel. cbn [String.length] in Hfuel.
    rewrite append_assoc. cbn [append parse_value Ascii.eqb Bool.eqb dq andb].
    destruct l as [|x r].
    + reflexivity.
    + inversion Hall as [|x' r' [Hnx _] _]; subst.
      pose proof (join_starts_value x r Hnx) as Hstart.
      rewrite (starts_value_skip_ws _ _ Hstart).
      pose proof (parse_elements_reads_back (x :: r) ltac:(discriminate)
                    Hall fuel [] rest ltac:(lia)) as Hpe.
      destruct (join "," (map dumps_compact (x :: r))) as [|c j] eqn:Hj;
        [discriminate|].
      cbn [append] in *. unfold starts_value in Hstart.
      apply andb_true_iff in Hstart as [Hstart _].
      apply andb_true_iff in Hstart as [_ Hclose].
      apply negb_true_iff in Hclose. rewrite Hclose, Hpe. reflexivity.
  - rewrite json_native_dict in Hn. apply andb_true_iff in Hn as [Hkeys Hn].
    pose proof (forallb_Forall_native_items d Hn IH) as Hall.
    rewrite dumps_compact_dict in *.
    cbn [append] in *. cbn [String.length] in Hfuel.
    destruct fuel as [|fuel]; [lia|]. apply le_S_n in Hfuel.
    rewrite length_append in Hfuel. cbn [String.length] in Hfuel.
    rewrite append_assoc. cbn [append parse_value Ascii.eqb Bool.eqb dq andb].
    destruct d as [|kv r].
    + reflexivity.
    + pose proof (parse_members_reads_back (kv :: r) ltac:(discriminate)
                    Hall fuel [] rest ltac:(lia)) as Hpm.
      assert (Hj : exists j, join "," (map member (kv :: r)) = String dq j).
      { destruct r; cbn [map join]; unfold member, encode_str; cbn [append];
          eexists; reflexivity. }
      destruct Hj as [j Hj]. rewrite Hj in *.
      cbn [append skip_ws is_ws Ascii.eqb Bool.eqb dq orb andb] in *.
      rewrite Hpm. cbn [rev app]. now rewrite dict_of_pairs_distinct.
Qed.

(** [json.loads] undoes the compact [json.dumps] on every value [json]
    carries unchanged. *)
Lemma loads_dumps_compact (v : pyval) :
  json_native v = true -> loads (dumps_compact v) = Ret v.
Proof.
  intros Hn. unfold loads.
  pose proof (dumps_starts_value v Hn) as Hstart.
  pose proof (starts_value_skip_ws _ "" Hstart) as Hskip.
  rewrite append_nil_r in Hskip. rewrite Hskip.
  pose proof (parse_value_reads_back v Hn (S (String.length (dumps_compact v)))
                "" ltac:(lia) eq_refl) as Hp.
  rewrite append_nil_r in Hp. rewrite Hp. reflexivity.
Qed.

End JsonFacts.

(* ===================================================================== *)
(** * Properties of the coordinator *)
(* ===================================================================== *)

(** Case analysis on the scrutinee of the first [match] or [if] of the
    goal. *)
Ltac break_match :=
  match goal with
  | |- context [match ?x with _ => _ end] =>
      lazymatch x with
      | context [match _ with _ => _ end] => fail
      | _ => destruct x eqn:?
      end
  end.

Section CoreFacts.
Import Py Core.
Context `{Externals}.

Lemma generate_single_qr_counter (w : world) (p : t) (data : pyval) :
  match fst (generate_single_qr w p data) with
  | Ret (q, _) =>
      sequence_number q = PInt (_sequence_number p)
      /\ _sequence_number (snd (generate_single_qr w p data))
         = (_sequence_number p + 1)%Z
  | Raise _ =>
      _sequence_number (snd (generate_single_qr w p data)) = _sequence_number p
  end.
Proof.
  unfold generate_single_qr.
  destruct (IdentityManager.get_identity_hash _ _) as [identity im].
  destruct (TimeProvider.get_time_server_verification _ _) as [tv tp].
  destruct (generate_qr_image w _) as [img|e]; simpl.
  - split; reflexivity.
  - reflexivity.
Qed.

Lemma verify_qr_data_counter (w : world) (p : t) (qr_json : string) :
  _sequence_number (snd (verify_qr_data w p qr_json)) = _sequence_number p.
Proof.
  unfold verify_qr_data, verify_body.
  destruct (from_json qr_json) as [q|e]; simpl.
  - destruct (IdentityManager.get_identity_hash _ _) as [expected im].
    repeat (break_match; simpl; try reflexivity);
      repeat match goal with
             | Heq : (_, _) = (_, _) |- _ => inversion Heq; subst; clear Heq
             end; reflexivity.
  - destruct (caught e); reflexivity.
Qed.

Lemma counting_from_consecutive (n : nat) :
  forall start, consecutive (counting_from start n) = true.
Proof.
  induction n as [|n IH]; intros start; [reflexivity|].
  destruct n as [|n']; [reflexivity|].
  change (counting_from start (S (S n')))
    with (PInt start :: PInt (start + 1) :: counting_from (start + 1 + 1) n').
  cbn [consecutive]. rewrite Z.eqb_refl. simpl andb.
  exact (IH (start + 1)%Z).
Qed.

Lemma run_sequence (trace : list (world * call)) :
  forall p,
    map sequence_number (fst (run p trace))
      = counting_from (_sequence_number p) (length (fst (run p trace)))
    /\ _sequence_number (snd (run p trace))
       = (_sequence_number p + Z.of_nat (length (fst (run p trace))))%Z.
Proof.
  induction trace as [|[w c] r IH]; intros p.
  - simpl. split; [reflexivity | lia].
  - destruct c as [data|qr_json]; cbn [run].
    + pose proof (generate_single_qr_counter w p data) as Hgen.
      destruct (generate_single_qr w p data) as [res p'].
      destruct (IH p') as [IHmap IHseq].
      destruct (run p' r) as [packets p''].
      cbn [fst snd] in *.
      destruct res as [[q img]|e].
      * destruct Hgen as [Hq Hp']. cbn [map length counting_from].
        rewrite Hq, IHmap, Hp'. split; [reflexivity|].
        rewrite IHseq, Hp'. lia.
      * rewrite Hgen in *. split; assumption.
    + pose proof (verify_qr_data_counter w p qr_json) as Hver.
      destruct (IH (snd (verify_qr_data w p qr_json))) as [IHmap IHseq].
      rewrite Hver in *. split; assumption.
Qed.

Lemma consecutive_increasing (l : list pyval) :
  consecutive l = true -> increasing l = true.
Proof.
  induction l as [|x r IH]; [reflexivity|].
  destruct x as [| |a| | | |]; try discriminate.
  destruct r as [|y r']; [reflexivity|].
  destruct y as [| |b| | | |]; try discriminate.
  cbn [consecutive increasing]. intros Hc.
  apply andb_true_iff in Hc as [Hab Hr]. apply Z.eqb_eq in Hab.
  apply andb_true_iff. split; [apply Z.ltb_lt; lia | now apply IH].
Qed.

(** C2. Whatever calls are made on one [QRLiveProtocol] instance and in
    whatever surroundings, the packets [generate_single_qr] returns carry
    the sequence numbers [s], [s + 1], [s + 2], ... where [s] is the
    counter at the start ([0] for a fresh instance): each is one more than
    the one before, hence the sequence is strictly increasing. A call
    that raises produces no packet and uses up no number. *)
Theorem sequence_numbers_count_up (p : t) (trace : list (world * call)) :
  let produced := map sequence_number (fst (run p trace)) in
  produced = counting_from (_sequence_number p) (length produced)
  /\ consecutive produced = true
  /\ increasing produced = true
  /\ _sequence_number (snd (run p trace))
     = (_sequence_number p + Z.of_nat (length produced))%Z.
Proof.
  intros produced. subst produced. rewrite length_map.
  destruct (run_sequence trace p) as [Hmap Hseq].
  assert (Hcons : consecutive (map sequence_number (fst (run p trace))) = true)
    by (rewrite Hmap; apply counting_from_consecutive).
  split; [exact Hmap | split; [exact Hcons | split; [| exact Hseq]]].
  now apply consecutive_increasing.
Qed.

(** C1, where the code departs from it. A text that is not JSON yields a
    result with [valid_json] false and the error. A JSON text that parses
    but lacks the required fields makes the constructor raise [TypeError],
    which the [except] clause of [verify_qr_data] does not list: the call
    raises instead of returning a result. *)
Theorem verify_qr_data_raises_on_missing_fields (w : world) (p : t) :
  verify_qr_data w p "invalid json"
    = (Ret {| valid_json := false; error := Some JSONDecodeError;
              identity_verified := false; time_verified := false;
              blockchain_verified := false |}, p)
  /\ Json.loads "{}" = Ret (PDict [])
  /\ from_json "{}" = Raise TypeError
  /\ caught TypeError = false
  /\ verify_qr_data w p "{}" = (Raise TypeError, p)
  /\ verify_qr_data w p (Json.dquoted "{'identity_hash':'abc123'}")
     = (Raise TypeError, p)
  /\ verify_qr_data w p "[]" = (Raise TypeError, p).
Proof.
  assert (Hbad : from_json "invalid json" = Raise JSONDecodeError) by reflexivity.
  assert (Hloads : Json.loads "{}" = Ret (PDict [])) by reflexivity.
  assert (Hfrom : from_json "{}" = Raise TypeError)
    by (unfold from_json; rewrite Hloads; reflexivity).
  assert (Hpart : from_json (Json.dquoted "{'identity_hash':'abc123'}")
                  = Raise TypeError) by reflexivity.
  assert (Hlist : from_json "[]" = Raise TypeError) by reflexivity.
  unfold verify_qr_data, verify_body.
  rewrite Hbad, Hfrom, Hpart, Hlist.
  repeat split; assumption.
Qed.

(** C9, as the code has it. Take a text that [from_json] reads as a
    packet (within the limits of the interpreter) whose
    [blockchain_hashes] is the empty map. When the packet's timestamp is
    an ISO string with a UTC offset, [verify_qr_data] returns a result in
    which [valid_json] is true, [identity_verified] tells whether the
    packet's identity hash is the current one, [time_verified] whether
    the timestamp is within [max_time_drift] of the clock, and
    [blockchain_verified] is false: the any-match check is skipped. When
    the timestamp is a string that [fromisoformat] refuses, the
    [ValueError] is caught and the result has [valid_json] false and
    every check false, the identity check included. In every result that
    is returned [blockchain_verified] is false. *)
Theorem empty_blockchain_hashes_not_verified
        (depth : nat) (w : world) (p : t) (qr_json : string) (q : QRData) :
  from_json qr_json = Ret q ->
  Json.within_limits depth qr_json = true ->
  blockchain_hashes q = PDict [] ->
  (timestamp_usable q = true ->
   fst (verify_qr_data w p qr_json) =
     Ret {| valid_json := true;
            error := None;
            identity_verified :=
              eq_str (identity_hash q)
                     (fst (IdentityManager.get_identity_hash
                             (identity_world w) (identity_manager p)));
            time_verified :=
              Qle_bool (Qabs (utc_now w - timestamp_instant q))
                       (max_time_drift (config p));
            blockchain_verified := false |})
  /\ (forall ts,
        timestamp q = PStr ts -> fromisoformat ts = None ->
        fst (verify_qr_data w p qr_json) =
          Ret {| valid_json := false;
                 error := Some ValueError;
                 identity_verified := false;
                 time_verified := false;
                 blockchain_verified := false |})
  /\ (forall r, fst (verify_qr_data w p qr_json) = Ret r ->
                blockchain_verified r = false).
Proof.
  intros Hparse _ Hempty.
  unfold verify_qr_data, verify_body. rewrite Hparse.
  destruct (IdentityManager.get_identity_hash _ _) as [expected im].
  cbn [fst]. unfold timestamp_usable, timestamp_instant.
  rewrite Hempty. cbn [truthy].
  destruct (timestamp q) as [| | | |ts| |];
    try (split; [intros Hu; discriminate Hu
                | split; [intros ts' Hts; discriminate Hts
                         | intros r Hr; discriminate Hr]]).
  destruct (fromisoformat ts) as [d|] eqn:Hiso.
  - destruct (aware d).
    + split; [reflexivity | split].
      * intros ts' [= <-] Hnone. congruence.
      * intros r Hr. injection Hr as <-. reflexivity.
    + split; [intros Hu; discriminate Hu | split].
      * intros ts' [= <-] Hnone. congruence.
      * intros r Hr. discriminate Hr.
  - split; [intros Hu; discriminate Hu | split].
    + intros ts' _ _. reflexivity.
    + intros r Hr. cbn in Hr. injection Hr as <-. reflexivity.
Qed.

End CoreFacts.

(* ===================================================================== *)
(** * The packet round trip *)
(* ===================================================================== *)

Section RoundTrip.
Import Py Core.
Local Open Scope string_scope.

Lemma construct_asdict (q : QRData) : construct (asdict q) = Ret q.
Proof. destruct q. reflexivity. Qed.

Lemma valid_packet_native (q : QRData) :
  valid_packet q = true -> Json.json_native (asdict q) = true.
Proof.
  unfold valid_packet. intros Hv.
  repeat (apply andb_true_iff in Hv as [Hv ?]).
  unfold asdict. rewrite json_native_dict. cbn [map fst snd forallb].
  apply andb_true_iff. split; [reflexivity|].
  repeat (apply andb_true_iff; split; try assumption). reflexivity.
Qed.

(** C4. For every packet whose fields are values [json] carries unchanged
    (dictionaries with distinct keys, floats written as float literals),
    [from_json (to_json p)] returns a packet equal to [p], field by field
    and type by type; this includes an empty [blockchain_hashes] and a
    [user_data] that is [None]. *)
Theorem from_json_to_json (q : QRData) :
  valid_packet q = true -> from_json (to_json q) = Ret q.
Proof.
  intros Hv. unfold from_json, to_json.
  rewrite (loads_dumps_compact _ (valid_packet_native q Hv)).
  cbn [bind]. apply construct_asdict.
Qed.

Lemma from_json_to_json_witness :
  from_json (to_json Demo.packet) = Ret Demo.packet.
Proof. apply from_json_to_json. reflexivity. Defined.

Lemma empty_blockchain_hashes_not_verified_witness :
  fst (verify_qr_data (H := Demo.externals) Demo.surroundings Demo.protocol
         (to_json Demo.packet))
  = Ret {| valid_json := true; error := None; identity_verified := false;
           time_verified := true; blockchain_verified := false |}.
Proof.
  destruct (empty_blockchain_hashes_not_verified (H := Demo.externals) 900
              Demo.surroundings Demo.protocol (to_json Demo.packet) Demo.packet)
    as [Hreturns _].
  - vm_compute. reflexivity.
  - vm_compute. reflexivity.
  - reflexivity.
  - rewrite Hreturns by reflexivity. vm_compute. reflexivity.
Defined.

(** C9 as stated fails. Both packets below are read by [from_json] and
    have an empty [blockchain_hashes]. The first carries the identity
    hash of the verifying instance and a timestamp that is no ISO date:
    [verify_qr_data] returns [valid_json] false and [identity_verified]
    false although the identity hash is the expected one. The second
    carries a timestamp without a UTC offset: the call raises [TypeError]
    and returns no result at all. *)
Lemma empty_blockchain_hashes_without_result :
  let expected :=
    fst (IdentityManager.get_identity_hash (H := Demo.externals)
           (identity_world Demo.surroundings)
           (identity_manager Demo.protocol)) in
  let undated :=
    {| timestamp := PStr "yesterday"; identity_hash := PStr expected;
       blockchain_hashes := PDict []; time_server_verification := PDict [];
       user_data := PNone; sequence_number := PInt 7 |} in
  let naive :=
    {| timestamp := PStr "2025-01-11T12:00:00"; identity_hash := PStr expected;
       blockchain_hashes := PDict []; time_server_verification := PDict [];
       user_data := PNone; sequence_number := PInt 7 |} in
  from_json (to_json undated) = Ret undated
  /\ Json.within_limits 900 (to_json undated) = true
  /\ eq_str (identity_hash undated) expected = true
  /\ fst (verify_qr_data (H := Demo.externals) Demo.surroundings Demo.protocol
            (to_json undated))
     = Ret {| valid_json := false; error := Some ValueError;
              identity_verified := false; time_verified := false;
              blockchain_verified := false |}
  /\ from_json (to_json naive) = Ret naive
  /\ Json.within_limits 900 (to_json naive) = true
  /\ fst (verify_qr_data (H := Demo.externals) Demo.surroundings Demo.protocol
            (to_json naive))
     = Raise TypeError.
Proof. vm_compute. repeat split. Qed.

End RoundTrip.

(* ===================================================================== *)
(** * More on dictionaries, and on rates *)
(* ===================================================================== *)

Section DictLaws.
Import Py.
Context {V : Type}.

Lemma dict_get_None_keys (k : string) (d : dict V) :
  dict_get k d = None <-> ~ In k (dict_keys d).
Proof.
  induction d as [|[k' v'] r IH]; simpl.
  - split; [intros _ [] | reflexivity].
  - destruct (String.eqb k k') eqn:E.
    + apply String.eqb_eq in E. subst k'. split; [discriminate|].
      intros Hn. exfalso. apply Hn. now left.
    + apply String.eqb_neq in E. rewrite IH. split.
      * intros Hn [Heq | Hin]; [now apply E | now apply Hn].
      * intros Hn Hin. apply Hn. now right.
Qed.

Lemma dict_mem_keys (k : string) (d : dict V) :
  dict_mem k d = true <-> In k (dict_keys d).
Proof.
  unfold dict_mem. pose proof (dict_get_None_keys k d) as Hk.
  destruct (dict_get k d) eqn:E.
  - split; [intros _ | reflexivity].
    destruct (in_dec string_dec k (dict_keys d)) as [Hin | Hn]; [exact Hin|].
    apply Hk in Hn. discriminate.
  - split; [discriminate|]. intros Hin. exfalso.
    now apply (proj1 Hk eq_refl).
Qed.

Lemma dict_set_absent (k : string) (v : V) (d : dict V) :
  dict_get k d = None -> dict_set k v d = d ++ [(k, v)].
Proof.
  induction d as [|[k' v'] r IH]; simpl; [reflexivity|].
  destruct (String.eqb k k'); [discriminate|].
  intros Hn. now rewrite IH.
Qed.

Lemma dict_set_present_keys (k : string) (v : V) (d : dict V) :
  dict_get k d <> None -> dict_keys (dict_set k v d) = dict_keys d.
Proof.
  induction d as [|[k' v'] r IH]; simpl; [congruence|].
  destruct (String.eqb k k'); simpl; [reflexivity|].
  intros Hn. now rewrite IH.
Qed.

Lemma dict_keys_set (k : string) (v : V) (d : dict V) :
  dict_keys (dict_set k v d)
  = if dict_mem k d then dict_keys d else dict_keys d ++ [k].
Proof.
  unfold dict_mem. destruct (dict_get k d) eqn:E.
  - apply dict_set_present_keys. congruence.
  - rewrite dict_set_absent by exact E. unfold dict_keys.
    now rewrite List.map_app.
Qed.

Lemma dict_set_NoDup (k : string) (v : V) (d : dict V) :
  NoDup (dict_keys d) -> NoDup (dict_keys (dict_set k v d)).
Proof.
  intros Hd. rewrite dict_keys_set. destruct (dict_mem k d) eqn:E; [exact Hd|].
  apply NoDup_app; [exact Hd | repeat constructor; intros [] |].
  intros x Hin [Heq | []]. subst x.
  apply dict_mem_keys in Hin. congruence.
Qed.

Lemma dict_del_set_absent (k : string) (v : V) (d : dict V) :
  dict_get k d = None -> dict_del k (dict_set k v d) = d.
Proof.
  induction d as [|[k' v'] r IH]; simpl.
  - now rewrite String.eqb_refl.
  - destruct (String.eqb k k') eqn:E; [discriminate|].
    intros Hn. simpl. rewrite E. now rewrite IH.
Qed.

Lemma dict_get_app (k : string) (d e : dict V) :
  dict_get k (d ++ e)
  = match dict_get k d with Some v => Some v | None => dict_get k e end.
Proof.
  induction d as [|[k' v'] r IH]; simpl; [reflexivity|].
  destruct (String.eqb k k'); [reflexivity | exact IH].
Qed.

Lemma dict_get_map {W : Type} (g : string * V -> W) (k : string) (d : dict V) :
  dict_get k (map (fun kv => (fst kv, g kv)) d)
  = match dict_get k d with Some v => Some (g (k, v)) | None => None end.
Proof.
  induction d as [|[k' v'] r IH]; simpl; [reflexivity|].
  destruct (String.eqb k k') eqn:E; [|exact IH].
  apply String.eqb_eq in E. now subst k'.
Qed.

Lemma dict_get_filter (p : string -> bool) (k : string) (d : dict V) :
  dict_get k (filter (fun kv => p (fst kv)) d)
  = if p k then dict_get k d else None.
Proof.
  induction d as [|[k' v'] r IH]; simpl; [now destruct (p k)|].
  destruct (p k') eqn:Ep; simpl.
  - destruct (String.eqb k k') eqn:E; [|exact IH].
    apply String.eqb_eq in E. subst k'. now rewrite Ep.
  - rewrite IH. destruct (String.eqb k k') eqn:E; [|reflexivity].
    apply String.eqb_eq in E. subst k'. now rewrite Ep.
Qed.

End DictLaws.

Section DictLoops.
Import Py.
Context {V : Type}.

(** A loop that stores one entry per item of a dictionary, under the
    item's key, builds the dictionary of those entries in order. *)
Lemma fold_dict_set_filter {W : Type} (p : string -> bool)
      (g : string * V -> W) (d : dict V) :
  NoDup (dict_keys d) ->
  forall acc : dict W,
    (forall k, In k (dict_keys d) -> dict_get k acc = None) ->
    fold_left
      (fun acc kv => if p (fst kv) then dict_set (fst kv) (g kv) acc else acc)
      d acc
    = acc ++ map (fun kv => (fst kv, g kv)) (filter (fun kv => p (fst kv)) d).
Proof.
  induction d as [|[k v] r IH]; intros Hd acc Hacc; simpl.
  - now rewrite List.app_nil_r.
  - inversion Hd as [|? ? Hk Hr]; subst.
    destruct (p k) eqn:Ep; simpl.
    + rewrite IH; [| exact Hr |].
      * rewrite dict_set_absent by (apply Hacc; now left).
        now rewrite <- List.app_assoc.
      * intros k' Hin. rewrite dict_get_set_other.
        -- apply Hacc. now right.
        -- intros ->. now apply Hk.
    + apply IH; [exact Hr|]. intros k' Hin. apply Hacc. now right.
Qed.


Lemma dict_keys_map {W : Type} (g : string * V -> W) (d : dict V) :
  dict_keys (map (fun kv => (fst kv, g kv)) d) = dict_keys d.
Proof.
  unfold dict_keys. rewrite List.map_map. now apply map_ext.
Qed.

(** Any loop of conditional stores builds a dictionary whose keys are
    distinct. *)
Lemma fold_dict_set_NoDup {A W : Type} (p : A -> bool) (key : A -> string)
      (val : A -> W) (l : list A) :
  forall acc : dict W,
    NoDup (dict_keys acc) ->
    NoDup (dict_keys
             (fold_left
                (fun acc x => if p x then dict_set (key x) (val x) acc else acc)
                l acc)).
Proof.
  induction l as [|x r IH]; intros acc Hacc; simpl; [exact Hacc|].
  apply IH. destruct (p x); [now apply dict_set_NoDup | exact Hacc].
Qed.

End DictLoops.

Section Rates.

(** [s / max(1, t)] lies between 0 and 1 when [0 <= s <= t]. *)
Lemma rate_bounds (s t : Z) :
  (0 <= s)%Z -> (s <= t)%Z ->
  0 <= inject_Z s / inject_Z (Z.max 1 t)
  /\ inject_Z s / inject_Z (Z.max 1 t) <= 1.
Proof.
  intros Hs Hst.
  assert (Hm : 0 < inject_Z (Z.max 1 t)).
  { unfold Qlt, inject_Z. simpl. lia. }
  split.
  - apply Qle_shift_div_l; [exact Hm|]. rewrite Qmult_0_l.
    unfold Qle, inject_Z. simpl. lia.
  - apply Qle_shift_div_r; [exact Hm|]. rewrite Qmult_1_l.
    unfold Qle, inject_Z. simpl. lia.
Qed.

End Rates.

(* ===================================================================== *)
(** * Time provider: sync rounds, statistics, verification data *)
(* ===================================================================== *)

Section TimeProviderRounds.
Import Py TimeProvider.

Lemma collect_offsets_from (srv : string) (rs : list TimeServerResponse) :
  forall acc : dict Q,
    dict_get srv
      (fold_left
         (fun acc r =>
            if success r then dict_set (server r) (offset r) acc else acc)
         rs acc)
    = match last_success srv rs with
      | Some o => Some o
      | None => dict_get srv acc
      end.
Proof.
  induction rs as [|r rest IH]; intros acc; simpl; [reflexivity|].
  rewrite IH. destruct (last_success srv rest); [reflexivity|].
  destruct (success r); simpl; [|reflexivity].
  destruct (String.eqb srv (server r)) eqn:E.
  - apply String.eqb_eq in E. subst srv. apply dict_get_set_same.
  - apply String.eqb_neq in E. now apply dict_get_set_other.
Qed.

Lemma collect_offsets_nil (rs : list TimeServerResponse) :
  forall acc : dict Q,
    fold_left
      (fun acc r =>
         if success r then dict_set (server r) (offset r) acc else acc)
      rs acc = [] ->
    acc = [] /\ existsb success rs = false.
Proof.
  induction rs as [|r rest IH]; intros acc Hnil; simpl in *.
  - now split.
  - apply IH in Hnil. destruct Hnil as [Hacc Hrest].
    destruct (success r); simpl.
    + destruct acc as [|[k v] a]; simpl in Hacc; [discriminate|].
      destruct (String.eqb (server r) k); discriminate.
    + now split.
Qed.

Lemma collect_offsets_none (rs : list TimeServerResponse) :
  forall acc : dict Q,
    existsb success rs = false ->
    fold_left
      (fun acc r =>
         if success r then dict_set (server r) (offset r) acc else acc)
      rs acc = acc.
Proof.
  induction rs as [|r rest IH]; intros acc Hex; simpl in *; [reflexivity|].
  apply Bool.orb_false_iff in Hex. destruct Hex as [Hr Hrest].
  rewrite Hr. now apply IH.
Qed.

Lemma collect_offsets_some (rs : list TimeServerResponse) :
  match collect_offsets rs with
  | [] => existsb success rs = false
  | _ :: _ => existsb success rs = true
  end.
Proof.
  destruct (collect_offsets rs) eqn:E.
  - unfold collect_offsets in E. now apply collect_offsets_nil in E.
  - destruct (existsb success rs) eqn:Hex; [reflexivity|].
    unfold collect_offsets in E.
    rewrite collect_offsets_none in E by exact Hex. discriminate.
Qed.

Lemma collect_offsets_NoDup (rs : list TimeServerResponse) :
  NoDup (dict_keys (collect_offsets rs)).
Proof.
  unfold collect_offsets.
  apply (fold_dict_set_NoDup success server offset). constructor.
Qed.

(** X1. [force_sync] returns [True] exactly when the round gets the lock
    and at least one time source answers. It then holds the offsets of
    this round and the time of the round; otherwise (lock taken, or every
    source failed) the offsets and the time of the last successful round
    stay as they were. *)
Theorem force_sync_outcome (w : world) (tp : t) :
  fst (force_sync w tp)
  = sync_lock_free w && existsb success (sync_all_servers w tp)
  /\ (if fst (force_sync w tp)
      then time_offsets (snd (force_sync w tp))
           = collect_offsets (sync_all_servers w tp)
           /\ last_sync_time (snd (force_sync w tp)) = time_time w
      else time_offsets (snd (force_sync w tp)) = time_offsets tp
           /\ last_sync_time (snd (force_sync w tp)) = last_sync_time tp).
Proof.
  unfold force_sync, _sync_with_servers.
  destruct (sync_lock_free w); simpl.
  - pose proof (collect_offsets_some (sync_all_servers w tp)) as Hsome.
    destruct (collect_offsets (sync_all_servers w tp)) eqn:E; cbn in Hsome; simpl.
    + rewrite Hsome, Z.ltb_irrefl. now repeat split.
    + rewrite Hsome.
      replace (successful_syncs tp <? successful_syncs tp + 1)%Z with true
        by (symmetry; apply Z.ltb_lt; lia).
      now repeat split.
  - rewrite Z.ltb_irrefl. now repeat split.
Qed.

(** X2. A sync round that gets the lock and at least one answer replaces
    the offsets as a whole: the offset of a server is then that of its
    last successful response in the round, and a server without a
    successful response has none, whatever was stored for it before. Any
    other round leaves the offset of every server as it was. *)
Theorem sync_replaces_offsets (w : world) (tp : t) (srv : string) :
  dict_get srv (time_offsets (_sync_with_servers w tp))
  = if sync_lock_free w && existsb success (sync_all_servers w tp)
    then last_success srv (sync_all_servers w tp)
    else dict_get srv (time_offsets tp).
Proof.
  unfold _sync_with_servers.
  destruct (sync_lock_free w); simpl; [|reflexivity].
  pose proof (collect_offsets_some (sync_all_servers w tp)) as Hsome.
  destruct (collect_offsets (sync_all_servers w tp)) eqn:E; cbn in Hsome;
    rewrite Hsome; [reflexivity|].
  cbn [time_offsets]. rewrite <- E. unfold collect_offsets. rewrite collect_offsets_from.
  now destruct (last_success srv (sync_all_servers w tp)).
Qed.

Lemma sync_well_formed (w : world) (tp : t) :
  well_formed tp -> well_formed (_sync_with_servers w tp).
Proof.
  intros (Hs & Hf & Hc & Hd & Hn).
  pose proof (sync_preserves_stats w tp Hc) as Hc'.
  unfold well_formed. split; [|split; [|split; [exact Hc'|]]].
  - unfold _sync_with_servers.
    destruct (sync_lock_free w); simpl; [|exact Hs].
    destruct (collect_offsets _); simpl; lia.
  - unfold _sync_with_servers.
    destruct (sync_lock_free w); simpl; [|exact Hf].
    destruct (collect_offsets _); simpl; lia.
  - unfold _sync_with_servers.
    destruct (sync_lock_free w); simpl; [|now split].
    pose proof (collect_offsets_NoDup (sync_all_servers w tp)) as Hnd.
    destruct (collect_offsets (sync_all_servers w tp)) eqn:E; simpl.
    + now split.
    + split; [exact Hnd|]. split; [discriminate | lia].
Qed.

Section Reachable.
Context `{Externals}.

Lemma step_well_formed (tp : t) (wc : world * call) :
  well_formed tp -> well_formed (step tp wc).
Proof.
  intros Hwf. destruct wc as [w c]. destruct c; simpl; try exact Hwf.
  - destruct (Qle_bool _ _); [exact Hwf | now apply sync_well_formed].
  - now apply sync_well_formed.
  - now apply sync_well_formed.
Qed.

Lemma run_well_formed (trace : list (world * call)) :
  forall tp, well_formed tp -> well_formed (run tp trace).
Proof.
  induction trace as [|wc trace IH]; intros tp Hwf; [exact Hwf|].
  apply IH. now apply step_well_formed.
Qed.

Lemma init_well_formed (s : TimeSettings) (w : world) : well_formed (init s w).
Proof.
  apply sync_well_formed. unfold well_formed, stats_consistent. simpl.
  repeat split; try lia; constructor.
Qed.

(** X3. Whatever calls were made on a [TimeProvider] since it was
    constructed, [get_statistics] reports counters that are not negative,
    a [success_rate] between 0 and 1, and offsets for distinct servers;
    [active_servers] is 0 exactly when no sync round has succeeded yet
    (once a round succeeds, offsets are never empty again). *)
Theorem statistics_of_reachable_state (s : TimeSettings) (w0 : world)
        (trace : list (world * call)) :
  (0 <= stat_successful_syncs (get_statistics (run (init s w0) trace)))%Z
  /\ (0 <= stat_failed_syncs (get_statistics (run (init s w0) trace)))%Z
  /\ 0 <= success_rate (get_statistics (run (init s w0) trace))
  /\ success_rate (get_statistics (run (init s w0) trace)) <= 1
  /\ (active_servers (get_statistics (run (init s w0) trace)) = 0%nat
      <-> stat_successful_syncs (get_statistics (run (init s w0) trace)) = 0%Z)
  /\ NoDup (dict_keys (stat_time_offsets (get_statistics (run (init s w0) trace)))).
Proof.
  pose proof (run_well_formed trace _ (init_well_formed s w0))
    as (Hs & Hf & Hc & Hd & Hn).
  set (tp := run (init s w0) trace) in *. simpl.
  unfold stats_consistent in Hc.
  destruct (rate_bounds (successful_syncs tp) (total_syncs tp)) as [Hlo Hhi];
    [exact Hs | lia |].
  split; [exact Hs | split; [exact Hf | split; [exact Hlo | split; [exact Hhi|]]]].
  split; [|exact Hd].
  rewrite <- Hn. split.
  - intros Hlen. now apply length_zero_iff_nil.
  - intros ->. reflexivity.
Qed.


(** X5. [verify_timestamp] accepts a timestamp exactly when the text
    reads as a datetime with a UTC offset, the current time converts to a
    [datetime], and the two lie at most [tolerance] seconds apart:
    timestamps from the future are accepted like those from the past. A
    text that cannot be read or carries no UTC offset is never accepted,
    and neither is any text while the adjusted time lies outside the
    years 1 to 9999. The call raises exactly when the text can be read
    and the conversion of the current time fails with the platform's
    [OverflowError] or [OSError]. *)
Theorem verify_timestamp_accepts_window (pf : platform) (w : world) (tp : t)
        (timestamp_str : string) (tolerance : Q) :
  (accepted (verify_timestamp_utc pf w tp timestamp_str tolerance) = true
   <-> exists given_time current_time,
         fromisoformat (replace_Z timestamp_str) = Some given_time
         /\ aware given_time = true
         /\ get_current_time_utc pf w tp = Converted current_time
         /\ posix current_time - tolerance <= posix given_time
         /\ posix given_time <= posix current_time + tolerance)
  /\ (verify_timestamp_utc pf w tp timestamp_str tolerance = ConversionError
      <-> (exists given_time,
             fromisoformat (replace_Z timestamp_str) = Some given_time)
          /\ get_current_time_utc pf w tp = PlatformOutOfRange).
Proof.
  unfold verify_timestamp_utc.
  destruct (fromisoformat (replace_Z timestamp_str)) as [g|].
  - destruct (get_current_time_utc pf w tp) as [c| |].
    + destruct (aware g) eqn:Ha; cbv zeta; cbn [accepted valid].
      * split.
        -- rewrite Qle_bool_iff, Qabs_Qle_condition. split.
           ++ intros [Hlo Hhi]. exists g, c.
              repeat (split; [reflexivity|]). split; [exact Ha | split; [reflexivity|]].
              split; lra.
           ++ intros (g' & c' & [= <-] & _ & [= <-] & Hlo & Hhi). split; lra.
        -- split; [discriminate | intros [_ Hc]; discriminate].
      * split.
        -- split; [discriminate|].
           intros (g' & c' & [= <-] & Ha' & _). congruence.
        -- split; [discriminate | intros [_ Hc]; discriminate].
    + cbn [accepted valid]. split.
      * split; [discriminate|]. intros (g' & c' & _ & _ & Hc & _). discriminate.
      * split; [discriminate | intros [_ Hc]; discriminate].
    + cbn [accepted]. split.
      * split; [discriminate|]. intros (g' & c' & _ & _ & Hc & _). discriminate.
      * split; [intros _; split; [now exists g | reflexivity] | reflexivity].
  - cbn [accepted valid]. split.
    + split; [discriminate|]. intros (g' & c' & Hg & _). discriminate.
    + split; [discriminate | intros [[g' Hg] _]; discriminate].
Qed.

End Reachable.

End TimeProviderRounds.

Section DictPairs.
Import Py.
Context {V W : Type}.

Lemma dict_keys_set_same (k : string) (v : V) (x : W) (d : dict V) :
  forall e : dict W,
    dict_keys d = dict_keys e ->
    dict_keys (dict_set k v d) = dict_keys (dict_set k x e).
Proof.
  induction d as [|[k1 v1] r IH]; intros [|[k2 v2] e] Hk; simpl in *;
    try discriminate; [reflexivity|].
  injection Hk as -> Hk.
  destruct (String.eqb k k2); simpl; [now rewrite Hk|].
  f_equal. now apply IH.
Qed.

Lemma Forall_dict_set (P : string * V -> Prop) (k : string) (v : V)
      (d : dict V) :
  Forall P d -> (forall k', k' = k -> P (k', v)) ->
  Forall P (dict_set k v d).
Proof.
  intros Hd Hk. induction d as [|[k' v'] r IH]; simpl.
  - constructor; [now apply Hk | constructor].
  - inversion Hd as [|? ? Hh Hr]; subst.
    destruct (String.eqb k k') eqn:E.
    + constructor; [|exact Hr]. apply Hk. apply String.eqb_eq in E. now subst.
    + constructor; [exact Hh | now apply IH].
Qed.

Lemma dict_get_Forall (P : string * V -> Prop) (k : string) (v : V)
      (d : dict V) :
  Forall P d -> dict_get k d = Some v -> P (k, v).
Proof.
  intros Hd. induction d as [|[k' v'] r IH]; simpl; [discriminate|].
  inversion Hd as [|? ? Hh Hr]; subst.
  destruct (String.eqb k k') eqn:E.
  - apply String.eqb_eq in E. subst k'. intros [= ->]. exact Hh.
  - now apply IH.
Qed.

End DictPairs.

(* ===================================================================== *)
(** * Blockchain verifier: statistics, the cache, hashes and their check *)
(* ===================================================================== *)

Section BlockchainVerifierCache.
Import Py BlockchainVerifier.

Lemma try_explorer_chain (w : world) (name base : string) (b : BlockchainInfo) :
  try_explorer w name base = Some b -> chain b = name.
Proof.
  unfold try_explorer. destruct (explorer_tip w base) as [h|]; [|discriminate].
  destruct (explorer_block w base h) as [[height ts]|]; [|discriminate].
  now intros [= <-].
Qed.

Lemma try_summary_chain (w : world) (name url : string) (b : BlockchainInfo) :
  try_summary w name url = Some b -> chain b = name.
Proof.
  unfold try_summary. destruct (chain_summary w url) as [[height h]|];
    [|discriminate].
  now intros [= <-].
Qed.

Lemma first_success_In (attempts : list (option BlockchainInfo))
      (b : BlockchainInfo) :
  first_success attempts = Some b -> In (Some b) attempts.
Proof.
  induction attempts as [|[a|] r IH]; simpl; [discriminate | |].
  - intros [= ->]. now left.
  - intros Hf. right. now apply IH.
Qed.

Lemma fetch_chain (w : world) (name : string) (b : BlockchainInfo) :
  fetch w name = Some b -> chain b = name /\ supported name = true.
Proof.
  unfold fetch, supported, dict_mem, chain_handlers. simpl.
  destruct (String.eqb_spec name "bitcoin") as [->|_].
  { intros Hb. split; [|reflexivity]. apply first_success_In in Hb.
    destruct Hb as [Hb | [Hb | [Hb | []]]];
      first [ now apply try_explorer_chain in Hb
            | now apply try_summary_chain in Hb ]. }
  destruct (String.eqb_spec name "ethereum") as [->|_].
  { intros Hb. split; [|reflexivity]. apply first_success_In in Hb.
    destruct Hb as [Hb | []]. now apply try_summary_chain in Hb. }
  destruct (String.eqb_spec name "litecoin") as [->|_].
  { intros Hb. split; [|reflexivity]. apply first_success_In in Hb.
    destruct Hb as [Hb | []]. now apply try_summary_chain in Hb. }
  discriminate.
Qed.

Lemma _update_chain_well_formed (w : world) (name : string) (bv : t) :
  well_formed bv -> well_formed (snd (_update_chain w name bv)).
Proof.
  intros (Hs & Hf & Hh & Hc & Hd & Hk & Ha).
  unfold _update_chain, well_formed.
  destruct (update_lock_free w name); simpl.
  - destruct (fetch w name) as [b|] eqn:Hb; simpl.
    + apply fetch_chain in Hb. destruct Hb as [Hchain Hsup].
      repeat split; try lia.
      * now apply dict_set_NoDup.
      * now apply dict_keys_set_same.
      * apply Forall_dict_set; [exact Ha|]. intros k' ->. now split.
    + repeat split; try lia; assumption.
  - repeat split; try lia; assumption.
Qed.

Lemma update_chains_well_formed (w : world) (names : list string) :
  forall n bv, well_formed bv -> well_formed (snd (update_chains w names n bv)).
Proof.
  induction names as [|c r IH]; intros n bv Hwf; simpl; [exact Hwf|].
  pose proof (_update_chain_well_formed w c bv Hwf) as Hwf'.
  destruct (_update_chain w c bv) as [ok bv']. now apply IH.
Qed.

Lemma _update_all_chains_well_formed (w : world) (bv : t) :
  well_formed bv -> well_formed (snd (_update_all_chains w bv)).
Proof.
  intros Hwf. unfold _update_all_chains.
  pose proof (update_chains_well_formed w (enabled_chains (settings bv)) 0 bv Hwf)
    as Hwf'.
  now destruct (update_chains w (enabled_chains (settings bv)) 0 bv).
Qed.

Lemma step_well_formed_bv (bv : t) (wc : world * call) :
  well_formed bv -> well_formed (step bv wc).
Proof.
  intros Hwf. destruct wc as [w c]. destruct c; simpl; try exact Hwf.
  - now apply _update_all_chains_well_formed.
  - unfold force_update. destruct name as [c|].
    + destruct (String.eqb c "").
      * now apply _update_all_chains_well_formed.
      * now apply _update_chain_well_formed.
    + now apply _update_all_chains_well_formed.
  - now apply _update_all_chains_well_formed.
  - now apply _update_chain_well_formed.
Qed.

Lemma run_well_formed_bv (trace : list (world * call)) :
  forall bv, well_formed bv -> well_formed (run bv trace).
Proof.
  induction trace as [|wc trace IH]; intros bv Hwf; [exact Hwf|].
  apply IH. now apply step_well_formed_bv.
Qed.

Lemma init_well_formed_bv (s : BlockchainSettings) : well_formed (init s).
Proof.
  unfold well_formed. simpl. repeat split; try lia; constructor.
Qed.

Lemma reachable_well_formed (s : BlockchainSettings)
      (trace : list (world * call)) :
  well_formed (run (init s) trace).
Proof. apply run_well_formed_bv, init_well_formed_bv. Qed.

(** X7. Whatever calls were made on a [BlockchainVerifier] and whatever
    its threads did, [get_statistics] reports
    [total_requests = successful_requests + failed_requests], counters
    that are not negative and a [success_rate] between 0 and 1. An update
    that finds the lock taken counts as a cache hit only. *)
Theorem request_statistics_of_reachable_state (s : BlockchainSettings)
        (trace : list (world * call)) :
  stat_total_requests (get_statistics (run (init s) trace))
  = (stat_successful_requests (get_statistics (run (init s) trace))
     + stat_failed_requests (get_statistics (run (init s) trace)))%Z
  /\ (0 <= stat_successful_requests (get_statistics (run (init s) trace)))%Z
  /\ (0 <= stat_failed_requests (get_statistics (run (init s) trace)))%Z
  /\ (0 <= stat_cache_hits (get_statistics (run (init s) trace)))%Z
  /\ 0 <= success_rate (get_statistics (run (init s) trace))
  /\ success_rate (get_statistics (run (init s) trace)) <= 1.
Proof.
  destruct (reachable_well_formed s trace) as (Hs & Hf & Hh & Hc & _).
  set (bv := run (init s) trace) in *. simpl.
  destruct (rate_bounds (successful_requests bv) (total_requests bv))
    as [Hlo Hhi]; [exact Hs | lia |].
  repeat split; assumption.
Qed.

(** X8. Whatever calls were made and whatever the threads did, the cache
    holds at most one record per chain, every record sits under the name
    of its own chain, that chain is one of those with a handler, and
    [last_update] has a time for exactly the chains that have a record,
    in the same order. *)
Theorem cache_of_reachable_state (s : BlockchainSettings)
        (trace : list (world * call)) :
  NoDup (cached_chains (get_statistics (run (init s) trace)))
  /\ dict_keys (last_updates (get_statistics (run (init s) trace)))
     = cached_chains (get_statistics (run (init s) trace))
  /\ forall name b,
       dict_get name (cached_blocks (run (init s) trace)) = Some b ->
       chain b = name /\ supported name = true.
Proof.
  destruct (reachable_well_formed s trace) as (_ & _ & _ & _ & Hd & Hk & Ha).
  split; [exact Hd | split; [exact Hk|]].
  intros name b Hget.
  exact (dict_get_Forall
           (fun kv => chain (snd kv) = fst kv /\ supported (fst kv) = true)
           name b _ Ha Hget).
Qed.

Lemma get_blockchain_hashes_items (w : world) (bv : t) :
  NoDup (dict_keys (cached_blocks bv)) ->
  fst (get_blockchain_hashes w bv)
  = map (fun kv => (fst kv, block_hash (snd kv)))
        (filter (fun kv => str_in (fst kv) (enabled_chains (settings bv)))
                (cached_blocks bv)).
Proof.
  intros Hd. unfold get_blockchain_hashes. cbn [fst].
  exact (fold_dict_set_filter
           (fun k => str_in k (enabled_chains (settings bv)))
           (fun kv => block_hash (snd kv)) (cached_blocks bv) Hd []
           (fun k _ => eq_refl)).
Qed.

Lemma get_blockchain_hashes_get (w : world) (bv : t) (name : string) :
  NoDup (dict_keys (cached_blocks bv)) ->
  dict_get name (fst (get_blockchain_hashes w bv))
  = if str_in name (enabled_chains (settings bv))
    then option_map block_hash (dict_get name (cached_blocks bv))
    else None.
Proof.
  intros Hd. rewrite get_blockchain_hashes_items by exact Hd.
  rewrite (dict_get_map (fun kv => block_hash (snd kv))).
  rewrite (dict_get_filter (fun k => str_in k (enabled_chains (settings bv)))).
  destruct (str_in name (enabled_chains (settings bv))); [|reflexivity].
  now destruct (dict_get name (cached_blocks bv)).
Qed.

(** X9. Whatever calls were made before, [get_blockchain_hashes] maps a
    chain to the hash of its cached record when the chain is enabled and
    has a record, and has no entry for it otherwise: a record cached for
    a chain that is not enabled (as [force_update] of that chain leaves
    one) is never reported. The answer does not depend on the clock or on
    the network: the refreshes the call starts run later. *)
Theorem get_blockchain_hashes_lookup (s : BlockchainSettings)
        (trace : list (world * call)) (w : world) (name : string) :
  dict_get name (fst (get_blockchain_hashes w (run (init s) trace)))
  = if str_in name (enabled_chains (settings (run (init s) trace)))
    then option_map block_hash
           (dict_get name (cached_blocks (run (init s) trace)))
    else None.
Proof.
  destruct (reachable_well_formed s trace) as (_ & _ & _ & _ & Hd & _).
  now apply get_blockchain_hashes_get.
Qed.

(** X10. A hash that [get_blockchain_hashes] reports for a chain is the
    one hash [verify_blockchain_hash] accepts for that chain, as long as
    no refresh has run in between: the reported hash verifies, any other
    text does not, whatever [tolerance_blocks] is given. *)
Theorem verify_blockchain_hash_accepts_reported (s : BlockchainSettings)
        (trace : list (world * call)) (w w' : world) (name h given : string)
        (tolerance_blocks : Z) :
  dict_get name (fst (get_blockchain_hashes w (run (init s) trace))) = Some h ->
  check_valid
    (fst (verify_blockchain_hash w' name given tolerance_blocks
            (run (init s) trace)))
  = String.eqb h given.
Proof.
  destruct (reachable_well_formed s trace) as (_ & _ & _ & _ & Hd & _).
  rewrite get_blockchain_hashes_get by exact Hd.
  unfold verify_blockchain_hash, get_blockchain_info. cbn [fst].
  destruct (str_in name _); [|discriminate].
  destruct (dict_get name (cached_blocks (run (init s) trace))) as [b|];
    [|discriminate].
  simpl. now intros [= ->].
Qed.

(** X11. Once a refresh of a chain has completed, a later reading call
    starts a new refresh of that chain exactly when the chain is enabled
    and more than [cache_duration] seconds have passed since. *)
Theorem refreshed_chain_rescheduled_when_stale (w w' : world) (name : string)
        (bv : t) :
  refreshed w name = true ->
  (In name (_update_if_needed w' (snd (_update_chain w name bv)))
   <-> In name (enabled_chains (settings bv))
       /\ cache_duration (settings bv) < time_time w' - time_time w).
Proof.
  intros Href. unfold _update_if_needed.
  rewrite filter_In, _update_chain_settings.
  assert (Hlast : dict_get name (last_update (snd (_update_chain w name bv)))
                  = Some (time_time w)).
  { unfold refreshed in Href. apply andb_true_iff in Href as [Hlock Hf].
    unfold _update_chain. rewrite Hlock. simpl.
    destruct (fetch w name); [|discriminate]. simpl. apply dict_get_set_same. }
  rewrite Hlast.
  split; intros [Hin Hstale]; (split; [exact Hin|]).
  - apply Qnot_le_lt. intros Hle. apply Qle_bool_iff in Hle.
    now rewrite Hle in Hstale.
  - destruct (Qle_bool _ _) eqn:E; [|reflexivity].
    apply Qle_bool_iff in E. exfalso. now apply (Qlt_not_le _ _ Hstale).
Qed.

End BlockchainVerifierCache.

(* ===================================================================== *)
(** * Identity manager: the digest cache, files, and the chunked read *)
(* ===================================================================== *)

Section IdentityManagerCache.
Import Py IdentityManager.
Context `{Externals}.
Local Open Scope string_scope.

Lemma cache_coherent_no_identity (im : t) :
  identity_info im = None -> cache_coherent im ->
  nonempty (cached_hash im) = None.
Proof.
  intros Hinfo [Hc | Hc]; [exact Hc|].
  rewrite Hc. unfold _generate_identity_hash. now rewrite Hinfo.
Qed.

Lemma set_identity_info_same (im : t) :
  set_identity_info im (identity_info im) = im.
Proof. now destruct im. Qed.

Lemma import_identity_outcome (w : world) (im : t) (f : string) :
  (fst (import_identity w im f) = true
   /\ cached_hash (snd (import_identity w im f)) = None
   /\ identity_info (snd (import_identity w im f)) <> None)
  \/ import_identity w im f = (false, im).
Proof.
  unfold import_identity.
  destruct (negb (exists_ w f)); [now right|].
  destruct (load_identity w f); [left | now right].
  simpl. repeat split. discriminate.
Qed.

(** [_initialize_identity] on an instance without identity: either an
    identity is there afterwards (and no usable digest is cached if none
    was before), or the instance is as it was. *)
Lemma _initialize_identity_outcome (w : world) (im : t) :
  identity_info im = None ->
  (identity_info (_initialize_identity w im) <> None
   /\ (nonempty (cached_hash im) = None ->
       nonempty (cached_hash (_initialize_identity w im)) = None)
   /\ file_reads (_initialize_identity w im) = file_reads im
   /\ settings (_initialize_identity w im) = settings im)
  \/ _initialize_identity w im = im.
Proof.
  intros Hinfo. unfold _initialize_identity.
  assert (Hcreate :
    (identity_info (if auto_generate (settings im)
                    then _create_new_identity w im
                    else set_identity_info im None) <> None
     /\ (nonempty (cached_hash im) = None ->
         nonempty (cached_hash (if auto_generate (settings im)
                                then _create_new_identity w im
                                else set_identity_info im None)) = None)
     /\ file_reads (if auto_generate (settings im)
                    then _create_new_identity w im
                    else set_identity_info im None) = file_reads im
     /\ settings (if auto_generate (settings im)
                  then _create_new_identity w im
                  else set_identity_info im None) = settings im)
    \/ (if auto_generate (settings im) then _create_new_identity w im
        else set_identity_info im None) = im).
  { destruct (auto_generate (settings im)).
    - left. destruct (_create_new_identity_spec w im) as [Hcache Hsome].
      split; [exact Hsome | split; [now rewrite Hcache|]].
      unfold _create_new_identity.
      destruct (include_system_info (settings im)); simpl; now split.
    - right. rewrite <- Hinfo. apply set_identity_info_same. }
  destruct (nonempty (identity_file (settings im))) as [f|]; [|exact Hcreate].
  destruct (exists_ w f); [|exact Hcreate].
  destruct (import_identity_outcome w im f) as [(Hok & Hcache & Hsome) | Hfail].
  - left. unfold import_identity in *.
    destruct (negb (exists_ w f)); [discriminate|].
    destruct (load_identity w f); [|discriminate]. simpl.
    repeat split. discriminate.
  - rewrite Hfail. exact Hcreate.
Qed.

Lemma get_identity_hash_coherent (w : world) (im : t) :
  cache_coherent im ->
  fst (get_identity_hash w im) = _generate_identity_hash im.
Proof.
  intros [Hc | Hc].
  - now apply get_identity_hash_uncached.
  - unfold get_identity_hash. rewrite Hc.
    destruct (_generate_identity_hash im) as [|c r] eqn:Hg; simpl.
    + reflexivity.
    + destruct (negb (Qle_bool 60 _) && negb (_identity_changed w im));
        reflexivity.
Qed.

Lemma get_identity_hash_keeps_coherent (w : world) (im : t) :
  cache_coherent im -> cache_coherent (snd (get_identity_hash w im)).
Proof.
  intros Hc. unfold get_identity_hash.
  destruct (nonempty (cached_hash im)) as [cached|].
  - destruct (negb (Qle_bool 60 _) && negb (_identity_changed w im)); simpl;
      [exact Hc | now right].
  - simpl. now right.
Qed.

Lemma update_custom_data_coherent (w : world) (im : t) (key : string)
      (value : pyval) :
  cache_coherent im -> cache_coherent (update_custom_data w im key value).
Proof.
  intros Hc. unfold update_custom_data.
  destruct (identity_info im) as [info|] eqn:Hinfo.
  - rewrite Hinfo. now left.
  - pose proof (cache_coherent_no_identity im Hinfo Hc) as Hnone.
    destruct (_initialize_identity_outcome w im Hinfo)
      as [(Hsome & Hcache & _) | Hsame].
    + destruct (identity_info (_initialize_identity w im));
        [now left | left; now apply Hcache].
    + rewrite Hsame, Hinfo. exact Hc.
Qed.

Lemma add_file_to_identity_coherent (w : world) (im : t) (path : string)
      (alias : option string) :
  cache_coherent im ->
  cache_coherent (snd (add_file_to_identity w im path alias)).
Proof.
  intros Hc. unfold add_file_to_identity.
  destruct (negb (exists_ w path)); [exact Hc|].
  destruct (identity_info im) as [info|] eqn:Hinfo.
  - rewrite Hinfo. now left.
  - pose proof (cache_coherent_no_identity im Hinfo Hc) as Hnone.
    destruct (_initialize_identity_outcome w im Hinfo)
      as [(Hsome & Hcache & _) | Hsame].
    + destruct (identity_info (_initialize_identity w im));
        [now left | left; now apply Hcache].
    + rewrite Hsame, Hinfo. exact Hc.
Qed.

Lemma step_coherent (im : t) (wc : world * call) :
  cache_coherent im -> cache_coherent (step im wc).
Proof.
  intros Hc. destruct wc as [w c]. destruct c; simpl; try exact Hc.
  - now apply get_identity_hash_keeps_coherent.
  - now apply update_custom_data_coherent.
  - now apply add_file_to_identity_coherent.
  - unfold remove_file_from_identity.
    destruct (identity_info im) as [info|]; [|exact Hc].
    destruct (dict_mem file_key (file_hashes info)); [now left | exact Hc].
  - destruct (import_identity_outcome w im file_path) as [(_ & Hcache & _) | Hfail].
    + left. now rewrite Hcache.
    + now rewrite Hfail.
Qed.

Lemma run_coherent (trace : list (world * call)) :
  forall im, cache_coherent im -> cache_coherent (run im trace).
Proof.
  induction trace as [|wc trace IH]; intros im Hc; [exact Hc|].
  apply IH. now apply step_coherent.
Qed.

Lemma init_coherent (s : IdentitySettings) (w0 : world) :
  cache_coherent (init s w0).
Proof.
  left. unfold init. now rewrite _initialize_identity_cache.
Qed.

(** X12. The digest cache is never stale: whatever calls were made on an
    [IdentityManager] since it was constructed (digests, custom data,
    files added and removed, imports), [get_identity_hash] returns the
    digest of the identity information as it is at the call, whether it
    takes it from the cache or computes it. *)
Theorem get_identity_hash_is_current_digest (s : IdentitySettings)
        (w0 : world) (trace : list (world * call)) (w : world) :
  fst (get_identity_hash w (run (init s w0) trace))
  = _generate_identity_hash (run (init s w0) trace).
Proof.
  apply get_identity_hash_coherent, run_coherent, init_coherent.
Qed.

Lemma add_file_to_identity_stores (w : world) (im : t) (path : string)
      (alias : option string) (info : IdentityInfo) :
  identity_info im = Some info ->
  exists_ w path = true ->
  identity_info (snd (add_file_to_identity w im path alias))
  = Some (set_file_hash info (file_key_of path alias)
            (_calculate_file_hash w im path))
  /\ settings (snd (add_file_to_identity w im path alias)) = settings im.
Proof.
  intros Hinfo Hex. unfold add_file_to_identity.
  rewrite Hex, Hinfo. cbn [negb]. rewrite Hinfo. now split.
Qed.

Lemma remove_file_after_set (im : t) (info : IdentityInfo) (key h : string) :
  identity_info im = Some (set_file_hash info key h) ->
  dict_get key (file_hashes info) = None ->
  fst (remove_file_from_identity im key) = true
  /\ identity_info (snd (remove_file_from_identity im key)) = Some info
  /\ settings (snd (remove_file_from_identity im key)) = settings im.
Proof.
  intros Hinfo Hfresh. unfold remove_file_from_identity. rewrite Hinfo.
  unfold dict_mem, set_file_hash. cbn [file_hashes].
  rewrite dict_get_set_same. cbn.
  rewrite dict_del_set_absent by exact Hfresh.
  repeat split. now destruct info.
Qed.

(** X13. Removing a file that was added under a key not in use before
    restores the identity information, and with it the digest. *)
Theorem remove_file_undoes_add_file (w : world) (im : t) (path : string)
        (alias : option string) (info : IdentityInfo) :
  identity_info im = Some info ->
  exists_ w path = true ->
  dict_get (file_key_of path alias) (file_hashes info) = None ->
  fst (remove_file_from_identity
         (snd (add_file_to_identity w im path alias))
         (file_key_of path alias)) = true
  /\ identity_info
       (snd (remove_file_from_identity
               (snd (add_file_to_identity w im path alias))
               (file_key_of path alias))) = Some info
  /\ _generate_identity_hash
       (snd (remove_file_from_identity
               (snd (add_file_to_identity w im path alias))
               (file_key_of path alias)))
     = _generate_identity_hash im.
Proof.
  intros Hinfo Hex Hfresh.
  destruct (add_file_to_identity_stores w im path alias info Hinfo Hex)
    as [Hadd Hset].
  destruct (remove_file_after_set _ info _ _ Hadd Hfresh) as (Hres & Hback & Hset').
  split; [exact Hres | split; [exact Hback|]].
  apply _generate_identity_hash_ext; congruence.
Qed.

Lemma read_length (n : nat) (s : string) :
  (String.length (fst (read n s)) <= n)%nat.
Proof.
  revert s. induction n as [|n IH]; intros s; [simpl; lia|].
  destruct s as [|c r]; simpl; [lia|].
  specialize (IH r). destruct (read n r) as [a b]. simpl in *. lia.
Qed.

Lemma concat_empty_cons (a : string) (l : list string) :
  String.concat "" (a :: l) = a ++ String.concat "" l.
Proof.
  destruct l as [|b l]; simpl; [|reflexivity].
  clear. induction a as [|c a IH]; simpl; [reflexivity | now rewrite <- IH].
Qed.

Lemma read_chunks_cover (fuel : nat) :
  forall s : string,
    (String.length s < fuel)%nat ->
    String.concat "" (read_chunks fuel s) = s
    /\ Forall (fun c => (0 < String.length c <= chunk_size)%nat)
              (read_chunks fuel s).
Proof.
  assert (Hsize : exists n, chunk_size = S n) by (eexists; reflexivity).
  destruct Hsize as [n Hn].
  induction fuel as [|fuel IH]; intros s Hlen; [lia|].
  cbn [read_chunks]. rewrite Hn.
  destruct s as [|c r]; [simpl; split; [reflexivity | constructor]|].
  pose proof (read_append (S n) (String c r)) as Happ.
  pose proof (read_rest_shorter n c r) as Hshort.
  pose proof (read_length (S n) (String c r)) as Hmax.
  destruct (read (S n) (String c r)) as [a b] eqn:Hread.
  simpl in Hread. destruct (read n r) as [a' b'].
  injection Hread as <- <-. cbn [fst snd] in *.
  destruct (IH b' ltac:(simpl in Hlen; lia)) as [Hcat Hall].
  split.
  - rewrite concat_empty_cons, Hcat. exact Happ.
  - rewrite <- Hn in *. constructor; [|exact Hall]. simpl in *. lia.
Qed.

(** X14. For a file that can be read, under a hash algorithm [hashlib]
    knows, [_calculate_file_hash] returns the digest of the whole content:
    the chunks it reads are not empty, hold at most [chunk_size] = 8192
    bytes each, and put together in order they are the content. *)
Theorem file_hash_covers_whole_content (w : world) (im : t)
        (path content : string) (digest : string -> string) :
  hashlib_new (hash_algorithm (settings im)) = Some digest ->
  path_state w path = Readable content ->
  _calculate_file_hash w im path = digest content
  /\ String.concat "" (read_chunks (S (String.length content)) content) = content
  /\ Forall (fun c => (0 < String.length c <= chunk_size)%nat)
            (read_chunks (S (String.length content)) content).
Proof.
  intros Hnew Hstate.
  split; [now apply _calculate_file_hash_readable|].
  apply read_chunks_cover. lia.
Qed.

(** X15. [add_file_to_identity] returns [False] only when it has changed
    nothing (the path does not exist, or there is no identity and none
    can be set up). When it returns [True] the path exists, the result of
    [_calculate_file_hash] is stored under the alias or else the base
    name of the path, the cached digest is dropped and [file_reads] has
    grown by one. *)
Theorem add_file_to_identity_outcome (w : world) (im : t) (path : string)
        (alias : option string) :
  if fst (add_file_to_identity w im path alias)
  then exists_ w path = true
       /\ (exists info,
             identity_info (snd (add_file_to_identity w im path alias))
             = Some info
             /\ dict_get (file_key_of path alias) (file_hashes info)
                = Some (_calculate_file_hash w im path))
       /\ cached_hash (snd (add_file_to_identity w im path alias)) = None
       /\ file_reads (snd (add_file_to_identity w im path alias))
          = (file_reads im + 1)%Z
  else snd (add_file_to_identity w im path alias) = im.
Proof.
  unfold add_file_to_identity. fold (file_key_of path alias).
  destruct (exists_ w path) eqn:Hex; cbn [negb]; [|reflexivity].
  destruct (identity_info im) as [info|] eqn:Hinfo.
  - rewrite Hinfo. cbn [fst snd identity_info cached_hash file_reads].
    repeat split. eexists. split; [reflexivity|].
    unfold set_file_hash. cbn [file_hashes]. apply dict_get_set_same.
  - destruct (_initialize_identity_outcome w im Hinfo)
      as [(Hsome & _ & Hreads & _) | Hsame].
    + destruct (identity_info (_initialize_identity w im)) as [info|];
        [|congruence].
      cbn [fst snd identity_info cached_hash file_reads].
      repeat split; [|now rewrite Hreads].
      eexists. split; [reflexivity|].
      unfold set_file_hash. cbn [file_hashes]. apply dict_get_set_same.
    + rewrite Hsame, Hinfo. reflexivity.
Qed.

(** X16. When the settings name an identity file that exists, and the
    identity information has no ["identity_file"] entry (as after an
    import of a file that has none, or with [include_file_hash] off),
    [_identity_changed] reports a change at every call: each
    [get_identity_hash] computes the digest anew, however recent the
    cached one is. *)
Theorem cache_unused_without_identity_file_entry (w : world) (im : t)
        (f : string) :
  nonempty (identity_file (settings im)) = Some f ->
  exists_ w f = true ->
  (forall info, identity_info im = Some info ->
                dict_get "identity_file" (file_hashes info) = None) ->
  _identity_changed w im = true
  /\ fst (get_identity_hash w im) = _generate_identity_hash im
  /\ hash_generations (snd (get_identity_hash w im))
     = (hash_generations im + 1)%Z.
Proof.
  intros Hf Hex Hentry.
  assert (Hchanged : _identity_changed w im = true).
  { unfold _identity_changed. destruct (identity_info im) as [info|]; [|reflexivity].
    rewrite Hf, Hex. now rewrite (Hentry info eq_refl). }
  split; [exact Hchanged|].
  unfold get_identity_hash. rewrite Hchanged.
  destruct (nonempty (cached_hash im)); simpl;
    [rewrite andb_false_r; simpl|]; now split.
Qed.

End IdentityManagerCache.

(* ===================================================================== *)
(** * The coordinator: a generated packet under verification *)
(* ===================================================================== *)

Section DictBuilders.
Import Py.
Context {A W : Type}.



End DictBuilders.

Section GenerateThenVerify.
Import Py Core.
Context `{Externals}.
Local Open Scope string_scope.

Lemma NoDup_distinct (l : list string) : NoDup l -> Json.distinct l = true.
Proof.
  induction 1 as [|x l Hx Hl IH]; simpl; [reflexivity|].
  rewrite IH, andb_true_r. apply negb_true_iff. now apply str_in_false.
Qed.


Lemma get_blockchain_hashes_any_world (w w' : BlockchainVerifier.world)
      (bv : BlockchainVerifier.t) :
  fst (BlockchainVerifier.get_blockchain_hashes w' bv)
  = fst (BlockchainVerifier.get_blockchain_hashes w bv).
Proof. reflexivity. Qed.

Lemma hashes_native (hashes : dict string) :
  NoDup (dict_keys hashes) ->
  Json.json_native (PDict (map (fun kv => (fst kv, PStr (snd kv))) hashes)) = true.
Proof.
  intros Hd. rewrite json_native_dict. apply andb_true_iff. split.
  - rewrite List.map_map. cbn [fst]. now apply NoDup_distinct.
  - apply forallb_forall. intros x Hin. apply in_map_iff in Hin.
    destruct Hin as (kv & <- & _). reflexivity.
Qed.






(** X18. An entry with [null] for a hash counts as a match: when a packet
    names a chain with the value [null] and [get_blockchain_hashes] has
    no hash for that chain, [verify_qr_data] reports
    [blockchain_verified] as true (the comparison is [None == None]). *)
Theorem null_hash_counts_as_match (w : world) (p : t) (qr_json : string)
        (q : QRData) (items : list (string * pyval)) (c : string) :
  from_json qr_json = Ret q ->
  timestamp_usable q = true ->
  blockchain_hashes q = PDict items ->
  In (c, PNone) items ->
  dict_get c
    (fst (BlockchainVerifier.get_blockchain_hashes (chain_world w)
            (blockchain_verifier p))) = None ->
  exists r,
    fst (verify_qr_data w p qr_json) = Ret r /\ blockchain_verified r = true.
Proof.
  intros Hparse Husable Hitems Hin Hnone.
  unfold verify_qr_data, verify_body. rewrite Hparse.
  destruct (IdentityManager.get_identity_hash _ _) as [expected im].
  unfold timestamp_usable in Husable.
  destruct (timestamp q) as [| | | |ts| |]; try discriminate.
  destruct (fromisoformat ts) as [d|]; [|discriminate].
  rewrite Husable, Hitems.
  assert (Htruthy : truthy (PDict items) = true).
  { destruct items; [contradiction | reflexivity]. }
  rewrite Htruthy. eexists. split; [reflexivity|].
  cbn [blockchain_verified]. apply existsb_exists.
  exists (c, PNone). split; [exact Hin|]. cbn [fst snd]. now rewrite Hnone.
Qed.

Lemma verify_body_state (w : world) (p : t) (qr_json : string) :
  snd (verify_body w p qr_json)
  = match from_json qr_json with
    | Raise _ => p
    | Ret _ =>
        set_components p (time_provider p)
          (snd (IdentityManager.get_identity_hash (identity_world w)
                  (identity_manager p)))
    end.
Proof.
  unfold verify_body. destruct (from_json qr_json) as [q|e]; [|reflexivity].
  destruct (IdentityManager.get_identity_hash _ _) as [expected im].
  cbn [snd].
  repeat (break_match; try reflexivity).
Qed.

Lemma verify_qr_data_state (w : world) (p : t) (qr_json : string) :
  snd (verify_qr_data w p qr_json) = snd (verify_body w p qr_json).
Proof.
  unfold verify_qr_data.
  destruct (verify_body w p qr_json) as [[r|e] p']; [reflexivity|].
  now destruct (caught e).
Qed.



Lemma verify_qr_data_frame (w : world) (p : t) (qr_json : string) :
  config (snd (verify_qr_data w p qr_json)) = config p
  /\ time_provider (snd (verify_qr_data w p qr_json)) = time_provider p
  /\ blockchain_verifier (snd (verify_qr_data w p qr_json))
     = blockchain_verifier p
  /\ get_current_qr_data (snd (verify_qr_data w p qr_json))
     = get_current_qr_data p
  /\ _sequence_number (snd (verify_qr_data w p qr_json)) = _sequence_number p
  /\ _update_count (snd (verify_qr_data w p qr_json)) = _update_count p.
Proof.
  rewrite verify_qr_data_state, verify_body_state.
  destruct (from_json qr_json); repeat split.
Qed.


Lemma last_cons_default {A : Type} (a d : A) (l : list A) :
  last (a :: l) d = last l a.
Proof.
  revert a d. induction l as [|b l IH]; intros a d; [reflexivity|].
  change (last (a :: b :: l) d) with (last (b :: l) d).
  rewrite (IH b d). symmetry. apply (IH b a).
Qed.

Lemma generate_single_qr_current (w : world) (p : t) (data : pyval) :
  get_current_qr_data (snd (generate_single_qr w p data))
  = match fst (generate_single_qr w p data) with
    | Ret (q, _) => Some q
    | Raise _ => get_current_qr_data p
    end.
Proof.
  unfold generate_single_qr.
  destruct (IdentityManager.get_identity_hash _ _) as [identity im].
  destruct (TimeProvider.get_time_server_verification _ _) as [tv tp].
  now destruct (generate_qr_image w _).
Qed.

(** X20. After any sequence of generations and verifications,
    [get_current_qr_data] returns the last packet that was generated, or
    what it returned before when none was: a verification, or a
    generation that fails, leaves it as it is. *)
Theorem get_current_qr_data_is_last_packet (trace : list (world * call)) :
  forall p : t,
    get_current_qr_data (snd (run p trace))
    = last (map Some (fst (run p trace))) (get_current_qr_data p).
Proof.
  induction trace as [|[w c] trace IH]; intros p; [reflexivity|].
  destruct c as [data | qr_json]; cbn [run].
  - pose proof (generate_single_qr_current w p data) as Hcur.
    destruct (generate_single_qr w p data) as [res p1]. cbn [fst snd] in Hcur.
    specialize (IH p1). destruct (run p1 trace) as [packets p2].
    cbn [fst snd] in *. rewrite IH, Hcur.
    destruct res as [[q img]|e]; [|reflexivity].
    cbn [map]. now rewrite last_cons_default.
  - rewrite IH.
    now destruct (verify_qr_data_frame w p qr_json) as (_ & _ & _ & -> & _).
Qed.

End GenerateThenVerify.

(* ===================================================================== *)
(** * QR generator: the image cache and the chunks *)
(* ===================================================================== *)

Section QRGeneratorCache.
Import Py QRGenerator.
Local Open Scope string_scope.

Lemma dict_set_length {V : Type} (k : string) (v : V) (d : dict V) :
  (length (dict_set k v d) <= S (length d))%nat.
Proof.
  induction d as [|[k' v'] r IH]; simpl; [lia|].
  destruct (String.eqb k k'); simpl; lia.
Qed.

Lemma evict_oldest_tail (c : dict string) : evict_oldest c = tl c.
Proof.
  destruct c as [|[k v] r]; simpl; [reflexivity|].
  now rewrite String.eqb_refl.
Qed.

Lemma generate_qr_image_bounded (lib : library) (st : t) (data : string)
      (style : option string) :
  cache_bounded st -> cache_bounded (snd (generate_qr_image lib st data style)).
Proof.
  intros [Hd Hlen]. unfold generate_qr_image.
  destruct (dict_get _ (cache st)); [now split|].
  destruct (render lib data style (settings st)) as [img|e]; [|now split].
  unfold cache_bounded. cbn [snd cache].
  rewrite evict_oldest_tail.
  destruct (Nat.ltb 100 (length (cache st))) eqn:Hfull.
  - apply Nat.ltb_lt in Hfull. split.
    + apply dict_set_NoDup. destruct (cache st) as [|kv r]; [exact Hd|].
      now inversion Hd.
    + pose proof (dict_set_length (cache_key lib st data style) img (tl (cache st))).
      destruct (cache st) as [|kv r]; simpl in *; lia.
  - apply Nat.ltb_ge in Hfull. split.
    + now apply dict_set_NoDup.
    + pose proof (dict_set_length (cache_key lib st data style) img (cache st)).
      lia.
Qed.

Lemma chunk_images_bounded (lib : library) (chunks : list string) :
  forall st imgs,
    cache_bounded st -> cache_bounded (snd (chunk_images lib st chunks imgs)).
Proof.
  induction chunks as [|chunk rest IH]; intros st imgs Hb; simpl; [exact Hb|].
  pose proof (generate_qr_image_bounded lib st chunk (Some "live") Hb) as Hb'.
  destruct (generate_qr_image lib st chunk (Some "live")) as [[img|e] st'];
    [now apply IH | exact Hb'].
Qed.

Section Reachable.
Context `{Externals}.

Lemma generate_chunked_qr_codes_bounded (lib : library) (now : Q) (st : t)
      (data : string) (max_chunk_size : option Z) :
  cache_bounded st ->
  cache_bounded (snd (generate_chunked_qr_codes lib now st data max_chunk_size)).
Proof.
  intros Hb. unfold generate_chunked_qr_codes.
  destruct (_split_data lib data _) as [chunks|e]; [|exact Hb].
  pose proof (generate_qr_image_bounded lib st
                (metadata_json st now data chunks) (Some "professional") Hb)
    as Hb'.
  destruct (generate_qr_image lib st _ (Some "professional")) as [[img|e] st'];
    [now apply chunk_images_bounded | exact Hb'].
Qed.

Lemma run_bounded (lib : library) (trace : list call) :
  forall st, cache_bounded st -> cache_bounded (run lib st trace).
Proof.
  induction trace as [|c trace IH]; intros st Hb; [exact Hb|].
  apply IH. destruct c; simpl.
  - now apply generate_qr_image_bounded.
  - now apply generate_chunked_qr_codes_bounded.
  - exact Hb.
Qed.

(** X21. Whatever images a [QRGenerator] was asked for since it was
    constructed, its cache holds at most 101 of them: a new image is
    stored after the oldest one was dropped whenever more than 100 are
    held. *)
Theorem cache_size_at_most_101 (lib : library) (s : QRSettings)
        (trace : list call) :
  (cache_size (get_statistics (run lib (init s) trace)) <= 101)%nat.
Proof.
  apply run_bounded. split; [constructor | simpl; lia].
Qed.
End Reachable.

(** X22. The cache is looked up by [hash(data)], the style and the error
    correction level, not by the text: once a text was rendered, a
    request for a text with the same hash under the same style returns
    the image of the first text, renders nothing and leaves the generator
    as it is. For the same text this is the cache hit; for another text
    with the same hash it is the image of the wrong text. *)
Theorem same_hash_returns_cached_image (lib : library) (st : t)
        (data other : string) (style : option string) (img : string) :
  str_hash lib other = str_hash lib data ->
  fst (generate_qr_image lib st data style) = Ret img ->
  generate_qr_image lib (snd (generate_qr_image lib st data style)) other style
  = (Ret img, snd (generate_qr_image lib st data style)).
Proof.
  intros Hhash Hfirst.
  assert (Hkey : forall st', settings st' = settings st ->
                             cache_key lib st' other style
                             = cache_key lib st data style).
  { intros st' Hs. unfold cache_key. now rewrite Hhash, Hs. }
  unfold generate_qr_image in Hfirst |- *. cbv zeta in Hfirst |- *.
  destruct (dict_get (cache_key lib st data style) (cache st)) as [hit|] eqn:Hget.
  - cbn [fst snd] in *. injection Hfirst as ->.
    rewrite (Hkey st eq_refl), Hget. reflexivity.
  - destruct (render lib data style (settings st)) as [img0|e]; [|discriminate].
    cbn [fst snd] in *. injection Hfirst as ->.
    match goal with
    | |- context [cache_key lib ?st' other style] =>
        rewrite (Hkey st' eq_refl)
    end.
    cbn [cache]. now rewrite dict_get_set_same.
Qed.

Lemma substring_zero_length (i : nat) :
  forall s, substring i 0 s = "".
Proof.
  induction i as [|i IH]; intros [|c s]; simpl; try reflexivity. apply IH.
Qed.

Lemma substring_whole (s : string) : substring 0 (String.length s) s = s.
Proof. induction s as [|c s IH]; simpl; [reflexivity | now rewrite IH]. Qed.

Lemma substring_split (i : nat) :
  forall a b s,
    substring i (a + b) s = substring i a s ++ substring (i + a) b s.
Proof.
  induction i as [|i IH]; intros a b s.
  - revert s. induction a as [|a IHa]; intros s.
    + simpl. now rewrite substring_zero_length.
    + destruct s as [|c s]; simpl; [now destruct b|].
      now rewrite IHa.
  - destruct s as [|c s]; simpl.
    + now destruct (a + b)%nat, a, b.
    + apply IH.
Qed.

Lemma substring_past_end (i : nat) :
  forall n s,
    (String.length s - i <= n)%nat ->
    substring i n s = substring i (String.length s - i) s.
Proof.
  induction i as [|i IH]; intros n s Hn.
  - rewrite Nat.sub_0_r in *. revert n Hn.
    induction s as [|c s IHs]; intros n Hn; simpl in *.
    + now destruct n.
    + destruct n as [|n]; [lia|]. simpl. f_equal. apply IHs. lia.
  - destruct s as [|c s]; simpl.
    + now destruct n.
    + apply IH. simpl in Hn. exact Hn.
Qed.

Lemma substring_length (i : nat) :
  forall n s,
    String.length (substring i n s) = Nat.min n (String.length s - i).
Proof.
  induction i as [|i IH]; intros n s.
  - rewrite Nat.sub_0_r. revert n.
    induction s as [|c s IHs]; intros [|n]; simpl; try reflexivity.
    now rewrite IHs.
  - destruct s as [|c s]; simpl; [now destruct n | apply IH].
Qed.

Lemma range_from_chunks (s : string) (size : nat) :
  (0 < size)%nat ->
  forall fuel start,
    (String.length s - start <= fuel)%nat ->
    String.concat ""
      (map (fun i => substring i size s)
           (range_from fuel start (String.length s) size))
    = substring start (String.length s - start) s
    /\ Forall (fun c => (0 < String.length c <= size)%nat)
              (map (fun i => substring i size s)
                   (range_from fuel start (String.length s) size))
    /\ length (range_from fuel start (String.length s) size)
       = chunk_count (String.length s - start) size.
Proof.
  intros Hsize. unfold chunk_count.
  induction fuel as [|fuel IH]; intros start Hfuel.
  - simpl. replace (String.length s - start)%nat with 0%nat by lia.
    rewrite substring_zero_length. repeat split; [constructor|].
    symmetry. apply Nat.div_small. lia.
  - cbn [range_from].
    destruct (Nat.ltb start (String.length s)) eqn:Hlt.
    + apply Nat.ltb_lt in Hlt.
      destruct (IH (start + size)%nat ltac:(lia)) as (Hcat & Hall & Hcount).
      cbn [map]. rewrite concat_empty_cons, Hcat. repeat split.
      * destruct (Nat.le_gt_cases size (String.length s - start)) as [Hle | Hgt].
        -- replace (String.length s - start)%nat
             with (size + (String.length s - (start + size)))%nat by lia.
           symmetry. apply substring_split.
        -- replace (String.length s - (start + size))%nat with 0%nat by lia.
           rewrite substring_zero_length.
           rewrite (substring_past_end start size s) by lia.
           clear. induction (substring _ _ s) as [|c a IHa]; simpl;
             [reflexivity | now rewrite IHa].
      * constructor; [|exact Hall]. rewrite substring_length. lia.
      * cbn [length]. rewrite Hcount.
        destruct (Nat.le_gt_cases size (String.length s - start)) as [Hle | Hgt].
        -- replace (String.length s - start + size - 1)%nat
             with ((String.length s - (start + size) + size - 1) + 1 * size)%nat
             by lia.
           rewrite Nat.div_add by lia. lia.
        -- replace (String.length s - (start + size))%nat with 0%nat by lia.
           rewrite Nat.div_small by lia.
           apply Nat.div_unique with (r := (String.length s - start - 1)%nat);
             lia.
    + apply Nat.ltb_ge in Hlt. simpl.
      replace (String.length s - start)%nat with 0%nat by lia.
      rewrite substring_zero_length. repeat split; [constructor|].
      symmetry. apply Nat.div_small. lia.
Qed.

(** X23. For a positive chunk size [_split_data] cuts the base64 text
    into chunks that are not empty, hold at most [chunk_size] characters
    each and, put together in order, are the base64 text; there are
    [ceil(len / chunk_size)] of them. A chunk size of 0 raises
    [ValueError], and a negative one returns no chunk at all, whatever
    the data. *)
Theorem _split_data_chunks (lib : library) (data : string) (chunk_size : Z) :
  match _split_data lib data chunk_size with
  | Ret chunks =>
      if Z.ltb chunk_size 0 then chunks = []
      else
        String.concat "" chunks = b64encode_utf8 lib data
        /\ Forall (fun c => (0 < String.length c <= Z.to_nat chunk_size)%nat)
                  chunks
        /\ length chunks
           = chunk_count (String.length (b64encode_utf8 lib data))
                         (Z.to_nat chunk_size)
  | Raise e => e = ValueError /\ chunk_size = 0%Z
  end.
Proof.
  unfold _split_data.
  destruct (Z.eqb_spec chunk_size 0) as [->|Hne]; [now split|].
  destruct (Z.ltb_spec chunk_size 0) as [Hneg|Hpos]; [reflexivity|].
  destruct (range_from_chunks (b64encode_utf8 lib data) (Z.to_nat chunk_size)
              ltac:(lia) (String.length (b64encode_utf8 lib data)) 0%nat
              ltac:(lia)) as (Hcat & Hall & Hcount).
  rewrite Nat.sub_0_r in *. rewrite substring_whole in Hcat.
  rewrite length_map. now repeat split.
Qed.

Lemma images_of_chunks_length (lib : library) (chunks : list string) :
  forall st images,
    images_of_chunks lib st chunks images -> length images = length chunks.
Proof.
  induction chunks as [|chunk rest IH]; intros st [|img more] Himgs;
    simpl in Himgs; try contradiction; [reflexivity|].
  destruct Himgs as [_ Hmore]. simpl. f_equal. exact (IH _ _ Hmore).
Qed.

(** The loop appends the image of each chunk, in the order of the chunks,
    to the images it starts with, and returns exactly when every chunk
    yields an image. *)
Lemma chunk_images_in_order (lib : library) (chunks : list string) :
  forall st qr_images result,
    fst (chunk_images lib st chunks qr_images) = Ret result
    <-> exists chunk_qrs,
          images_of_chunks lib st chunks chunk_qrs
          /\ result = List.app qr_images chunk_qrs.
Proof.
  induction chunks as [|chunk rest IH]; intros st qr_images result.
  - cbn [chunk_images fst]. split.
    + intros [= <-]. exists []. split; [exact I | now rewrite List.app_nil_r].
    + intros ([|img more] & Himgs & ->); [|contradiction].
      now rewrite List.app_nil_r.
  - cbn [chunk_images images_of_chunks].
    destruct (generate_qr_image lib st chunk (Some "live")) as [[img|e] st'];
      cbn [fst snd].
    + rewrite IH. split.
      * intros (more & Hmore & ->). exists (img :: more).
        split; [now split | now rewrite <- List.app_assoc].
      * intros ([|img' more] & Himgs & ->); [contradiction|].
        destruct Himgs as [[= <-] Hmore]. exists more.
        split; [exact Hmore | now rewrite <- List.app_assoc].
    + split; [discriminate|].
      intros ([|img' more] & Himgs & _); [contradiction|].
      destruct Himgs as [Himg _]. discriminate.
Qed.

(** X24. [generate_chunked_qr_codes] returns a list exactly when the data
    can be split and the metadata and every chunk yield an image. The
    list then starts with the image of the metadata text (style
    ["professional"]), followed by the images of the chunks of the base64
    text in the order of the chunks (style ["live"]), one per chunk, each
    generated on the generator as the image before it left it. A chunk
    size of [None] or 0 stands for [max_data_size]. *)
Theorem generate_chunked_qr_codes_metadata_then_chunks `{Externals}
        (lib : library) (now : Q) (st : t) (data : string)
        (max_chunk_size : option Z) (qr_images : list string) :
  fst (generate_chunked_qr_codes lib now st data max_chunk_size) = Ret qr_images
  <-> exists chunks metadata_qr chunk_qrs,
        _split_data lib data
          (match max_chunk_size with
           | Some n => if Z.eqb n 0 then max_data_size (settings st) else n
           | None => max_data_size (settings st)
           end) = Ret chunks
        /\ fst (generate_qr_image lib st (metadata_json st now data chunks)
                  (Some "professional")) = Ret metadata_qr
        /\ images_of_chunks lib
             (snd (generate_qr_image lib st (metadata_json st now data chunks)
                     (Some "professional")))
             chunks chunk_qrs
        /\ length chunk_qrs = length chunks
        /\ qr_images = metadata_qr :: chunk_qrs.
Proof.
  unfold generate_chunked_qr_codes.
  destruct (_split_data lib data _) as [chunks|e].
  - destruct (generate_qr_image lib st (metadata_json st now data chunks)
                (Some "professional")) as [[img|e] st'] eqn:Hmeta.
    + rewrite chunk_images_in_order. split.
      * intros (chunk_qrs & Himgs & ->). exists chunks, img, chunk_qrs.
        rewrite Hmeta. cbn [fst snd].
        repeat split; try assumption.
        exact (images_of_chunks_length _ _ _ _ Himgs).
      * intros (chunks' & img' & chunk_qrs & [= <-] & Himg & Himgs & _ & ->).
        rewrite Hmeta in Himg, Himgs. cbn [fst snd] in Himg, Himgs.
        injection Himg as <-. now exists chunk_qrs.
    + cbn [fst]. split; [discriminate|].
      intros (chunks' & img' & chunk_qrs & [= <-] & Himg & _).
      rewrite Hmeta in Himg. discriminate.
  - cbn [fst]. split; [discriminate|].
    intros (chunks' & img' & chunk_qrs & Hsplit & _). discriminate.
Qed.

End QRGeneratorCache.

(* ===================================================================== *)
(** * The records of the enabled chains *)
(* ===================================================================== *)

Section EnabledRecords.
Import Py BlockchainVerifier.

(** X25. After any sequence of calls, [get_all_blockchain_info] returns
    the cached records of the enabled chains, in the order of the cache
    and nothing else, and [get_blockchain_hashes] returns the hashes of
    exactly these records. *)
Theorem get_all_blockchain_info_lists_enabled_records
        (s : BlockchainSettings) (trace : list (world * call)) (w : world) :
  fst (get_all_blockchain_info w (run (init s) trace))
  = filter (fun kv => str_in (fst kv)
                        (enabled_chains (settings (run (init s) trace))))
           (cached_blocks (run (init s) trace))
  /\ fst (get_blockchain_hashes w (run (init s) trace))
     = map (fun kv => (fst kv, block_hash (snd kv)))
           (fst (get_all_blockchain_info w (run (init s) trace))).
Proof.
  destruct (reachable_well_formed s trace) as (_ & _ & _ & _ & Hd & _).
  set (bv := run (init s) trace) in *.
  assert (Hall : fst (get_all_blockchain_info w bv)
                 = filter (fun kv => str_in (fst kv) (enabled_chains (settings bv)))
                          (cached_blocks bv)).
  { unfold get_all_blockchain_info. cbn [fst].
    rewrite (fold_dict_set_filter
               (fun k => str_in k (enabled_chains (settings bv)))
               (fun kv : string * BlockchainInfo => snd kv)
               (cached_blocks bv) Hd [] (fun k _ => eq_refl)).
    cbn [app]. rewrite <- (map_id (filter _ _)) at 2.
    apply map_ext. now intros [k v]. }
  split; [exact Hall|].
  rewrite Hall. now apply get_blockchain_hashes_items.
Qed.

End EnabledRecords.

(* ===================================================================== *)
(** * The median and a single deviating server *)
(* ===================================================================== *)

Section MedianBounds.
Import Py TimeProvider.








End MedianBounds.

(* ===================================================================== *)
(** * The update loop *)
(* ===================================================================== *)

Section UpdateLoop.
Import Py Core.
Context `{Externals}.

Lemma generate_single_qr_frame (w : world) (p : t) (data : pyval) :
  config (snd (generate_single_qr w p data)) = config p
  /\ _update_count (snd (generate_single_qr w p data)) = _update_count p
  /\ _last_update_time (snd (generate_single_qr w p data)) = _last_update_time p
  /\ _sequence_number (snd (generate_single_qr w p data))
     = match fst (generate_single_qr w p data) with
       | Ret _ => (_sequence_number p + 1)%Z
       | Raise _ => _sequence_number p
       end.
Proof.
  unfold generate_single_qr.
  destruct (IdentityManager.get_identity_hash _ _) as [identity im].
  destruct (TimeProvider.get_time_server_verification _ _) as [tv tp].
  destruct (generate_qr_image w _); now repeat split.
Qed.

Lemma _update_pass_counters (w : world) (start_time end_time : Q)
      (u : user_input) (p : t) :
  (_update_count (snd (_update_pass w start_time end_time u p))
   = _update_count p + 1
   /\ _sequence_number (snd (_update_pass w start_time end_time u p))
      = _sequence_number p + 1)%Z
  \/ (_update_count (snd (_update_pass w start_time end_time u p))
      = _update_count p
      /\ _sequence_number (snd (_update_pass w start_time end_time u p))
         = _sequence_number p).
Proof.
  unfold _update_pass.
  destruct (generate_single_qr_frame w p (loop_user_data u))
    as (_ & Hcount & _ & Hseq).
  destruct (generate_single_qr w p (loop_user_data u)) as [[r|e] p1];
    cbn [fst snd] in *; [left | right];
    cbn [_update_count _sequence_number]; split; lia.
Qed.

Lemma after_counters (p : t) (e : event) :
  (0 <= _update_count p <= _sequence_number p)%Z ->
  (0 <= _update_count (after p e) <= _sequence_number (after p e))%Z.
Proof.
  intros Hinv. destruct e as [w [data | qr_json] | w start_time end_time u];
    cbn [after].
  - destruct (generate_single_qr_frame w p data) as (_ & Hcount & _ & Hseq).
    rewrite Hcount, Hseq.
    destruct (fst (generate_single_qr w p data)); lia.
  - destruct (verify_qr_data_frame w p qr_json) as (_ & _ & _ & _ & Hseq & Hcount).
    rewrite Hcount, Hseq. exact Hinv.
  - destruct (_update_pass_counters w start_time end_time u p)
      as [[Hc Hs] | [Hc Hs]]; rewrite Hc, Hs; lia.
Qed.

Lemma history_counters (events : list event) :
  forall p,
    (0 <= _update_count p <= _sequence_number p)%Z ->
    (0 <= _update_count (history p events)
     <= _sequence_number (history p events))%Z.
Proof.
  induction events as [|e events IH]; intros p Hinv; [exact Hinv|].
  apply IH. now apply after_counters.
Qed.

(** X27. Passes of the update loop and calls from outside, in any
    order, keep [0 <= _update_count <= _sequence_number]. A pass never
    sleeps a negative time. A pass that generates a packet sleeps until
    at least [update_interval] has passed since its start, counts one
    update and one sequence number, and records its start time and the
    packet; a pass whose generation fails sleeps one second and leaves
    the counters and the current packet as they were. *)
Theorem update_pass_paces_and_counts (c : QRLPConfig)
        (ts : TimeProvider.TimeSettings)
        (bs : BlockchainVerifier.BlockchainSettings)
        (ids : IdentityManager.IdentitySettings) (w0 : world)
        (events : list event) (w : world) (start_time end_time : Q)
        (u : user_input) :
  let p := history (init c ts bs ids w0) events in
  let pass := _update_pass w start_time end_time u p in
  (0 <= _update_count p <= _sequence_number p)%Z
  /\ 0 <= fst pass
  /\ match fst (generate_single_qr w p (loop_user_data u)) with
     | Ret (q, _) =>
         update_interval (config p) <= (end_time - start_time) + fst pass
         /\ _update_count (snd pass) = (_update_count p + 1)%Z
         /\ _sequence_number (snd pass) = (_sequence_number p + 1)%Z
         /\ _last_update_time (snd pass) = start_time
         /\ get_current_qr_data (snd pass) = Some q
     | Raise _ =>
         fst pass = 1
         /\ _update_count (snd pass) = _update_count p
         /\ _sequence_number (snd pass) = _sequence_number p
         /\ get_current_qr_data (snd pass) = get_current_qr_data p
     end.
Proof.
  intros p pass.
  split; [apply history_counters; simpl; lia|].
  unfold pass, _update_pass.
  destruct (generate_single_qr_frame w p (loop_user_data u))
    as (Hconfig & Hcount & _ & Hseq).
  pose proof (generate_single_qr_current w p (loop_user_data u)) as Hcur.
  destruct (generate_single_qr w p (loop_user_data u)) as [[[q img]|e] p1];
    cbn [fst snd] in *.
  - rewrite Hconfig.
    destruct (Qle_bool (update_interval (config p) - (end_time - start_time)) 0)
      eqn:Hle.
    + apply Qle_bool_iff in Hle. split; [lra|]. split; [lra|].
      unfold get_current_qr_data in *.
      cbn [_update_count _sequence_number _last_update_time _current_qr_data].
      rewrite Hcount, Hseq, Hcur. now repeat split.
    + assert (Hgt : 0 < update_interval (config p) - (end_time - start_time)).
      { apply Qnot_le_lt. intros Hneg. apply Qle_bool_iff in Hneg. congruence. }
      split; [lra|]. split; [lra|].
      unfold get_current_qr_data in *.
      cbn [_update_count _sequence_number _last_update_time _current_qr_data].
      rewrite Hcount, Hseq, Hcur. now repeat split.
  - split; [lra|]. now repeat split.
Qed.

End UpdateLoop.

(* ===================================================================== *)
(** * Sorted keys: the digest and the order of insertion *)
(* ===================================================================== *)

Section SortedKeys.
Import Py Json.
Local Open Scope string_scope.

Lemma string_compare_trans (a : string) :
  forall b c,
    String.compare a b <> Gt -> String.compare b c <> Gt ->
    String.compare a c <> Gt.
Proof.
  induction a as [|x a IH]; intros [|y b] [|z c]; simpl; try congruence.
  unfold Ascii.compare.
  destruct (N.compare_spec (N_of_ascii x) (N_of_ascii y)) as [Exy | Lxy | Gxy];
    destruct (N.compare_spec (N_of_ascii y) (N_of_ascii z)) as [Eyz | Lyz | Gyz];
    destruct (N.compare_spec (N_of_ascii x) (N_of_ascii z)) as [Exz | Lxz | Gxz];
    try congruence; try lia.
  apply IH.
Qed.

Lemma string_leb_trans (a b c : string) :
  String.leb a b = true -> String.leb b c = true -> String.leb a c = true.
Proof.
  unfold String.leb. intros Hab Hbc.
  pose proof (string_compare_trans a b c) as Htrans.
  destruct (String.compare a b), (String.compare b c), (String.compare a c);
    try reflexivity; try discriminate; exfalso; apply Htrans; congruence.
Qed.

Lemma insert_item_permutation (kv : string * string) (l : list (string * string)) :
  Permutation (kv :: l) (insert_item kv l).
Proof.
  induction l as [|kv' r IH]; simpl; [apply Permutation_refl|].
  destruct (String.leb (fst kv) (fst kv')); [apply Permutation_refl|].
  apply Permutation_trans with (kv' :: kv :: r);
    [apply perm_swap | now apply perm_skip].
Qed.

Lemma sort_items_permutation (l : list (string * string)) :
  Permutation l (sort_items l).
Proof.
  induction l as [|kv r IH]; simpl; [constructor|].
  apply Permutation_trans with (kv :: sort_items r);
    [now apply perm_skip | apply insert_item_permutation].
Qed.

Lemma insert_item_sorted (kv : string * string) (l : list (string * string)) :
  StronglySorted (fun a b => String.leb (fst a) (fst b) = true) l ->
  StronglySorted (fun a b => String.leb (fst a) (fst b) = true)
                 (insert_item kv l).
Proof.
  induction 1 as [|kv' r Hr IH Hall]; simpl.
  - constructor; constructor.
  - destruct (String.leb (fst kv) (fst kv')) eqn:Hle.
    + constructor; [now constructor|].
      constructor; [exact Hle|].
      rewrite Forall_forall in *. intros x Hx.
      apply string_leb_trans with (fst kv'); [exact Hle | now apply Hall].
    + constructor; [exact IH|].
      rewrite Forall_forall in *. intros x Hx.
      apply (Permutation_in _ (Permutation_sym (insert_item_permutation kv r)))
        in Hx.
      destruct Hx as [<- | Hx]; [|now apply Hall].
      destruct (String.leb_total (fst kv) (fst kv')) as [Hl | Hl];
        [congruence | exact Hl].
Qed.

Lemma sort_items_sorted (l : list (string * string)) :
  StronglySorted (fun a b => String.leb (fst a) (fst b) = true) (sort_items l).
Proof.
  induction l as [|kv r IH]; simpl; [constructor | now apply insert_item_sorted].
Qed.

(** A list sorted by key, with distinct keys, is the only sorted
    arrangement of its items. *)
Lemma sorted_items_unique (l1 : list (string * string)) :
  forall l2,
    StronglySorted (fun a b => String.leb (fst a) (fst b) = true) l1 ->
    StronglySorted (fun a b => String.leb (fst a) (fst b) = true) l2 ->
    Permutation l1 l2 -> NoDup (map fst l1) -> l1 = l2.
Proof.
  induction l1 as [|a l1 IH]; intros l2 Hs1 Hs2 Hperm Hnd.
  - apply Permutation_nil in Hperm. now subst.
  - destruct l2 as [|b l2];
      [apply Permutation_sym, Permutation_nil in Hperm; discriminate|].
    inversion Hs1 as [|? ? Hs1' Ha]; subst.
    inversion Hs2 as [|? ? Hs2' Hb]; subst.
    inversion Hnd as [|? ? Hfresh Hnd']; subst.
    rewrite Forall_forall in Ha, Hb.
    assert (Hab : a = b).
    { assert (Hina : In a (b :: l2)) by (apply (Permutation_in _ Hperm); now left).
      assert (Hinb : In b (a :: l1))
        by (apply (Permutation_in _ (Permutation_sym Hperm)); now left).
      destruct Hina as [Heq | Hina]; [now symmetry|].
      destruct Hinb as [Heq | Hinb]; [exact Heq|].
      exfalso. apply Hfresh.
      rewrite (String.leb_antisym (fst a) (fst b) (Ha b Hinb) (Hb a Hina)).
      now apply in_map. }
    subst b. f_equal. apply IH; try assumption.
    now apply Permutation_cons_inv in Hperm.
Qed.

Lemma sort_items_order (l1 l2 : list (string * string)) :
  Permutation l1 l2 -> NoDup (map fst l1) -> sort_items l1 = sort_items l2.
Proof.
  intros Hperm Hnd. apply sorted_items_unique.
  - apply sort_items_sorted.
  - apply sort_items_sorted.
  - apply Permutation_trans with l1;
      [apply Permutation_sym, sort_items_permutation|].
    apply Permutation_trans with l2; [exact Hperm | apply sort_items_permutation].
  - apply (Permutation_NoDup (l := map fst l1)); [|exact Hnd].
    apply Permutation_map, sort_items_permutation.
Qed.

(** [json.dumps(d, sort_keys=True)] does not depend on the order of the
    items of [d]. *)
Lemma dumps_sorted_order (d d' : list (string * pyval)) :
  Permutation d d' -> NoDup (map fst d) ->
  dumps_sorted (PDict d) = dumps_sorted (PDict d').
Proof.
  intros Hperm Hnd. unfold dumps_sorted. cbn [dumps_with].
  rewrite (sort_items_order
             (map (fun kv => (fst kv, dumps_with true ", " ": " (snd kv))) d)
             (map (fun kv => (fst kv, dumps_with true ", " ": " (snd kv))) d'));
    [reflexivity | now apply Permutation_map |].
  rewrite List.map_map. exact Hnd.
Qed.

Lemma permutation_empty {A : Type} (l l' : list A) :
  Permutation l l' ->
  match l, l' with
  | [], [] => True
  | _ :: _, _ :: _ => True
  | _, _ => False
  end.
Proof.
  intros Hperm. apply Permutation_length in Hperm.
  destruct l, l'; simpl in *; try exact I; discriminate.
Qed.

Section Digest.
Import IdentityManager.
Context `{Externals}.

(** X28. The digest does not depend on the order in which system
    information, files and custom data were entered: two instances with
    the same settings and creation time, whose three dictionaries hold
    the same items in any order, have the same digest. *)
Theorem identity_hash_ignores_insertion_order (im im' : t)
        (info info' : IdentityInfo) :
  identity_info im = Some info ->
  identity_info im' = Some info' ->
  settings im = settings im' ->
  creation_time info = creation_time info' ->
  Permutation (system_info info) (system_info info') ->
  Permutation (file_hashes info) (file_hashes info') ->
  Permutation (custom_data info) (custom_data info') ->
  NoDup (dict_keys (system_info info)) ->
  NoDup (dict_keys (file_hashes info)) ->
  NoDup (dict_keys (custom_data info)) ->
  _generate_identity_hash im = _generate_identity_hash im'.
Proof.
  intros Hinfo Hinfo' Hset Htime Hsys Hfiles Hcustom Hdsys Hdfiles Hdcustom.
  unfold _generate_identity_hash. rewrite Hinfo, Hinfo', Hset, Htime.
  assert (Esys : match system_info info with
                 | [] => []
                 | _ => ["system:" ++ dumps_sorted (PDict (system_info info))]
                 end
                 = match system_info info' with
                   | [] => []
                   | _ => ["system:" ++ dumps_sorted (PDict (system_info info'))]
                   end).
  { pose proof (permutation_empty _ _ Hsys) as He.
    rewrite (dumps_sorted_order _ _ Hsys Hdsys).
    destruct (system_info info), (system_info info');
      first [reflexivity | contradiction]. }
  assert (Efiles :
            match file_hashes info with
            | [] => []
            | _ => ["files:" ++ dumps_sorted
                      (PDict (map (fun kv => (fst kv, PStr (snd kv)))
                                  (file_hashes info)))]
            end
            = match file_hashes info' with
              | [] => []
              | _ => ["files:" ++ dumps_sorted
                        (PDict (map (fun kv => (fst kv, PStr (snd kv)))
                                    (file_hashes info')))]
              end).
  { pose proof (permutation_empty _ _ Hfiles) as He.
    rewrite (dumps_sorted_order
               (map (fun kv => (fst kv, PStr (snd kv))) (file_hashes info))
               (map (fun kv => (fst kv, PStr (snd kv))) (file_hashes info')))
      by (first [ now apply Permutation_map
                | rewrite List.map_map; exact Hdfiles ]).
    destruct (file_hashes info), (file_hashes info');
      first [reflexivity | contradiction]. }
  assert (Ecustom : match custom_data info with
                    | [] => []
                    | _ => ["custom:" ++ dumps_sorted (PDict (custom_data info))]
                    end
                    = match custom_data info' with
                      | [] => []
                      | _ => ["custom:" ++ dumps_sorted (PDict (custom_data info'))]
                      end).
  { pose proof (permutation_empty _ _ Hcustom) as He.
    rewrite (dumps_sorted_order _ _ Hcustom Hdcustom).
    destruct (custom_data info), (custom_data info');
      first [reflexivity | contradiction]. }
  cbv zeta. now rewrite Esys, Efiles, Ecustom.
Qed.
End Digest.

End SortedKeys.

(* ===================================================================== *)
(** * The indenting encoder is read back *)
(* ===================================================================== *)

Section JsonIndent.
Import Py Json.
Local Open Scope string_scope.

Lemma skip_ws_spaces (n : nat) (s : string) :
  skip_ws (spaces n ++ s) = skip_ws s.
Proof. induction n as [|n IH]; [reflexivity | exact IH]. Qed.

Lemma skip_ws_newline_indent (level : nat) (s : string) :
  skip_ws (newline_indent level ++ s) = skip_ws s.
Proof. unfold newline_indent. cbn [append skip_ws]. apply skip_ws_spaces. Qed.

Lemma neutral_newline_indent (level : nat) (s : string) :
  neutral (newline_indent level ++ s) = true.
Proof. reflexivity. Qed.

Lemma newline_indent_length (level : nat) :
  (1 <= String.length (newline_indent level))%nat.
Proof. unfold newline_indent. cbn [String.length]. lia. Qed.

Lemma dumps_indent_starts_value (level : nat) (v : pyval) :
  json_native v = true -> starts_value (dumps_indent level v) = true.
Proof.
  destruct v as [|[|]|z|lit|s|l|d]; intros Hn; try reflexivity.
  - apply (number_starts_value _ _ (scan_number_encode_int z)).
  - apply (number_starts_value _ _ (float_literal_scan lit Hn)).
  - now destruct l.
  - now destruct d.
Qed.

Lemma join_indent_starts_value (level : nat) (sep : string) (x : pyval)
      (r : list pyval) :
  json_native x = true ->
  starts_value (join sep (map (dumps_indent level) (x :: r))) = true.
Proof.
  intros Hx. pose proof (dumps_indent_starts_value level x Hx) as Hs.
  destruct r as [|y r]; cbn [map join]; [exact Hs|].
  now apply starts_value_append.
Qed.

Lemma parse_elements_reads_back_indent (l : list pyval) :
  l <> [] ->
  Forall (fun v => json_native v = true /\ reads_back_indent v) l ->
  forall level fuel acc rest,
    (S (String.length
          (join (String "," (newline_indent (S level)))
                (map (dumps_indent (S level)) l))) <= fuel)%nat ->
    parse_elements fuel
      (join (String "," (newline_indent (S level))) (map (dumps_indent (S level)) l)
       ++ newline_indent level ++ String "]" rest) acc
    = Some ((rev acc ++ l)%list, rest).
Proof.
  induction l as [|x r IH]; intros Hne Hall level fuel acc rest Hfuel;
    [congruence|].
  inversion Hall as [|x' r' [Hnx Hrx] Hr]; subst.
  destruct fuel as [|fuel]; [lia|]. apply le_S_n in Hfuel.
  destruct r as [|y r].
  - cbn [map join] in *. cbn [parse_elements].
    rewrite (Hrx (S level) fuel _ Hfuel (neutral_newline_indent level _)).
    rewrite skip_ws_newline_indent.
    cbn. reflexivity.
  - assert (Hjoin :
      join (String "," (newline_indent (S level)))
           (map (dumps_indent (S level)) (x :: y :: r))
      = dumps_indent (S level) x
        ++ String "," (newline_indent (S level)
                       ++ join (String "," (newline_indent (S level)))
                               (map (dumps_indent (S level)) (y :: r))))
      by reflexivity.
    rewrite Hjoin in *. rewrite length_append in Hfuel.
    cbn [String.length] in Hfuel. rewrite length_append in Hfuel.
    rewrite append_assoc. cbn [append]. rewrite append_assoc.
    cbn [parse_elements].
    rewrite (Hrx (S level) fuel) by first [lia | reflexivity].
    cbn [skip_ws is_ws Ascii.eqb Bool.eqb orb andb].
    rewrite skip_ws_newline_indent.
    inversion Hr as [|y' r'' [Hny _] _]; subst.
    rewrite (starts_value_skip_ws _ _
               (join_indent_starts_value (S level) _ y r Hny)).
    rewrite (IH ltac:(discriminate) Hr level fuel (x :: acc) rest ltac:(lia)).
    cbn [rev]. now rewrite <- List.app_assoc.
Qed.

Lemma member_indent_append (level : nat) (kv : string * pyval) (rest : string) :
  member_indent level kv ++ rest
  = String dq (escape (fst kv)
                 ++ String dq
                      (String ":" (String " "
                                     (dumps_indent level (snd kv) ++ rest)))).
Proof.
  unfold member_indent, encode_str. cbn [append].
  now rewrite !append_assoc.
Qed.

Lemma parse_members_reads_back_indent (d : list (string * pyval)) :
  d <> [] ->
  Forall (fun kv => json_native (snd kv) = true /\ reads_back_indent (snd kv)) d ->
  forall level fuel acc rest,
    (S (String.length
          (join (String "," (newline_indent (S level)))
                (map (member_indent (S level)) d))) <= fuel)%nat ->
    parse_members fuel
      (join (String "," (newline_indent (S level))) (map (member_indent (S level)) d)
       ++ newline_indent level ++ String "}" rest) acc
    = Some ((rev acc ++ d)%list, rest).
Proof.
  induction d as [|[k v] r IH]; intros Hne Hall level fuel acc rest Hfuel;
    [congruence|].
  inversion Hall as [|kv r' [Hnv Hrv] Hr]; subst. cbn [snd] in *.
  destruct fuel as [|fuel]; [lia|]. apply le_S_n in Hfuel.
  assert (Hlen : (String.length (dumps_indent (S level) v)
                  <= String.length (member_indent (S level) (k, v)))%nat).
  { unfold member_indent. cbn [fst snd]. rewrite !length_append. lia. }
  destruct r as [|kv' r].
  - cbn [map join] in *. rewrite member_indent_append. cbn [fst snd].
    cbn [parse_members]. rewrite Ascii.eqb_refl, scan_string_escape.
    cbn [skip_ws is_ws Ascii.eqb Bool.eqb orb andb].
    rewrite (starts_value_skip_ws _ _ (dumps_indent_starts_value (S level) v Hnv)).
    rewrite (Hrv (S level) fuel _ ltac:(lia) (neutral_newline_indent level _)).
    rewrite skip_ws_newline_indent.
    cbn. reflexivity.
  - assert (Hjoin :
      join (String "," (newline_indent (S level)))
           (map (member_indent (S level)) ((k, v) :: kv' :: r))
      = member_indent (S level) (k, v)
        ++ String "," (newline_indent (S level)
                       ++ join (String "," (newline_indent (S level)))
                               (map (member_indent (S level)) (kv' :: r))))
      by reflexivity.
    rewrite Hjoin in *. rewrite length_append in Hfuel.
    cbn [String.length] in Hfuel. rewrite length_append in Hfuel.
    rewrite append_assoc, member_indent_append. cbn [fst snd append].
    rewrite append_assoc.
    cbn [parse_members]. rewrite Ascii.eqb_refl, scan_string_escape.
    cbn [skip_ws is_ws Ascii.eqb Bool.eqb orb andb].
    rewrite (starts_value_skip_ws _ _ (dumps_indent_starts_value (S level) v Hnv)).
    rewrite (Hrv (S level) fuel) by first [lia | reflexivity].
    cbn [skip_ws is_ws Ascii.eqb Bool.eqb orb andb].
    rewrite skip_ws_newline_indent.
    assert (Hnext :
      skip_ws (join (String "," (newline_indent (S level)))
                    (map (member_indent (S level)) (kv' :: r))
               ++ newline_indent level ++ String "}" rest)
      = join (String "," (newline_indent (S level)))
             (map (member_indent (S level)) (kv' :: r))
        ++ newline_indent level ++ String "}" rest).
    { apply starts_value_skip_ws.
      destruct r; cbn [map join]; unfold member_indent, encode_str; reflexivity. }
    rewrite Hnext.
    rewrite (IH ltac:(discriminate) Hr level fuel ((k, v) :: acc) rest ltac:(lia)).
    cbn [rev]. now rewrite <- List.app_assoc.
Qed.

Lemma forallb_Forall_indent (l : list pyval) :
  forallb json_native l = true ->
  Forall (fun v => json_native v = true -> reads_back_indent v) l ->
  Forall (fun v => json_native v = true /\ reads_back_indent v) l.
Proof.
  induction l as [|x r IH]; intros Hn Hall; [constructor|].
  cbn [forallb] in Hn. apply andb_true_iff in Hn as [Hx Hr].
  inversion Hall; subst. constructor; [split; auto | auto].
Qed.

Lemma forallb_Forall_indent_items (d : list (string * pyval)) :
  forallb (fun kv => json_native (snd kv)) d = true ->
  Forall (fun kv => json_native (snd kv) = true -> reads_back_indent (snd kv)) d ->
  Forall (fun kv => json_native (snd kv) = true /\ reads_back_indent (snd kv)) d.
Proof.
  induction d as [|x r IH]; intros Hn Hall; [constructor|].
  cbn [forallb] in Hn. apply andb_true_iff in Hn as [Hx Hr].
  inversion Hall; subst. constructor; [split; auto | auto].
Qed.

Lemma dumps_indent_list (level : nat) (x : pyval) (r : list pyval) :
  dumps_indent level (PList (x :: r))
  = String "["
      (newline_indent (S level)
       ++ (join (String "," (newline_indent (S level)))
                (map (dumps_indent (S level)) (x :: r))
           ++ newline_indent level ++ "]")).
Proof. reflexivity. Qed.

Lemma dumps_indent_dict (level : nat) (kv : string * pyval)
      (r : list (string * pyval)) :
  dumps_indent level (PDict (kv :: r))
  = String "{"
      (newline_indent (S level)
       ++ (join (String "," (newline_indent (S level)))
                (map (member_indent (S level)) (kv :: r))
           ++ newline_indent level ++ "}")).
Proof. reflexivity. Qed.

Lemma parse_value_reads_back_indent (v : pyval) :
  json_native v = true -> reads_back_indent v.
Proof.
  induction v as [|b|z|lit|s|l IH|d IH] using pyval_ind';
    intros Hn level fuel rest Hfuel Hrest.
  - destruct fuel; [simpl in Hfuel; lia | reflexivity].
  - destruct fuel; [destruct b; simpl in Hfuel; lia | destruct b; reflexivity].
  - pose proof (scan_number_encode_int z) as Hs.
    pose proof (starts_value_length _ (number_starts_value _ _ Hs)) as Hlen.
    destruct fuel; [cbn [dumps_indent] in Hfuel; lia|].
    apply parse_value_number. cbn [dumps_indent].
    rewrite (scan_number_local _ _ Hrest), Hs. reflexivity.
  - pose proof (float_literal_scan lit Hn) as Hs.
    pose proof (starts_value_length _ (number_starts_value _ _ Hs)) as Hlen.
    destruct fuel; [cbn [dumps_indent] in Hfuel; lia|].
    apply parse_value_number. cbn [dumps_indent].
    rewrite (scan_number_local _ _ Hrest), Hs. reflexivity.
  - destruct fuel; [simpl in Hfuel; lia|].
    cbn [dumps_indent]. unfold encode_str.
    cbn [append parse_value]. rewrite Ascii.eqb_refl.
    rewrite append_assoc. cbn [append]. now rewrite scan_string_escape.
  - rewrite json_native_list in Hn.
    pose proof (forallb_Forall_indent l Hn IH) as Hall.
    destruct l as [|x r].
    + destruct fuel; [simpl in Hfuel; lia | reflexivity].
    + rewrite dumps_indent_list in *.
      cbn [String.length] in Hfuel. rewrite !length_append in Hfuel.
      cbn [String.length] in Hfuel.
      pose proof (newline_indent_length (S level)) as Hnl.
      destruct fuel as [|fuel]; [lia|].
      cbn [append parse_value Ascii.eqb Bool.eqb dq andb].
      rewrite !append_assoc. rewrite skip_ws_newline_indent.
      inversion Hall as [|x' r' [Hnx _] _]; subst.
      pose proof (join_indent_starts_value (S level)
                    (String "," (newline_indent (S level))) x r Hnx) as Hstart.
      rewrite (starts_value_skip_ws _ _ Hstart).
      pose proof (parse_elements_reads_back_indent (x :: r) ltac:(discriminate)
                    Hall level fuel [] rest ltac:(lia)) as Hpe.
      destruct (join (String "," (newline_indent (S level)))
                     (map (dumps_indent (S level)) (x :: r))) as [|c j] eqn:Hj;
        [discriminate|].
      cbn [append] in *. unfold starts_value in Hstart.
      apply andb_true_iff in Hstart as [Hstart _].
      apply andb_true_iff in Hstart as [_ Hclose].
      apply negb_true_iff in Hclose. rewrite Hclose.
      rewrite Hpe. reflexivity.
  - rewrite json_native_dict in Hn. apply andb_true_iff in Hn as [Hkeys Hn].
    pose proof (forallb_Forall_indent_items d Hn IH) as Hall.
    destruct d as [|kv r].
    + destruct fuel; [simpl in Hfuel; lia | reflexivity].
    + rewrite dumps_indent_dict in *.
      cbn [String.length] in Hfuel. rewrite !length_append in Hfuel.
      cbn [String.length] in Hfuel.
      pose proof (newline_indent_length (S level)) as Hnl.
      destruct fuel as [|fuel]; [lia|].
      cbn [append parse_value Ascii.eqb Bool.eqb dq andb].
      rewrite !append_assoc. rewrite skip_ws_newline_indent.
      pose proof (parse_members_reads_back_indent (kv :: r) ltac:(discriminate)
                    Hall level fuel [] rest ltac:(lia)) as Hpm.
      assert (Hj : exists j,
                 join (String "," (newline_indent (S level)))
                      (map (member_indent (S level)) (kv :: r)) = String dq j).
      { destruct r; cbn [map join]; unfold member_indent, encode_str;
          cbn [append]; eexists; reflexivity. }
      destruct Hj as [j Hj]. rewrite Hj in *.
      cbn [append skip_ws is_ws Ascii.eqb Bool.eqb dq orb andb] in *.
      rewrite Hpm. cbn [rev app]. now rewrite dict_of_pairs_distinct.
Qed.

(** [json.loads] undoes [json.dumps(v, indent=2)] on every value [json]
    carries unchanged. *)
Lemma loads_dumps_indent (v : pyval) :
  json_native v = true -> loads (dumps_indent 0 v) = Ret v.
Proof.
  intros Hn. unfold loads.
  pose proof (dumps_indent_starts_value 0 v Hn) as Hstart.
  pose proof (starts_value_skip_ws _ "" Hstart) as Hskip.
  rewrite append_nil_r in Hskip. rewrite Hskip.
  pose proof (parse_value_reads_back_indent v Hn 0%nat
                (S (String.length (dumps_indent 0 v))) "" ltac:(lia) eq_refl)
    as Hp.
  rewrite append_nil_r in Hp. rewrite Hp. reflexivity.
Qed.

End JsonIndent.

(* ===================================================================== *)
(** * Identity manager: export and import *)
(* ===================================================================== *)

Section ExportImport.
Import Py IdentityManager.
Context `{Externals}.
Local Open Scope string_scope.

Lemma as_str_dict_strings (files : dict string) :
  as_str_dict (map (fun kv => (fst kv, PStr (snd kv))) files) = Some files.
Proof.
  induction files as [|[k s] r IH]; [reflexivity|].
  cbn [map fst snd as_str_dict]. now rewrite IH.
Qed.

Lemma export_data_native (info : IdentityInfo) :
  Json.json_native (PDict (system_info info)) = true ->
  Json.json_native (PDict (custom_data info)) = true ->
  NoDup (dict_keys (file_hashes info)) ->
  Json.json_native (export_data info) = true.
Proof.
  intros Hsys Hcustom Hfiles. unfold export_data.
  rewrite json_native_dict. cbn [map fst snd forallb].
  rewrite Hsys, Hcustom, (hashes_native _ Hfiles). reflexivity.
Qed.

Lemma read_identity_export_text (info : IdentityInfo) :
  fromisoformat (isoformat (creation_time info)) = Some (creation_time info) ->
  Json.json_native (PDict (system_info info)) = true ->
  Json.json_native (PDict (custom_data info)) = true ->
  NoDup (dict_keys (file_hashes info)) ->
  read_identity (export_text info) = Some info.
Proof.
  intros Hiso Hsys Hcustom Hfiles. unfold read_identity, export_text.
  rewrite (loads_dumps_indent _ (export_data_native info Hsys Hcustom Hfiles)).
  unfold export_data. cbn [dict_get String.eqb Ascii.eqb Bool.eqb].
  rewrite Hiso, as_str_dict_strings. now destruct info.
Qed.

(** X29. An exported identity is read back: when the ISO reader returns
    the creation time the ISO writer was given, and the dictionaries are
    values [json] carries unchanged, [export_identity] returns [True] and
    writes a text from which [import_identity] rebuilds the identity
    information that was exported, field by field, dropping the cached
    digest of the importing instance. *)
Theorem import_restores_exported_identity (w : world) (im im' : t)
        (path : string) (info : IdentityInfo) :
  identity_info im = Some info ->
  fromisoformat (isoformat (creation_time info)) = Some (creation_time info) ->
  Json.json_native (PDict (system_info info)) = true ->
  Json.json_native (PDict (custom_data info)) = true ->
  NoDup (dict_keys (file_hashes info)) ->
  exists_ w path = true ->
  load_identity w path = read_identity (export_text info) ->
  export_identity true im = (true, Some (export_text info))
  /\ read_identity (export_text info) = Some info
  /\ fst (import_identity w im' path) = true
  /\ identity_info (snd (import_identity w im' path)) = Some info
  /\ cached_hash (snd (import_identity w im' path)) = None.
Proof.
  intros Hinfo Hiso Hsys Hcustom Hfiles Hex Hload.
  pose proof (read_identity_export_text info Hiso Hsys Hcustom Hfiles) as Hread.
  split; [unfold export_identity; now rewrite Hinfo|].
  split; [exact Hread|].
  unfold import_identity. rewrite Hex, Hload, Hread. now repeat split.
Qed.

End ExportImport.

(* ===================================================================== *)
(** * The theorems above at concrete inputs *)
(* ===================================================================== *)

Section Instances.
Import Py.
Local Open Scope string_scope.


(** With the adjusted time beyond the year 9999 no timestamp is
    accepted, however wide the tolerance; beyond what [gmtime] converts
    the call raises. An adjusted time within a second of the timestamp is
    accepted. *)
Lemma verify_timestamp_utc_by_range :
  let late := TimeProvider.init Demo.one_server (Demo.late_api 1736596810) in
  let farther := Demo.answering 0 1000000000000000000 in
  let close := Demo.answering 1736596790 (21 # 2) in
  TimeProvider.verify_timestamp_utc (H := Demo.externals) Demo.glibc64
    (Demo.late_api 1736596815) late Demo.noon 10000000000000
  = TimeProvider.Checked
      {| TimeProvider.valid := false;
         TimeProvider.check_error := Some ValueError;
         TimeProvider.time_difference := None |}
  /\ TimeProvider.verify_timestamp_utc (H := Demo.externals) Demo.glibc64
       farther (TimeProvider.init Demo.one_server farther) Demo.noon
       10000000000000
     = TimeProvider.ConversionError
  /\ TimeProvider.accepted
       (TimeProvider.verify_timestamp_utc (H := Demo.externals) Demo.glibc64
          close (TimeProvider.init Demo.one_server close) Demo.noon 1)
     = true.
Proof. cbv zeta. repeat split. Qed.

Lemma verify_blockchain_hash_accepts_reported_witness :
  BlockchainVerifier.check_valid
    (fst (BlockchainVerifier.verify_blockchain_hash
            (BlockchainVerifier.unreachable 1736596900) "bitcoin" Demo.tip 10
            (BlockchainVerifier.run
               (BlockchainVerifier.init BlockchainVerifier.default_settings)
               [(Demo.online, BlockchainVerifier.ForceUpdate (Some "bitcoin"))])))
  = true.
Proof.
  rewrite (verify_blockchain_hash_accepts_reported
             BlockchainVerifier.default_settings
             [(Demo.online, BlockchainVerifier.ForceUpdate (Some "bitcoin"))]
             Demo.online (BlockchainVerifier.unreachable 1736596900)
             "bitcoin" Demo.tip Demo.tip 10).
  - reflexivity.
  - vm_compute. reflexivity.
Defined.

Lemma refreshed_chain_rescheduled_when_stale_witness :
  In "bitcoin"
     (BlockchainVerifier._update_if_needed
        (BlockchainVerifier.unreachable 1736596900)
        (snd (BlockchainVerifier._update_chain Demo.online "bitcoin"
                (BlockchainVerifier.init BlockchainVerifier.default_settings))))
  <-> In "bitcoin"
         (BlockchainVerifier.enabled_chains
            (BlockchainVerifier.settings
               (BlockchainVerifier.init BlockchainVerifier.default_settings)))
      /\ BlockchainVerifier.cache_duration
           (BlockchainVerifier.settings
              (BlockchainVerifier.init BlockchainVerifier.default_settings))
         < BlockchainVerifier.time_time (BlockchainVerifier.unreachable 1736596900)
           - BlockchainVerifier.time_time Demo.online.
Proof.
  apply refreshed_chain_rescheduled_when_stale. reflexivity.
Defined.

Lemma remove_file_undoes_add_file_witness :
  fst (IdentityManager.remove_file_from_identity
         (snd (IdentityManager.add_file_to_identity (H := Demo.externals)
                 Demo.disk Demo.manager Demo.key_path None))
         (IdentityManager.file_key_of Demo.key_path None)) = true
  /\ IdentityManager._generate_identity_hash (H := Demo.externals)
       (snd (IdentityManager.remove_file_from_identity
               (snd (IdentityManager.add_file_to_identity (H := Demo.externals)
                       Demo.disk Demo.manager Demo.key_path None))
               (IdentityManager.file_key_of Demo.key_path None)))
     = IdentityManager._generate_identity_hash (H := Demo.externals) Demo.manager.
Proof.
  edestruct (remove_file_undoes_add_file (H := Demo.externals) Demo.disk
               Demo.manager Demo.key_path None) as (Hres & _ & Hdigest).
  - vm_compute. reflexivity.
  - reflexivity.
  - vm_compute. reflexivity.
  - split; [exact Hres | exact Hdigest].
Defined.

Lemma file_hash_covers_whole_content_witness :
  IdentityManager._calculate_file_hash (H := Demo.externals) Demo.disk
    Demo.manager Demo.key_path
  = "sha256:ssh-ed25519 AAAAC3Nz demo"
  /\ String.concat ""
       (IdentityManager.read_chunks
          (S (String.length "ssh-ed25519 AAAAC3Nz demo"))
          "ssh-ed25519 AAAAC3Nz demo")
     = "ssh-ed25519 AAAAC3Nz demo"
  /\ Forall (fun c => (0 < String.length c <= IdentityManager.chunk_size)%nat)
            (IdentityManager.read_chunks
               (S (String.length "ssh-ed25519 AAAAC3Nz demo"))
               "ssh-ed25519 AAAAC3Nz demo").
Proof.
  apply (file_hash_covers_whole_content (H := Demo.externals) Demo.disk
           Demo.manager Demo.key_path "ssh-ed25519 AAAAC3Nz demo"
           (fun data => "sha256:" ++ data)).
  - reflexivity.
  - reflexivity.
Defined.

Lemma cache_unused_without_identity_file_entry_witness :
  IdentityManager._identity_changed (H := Demo.externals) Demo.disk
    Demo.file_manager = true
  /\ fst (IdentityManager.get_identity_hash (H := Demo.externals) Demo.disk
            Demo.file_manager)
     = IdentityManager._generate_identity_hash (H := Demo.externals)
         Demo.file_manager
  /\ IdentityManager.hash_generations
       (snd (IdentityManager.get_identity_hash (H := Demo.externals) Demo.disk
               Demo.file_manager))
     = (IdentityManager.hash_generations Demo.file_manager + 1)%Z.
Proof.
  apply (cache_unused_without_identity_file_entry (H := Demo.externals)
           Demo.disk Demo.file_manager Demo.key_path).
  - reflexivity.
  - reflexivity.
  - intros info Hinfo. vm_compute in Hinfo. injection Hinfo as <-. reflexivity.
Defined.


Lemma null_hash_counts_as_match_witness :
  exists r,
    fst (Core.verify_qr_data (H := Demo.externals) Demo.surroundings
           Demo.protocol Demo.forged_text) = Ret r
    /\ Core.blockchain_verified r = true.
Proof.
  apply (null_hash_counts_as_match (H := Demo.externals) Demo.surroundings
           Demo.protocol Demo.forged_text Demo.forged_packet
           [("bitcoin", PNone)] "bitcoin").
  - vm_compute. reflexivity.
  - reflexivity.
  - reflexivity.
  - left. reflexivity.
  - reflexivity.
Defined.

Lemma same_hash_returns_cached_image_witness :
  QRGenerator.generate_qr_image Demo.qr_library
    (snd (QRGenerator.generate_qr_image Demo.qr_library
            (QRGenerator.init Demo.qr_settings) "first" None))
    "second" None
  = (Ret "png:first",
     snd (QRGenerator.generate_qr_image Demo.qr_library
            (QRGenerator.init Demo.qr_settings) "first" None)).
Proof.
  apply same_hash_returns_cached_image; reflexivity.
Defined.

Lemma distinct_NoDup (l : list string) : Json.distinct l = true -> NoDup l.
Proof.
  induction l as [|x l IH]; simpl; [constructor|].
  intros Hd. apply andb_true_iff in Hd as [Hx Hl].
  apply negb_true_iff in Hx. apply str_in_false in Hx.
  constructor; [exact Hx | now apply IH].
Qed.


Lemma identity_hash_ignores_insertion_order_witness :
  IdentityManager._generate_identity_hash (H := Demo.externals) Demo.labelled
  = IdentityManager._generate_identity_hash (H := Demo.externals) Demo.relabelled.
Proof.
  eapply (identity_hash_ignores_insertion_order (H := Demo.externals)).
  - vm_compute. reflexivity.
  - vm_compute. reflexivity.
  - reflexivity.
  - reflexivity.
  - apply Permutation_refl.
  - apply Permutation_refl.
  - apply perm_swap.
  - apply distinct_NoDup. reflexivity.
  - apply distinct_NoDup. reflexivity.
  - apply distinct_NoDup. reflexivity.
Defined.

Lemma import_restores_exported_identity_witness :
  IdentityManager.export_identity (H := Demo.externals) true Demo.exporting
  = (true, Some (IdentityManager.export_text (H := Demo.externals)
                   Demo.exported_info))
  /\ IdentityManager.read_identity (H := Demo.externals)
       (IdentityManager.export_text (H := Demo.externals) Demo.exported_info)
     = Some Demo.exported_info
  /\ fst (IdentityManager.import_identity Demo.archive Demo.manager
            "identity.json") = true
  /\ IdentityManager.identity_info
       (snd (IdentityManager.import_identity Demo.archive Demo.manager
               "identity.json"))
     = Some Demo.exported_info
  /\ IdentityManager.cached_hash
       (snd (IdentityManager.import_identity Demo.archive Demo.manager
               "identity.json"))
     = None.
Proof.
  apply (import_restores_exported_identity (H := Demo.externals) Demo.archive
           Demo.exporting Demo.manager "identity.json" Demo.exported_info).
  - reflexivity.
  - reflexivity.
  - reflexivity.
  - reflexivity.
  - apply distinct_NoDup. reflexivity.
  - reflexivity.
  - reflexivity.
Defined.

End Instances.
